(** * ksonnet-gen/ksonnet: the model tree and its two emitters

    A shallow embedding of [emit.go] (model tree, construction, the
    [emit] methods and the [accept] methods), of the [indentWriter] and
    of the [emitVisitor].

    Conventions of the embedding.
    - Go strings and the string newtypes of package [kubespec] are
      [string]; Go's [<] on strings is the bytewise lexicographic order,
      which is [String.ltb] / [String.le].
    - [log.Panicf] and run-time panics are the outcome [Panic msg];
      [log.Printf] appends to an explicit log.
    - The maps owned by the model tree ([groupSet], [versionedAPISet],
      [apiObjectSet], [propertySet]) are [gmap]s.  A pointer into the
      tree is the path of keys that leads to the node; the tree owns
      every node exactly once, so two pointers are equal exactly when
      the paths are.
    - The two maps of the input that the code ranges over in Go's
      unspecified order ([spec.Definitions], [def.Properties]) are lists
      of bindings with distinct keys: the list order is the order in
      which this run happens to iterate.
    - Packages [kubespec], [jsonnet], [kubeversion], the helpers of
      package [ksonnet] that [emit.go] calls but does not define, and
      the methods of the [indentWriter] that the visitor calls but no
      source file declares, are interfaces (type classes); the general
      theorems hold for all their implementations, and module [Sample]
      gives one implementation to run the code on concrete schemas.
    - The recursion through references ([property.accept] and
      [refMixinAPIObject.accept], [emitHelper] and [emitAsRefMixins])
      is bounded by a fuel; a run that exhausts it ends in
      [OutOfFuel]. *)

From Stdlib Require Import String Ascii ZArith List Lia Permutation.
From Stdlib Require Import Sorting.Sorted.
From stdpp Require Import base option list gmap strings sorting fin_maps.

(** ** Outcomes *)

Inductive result (A : Type) : Type :=
| Ok (a : A)
| Panic (msg : string)
| OutOfFuel.
Arguments Ok {A} a.
Arguments Panic {A} msg.
Arguments OutOfFuel {A}.

Definition isOk {A} (x : result A) : bool :=
  match x with
  | Ok _ => true
  | _ => false
  end.

(** State and panic monad: the Go code mutates what its pointers reach
    and may panic at any call. *)
Definition M (S A : Type) : Type := S -> result (A * S).

Definition ret {S A} (a : A) : M S A := fun s => Ok (a, s).

Definition bind {S A B} (c : M S A) (k : A -> M S B) : M S B :=
  fun s => match c s with
           | Ok (a, s') => k a s'
           | Panic msg => Panic msg
           | OutOfFuel => OutOfFuel
           end.

Definition panic {S A} (msg : string) : M S A := fun _ => Panic msg.
Definition outOfFuel {S A} : M S A := fun _ => OutOfFuel.
Definition get {S} : M S S := fun s => Ok (s, s).
Definition modify {S} (f : S -> S) : M S unit := fun s => Ok (tt, f s).

Notation "x <- c1 ;; c2" := (bind c1 (fun x => c2))
  (at level 100, c1 at next level, right associativity).
Notation "c1 ;;; c2" := (bind c1 (fun _ => c2))
  (at level 100, right associativity).

(** [for _, x := range l { body x }] *)
Fixpoint forM_ {S X} (l : list X) (body : X -> M S unit) : M S unit :=
  match l with
  | [] => ret tt
  | x :: l' => body x ;;; forM_ l' body
  end.

(** A computation that relates the state it ends in to the state it
    starts from, whenever it ends. *)
Definition keeps {S A} (R : S -> S -> Prop) (c : M S A) : Prop :=
  forall s a s', c s = Ok (a, s') -> R s s'.

(** ** Package [strings] *)

Definition HasSuffix (s suffix : string) : bool :=
  let n := String.length s in
  let k := String.length suffix in
  (k <=? n)%nat && String.eqb (substring (n - k) k s) suffix.

Definition TrimSuffix (s suffix : string) : string :=
  if HasSuffix s suffix
  then substring 0 (String.length s - String.length suffix) s
  else s.

Fixpoint Join (elems : list string) (sep : string) : string :=
  match elems with
  | [] => EmptyString
  | [x] => x
  | x :: rest => x +:+ sep +:+ Join rest sep
  end.

(** [strings.Split(text, sep)] for a separator of one byte: the fields
    between the separators, one field more than there are separators. *)
Fixpoint Split (text : string) (sep : ascii) : list string :=
  match text with
  | EmptyString => [EmptyString]
  | String c rest =>
      if Ascii.eqb c sep then EmptyString :: Split rest sep
      else match Split rest sep with
           | [] => [String c EmptyString]
           | l :: ls => String c l :: ls
           end
  end.

Definition HasPrefix (s prefix : string) : bool := String.prefix prefix s.

Definition TrimPrefix (s prefix : string) : string :=
  if HasPrefix s prefix
  then substring (String.length prefix) (String.length s - String.length prefix) s
  else s.

(** [strings.Repeat]: panics on a negative count. *)
Fixpoint repeatString (s : string) (n : nat) : string :=
  match n with
  | O => EmptyString
  | S n' => s +:+ repeatString s n'
  end.

Definition Repeat (s : string) (count : Z) : result string :=
  if (count <? 0)%Z then Panic "strings: negative Repeat count"
  else Ok (repeatString s (Z.to_nat count)).

(** ** Package [kubespec]: the schema as [emit.go] reads it *)

Definition GroupName := string.
Definition VersionString := string.
Definition ObjectKind := string.
Definition PropertyName := string.
Definition DefinitionName := string.
Definition ObjectRef := string.
Definition SchemaType := string.

Record ParsedDefinitionName := {
  Group : option GroupName;
  Version : option VersionString;
  Kind : ObjectKind;
}.

Record Items := {
  Items_Ref : option ObjectRef;
  Items_Type : option SchemaType;
}.

Record Property := {
  Description : string;
  Type_ : option SchemaType;
  Items_ : Items;
  Ref : option ObjectRef;
}.

Record TopLevelSpec := {
  tls_Group : GroupName;
  tls_Version : VersionString;
  tls_Kind : ObjectKind;
}.

Record SchemaDefinition := {
  def_Description : string;
  Properties : list (PropertyName * Property);
  TopLevelSpecs : list TopLevelSpec;
}.

Record APISpec := {
  Info_Version : string;
  Definitions : list (DefinitionName * SchemaDefinition);
}.

(** What [emit.go] calls in package [kubespec]. *)
Class Kubespec := {
  Parse : DefinitionName -> ParsedDefinitionName;
  Unparse : ParsedDefinitionName -> DefinitionName;
  Name : ObjectRef -> DefinitionName;
}.

(** What it calls in package [jsonnet]. *)
Class Jsonnet := {
  RewriteAsIdentifier : string -> string -> string;
  ToSetterID : string -> string;
  ToMixinID : string -> string;
  RewriteAsFuncParam : string -> string -> string;
  RewriteAsFieldKey : string -> string;
}.

Record CustomConstructorParam := {
  param_ID : string;
  DefaultValue : option string;
  RelativePath : option string;
}.

Record CustomConstructorSpec := {
  spec_ID : string;
  Params : list CustomConstructorParam;
}.

(** What it calls in package [kubeversion]. *)
Class Kubeversion := {
  IsBlacklistedProperty : string -> DefinitionName -> PropertyName -> bool;
  ConstructorSpec : string -> DefinitionName -> option (list CustomConstructorSpec);
  KSource : string -> string;
}.

(** Helpers and constants of package [ksonnet] that [emit.go] uses and
    does not define. *)
Class Util := {
  isMixinRef : option ObjectRef -> bool;
  isSpecialProperty : PropertyName -> bool;
  constructorName : string;
  specialPropertiesList : list string;
}.

(** ** Pointers into the model tree *)

Record groupPtr := { gp_hidden : bool; gp_name : GroupName }.
Record versionedAPIPtr := { vp_group : groupPtr; vp_version : VersionString }.
Record apiObjectPtr := { op_va : versionedAPIPtr; op_kind : ObjectKind }.
Record propertyPtr := { pp_obj : apiObjectPtr; pp_key : PropertyName }.

#[global] Instance groupPtr_eq_dec : EqDecision groupPtr.
Proof. solve_decision. Defined.
#[global] Instance versionedAPIPtr_eq_dec : EqDecision versionedAPIPtr.
Proof. solve_decision. Defined.
#[global] Instance apiObjectPtr_eq_dec : EqDecision apiObjectPtr.
Proof. solve_decision. Defined.
#[global] Instance propertyPtr_eq_dec : EqDecision propertyPtr.
Proof. solve_decision. Defined.

(** ** The model tree *)

Inductive propertyKind := method | typeAlias.

#[global] Instance propertyKind_eq_dec : EqDecision propertyKind.
Proof. solve_decision. Defined.

Definition comments := list string.

Record property := {
  prop_kind : propertyKind;
  prop_ref : option ObjectRef;
  prop_schemaType : option SchemaType;
  prop_itemTypes : Items;
  prop_name : PropertyName;
  prop_path : DefinitionName;
  prop_comments : comments;
  prop_parent : apiObjectPtr;
  prop_parentMixinName : string;  (* visit context variable *)
}.

#[global] Instance Items_eq_dec : EqDecision Items.
Proof. solve_decision. Defined.
#[global] Instance property_eq_dec : EqDecision property.
Proof. solve_decision. Defined.

(** [constructor].  [emit.go] declares the field [specName] only; the
    other three are the fields [visitConstructor] reads. *)
Record constructor := {
  specName : PropertyName;
  c_params : list CustomConstructorParam;
  c_defaultSetters : list string;
  c_apiObj : apiObjectPtr;
}.

(** The last field is the [ao.constructors] that [visitAPIObject] ranges
    over; the struct in [emit.go] does not declare it and no code fills
    it. *)
Record apiObject := {
  ao_name : ObjectKind;
  ao_properties : gmap PropertyName property;
  ao_parsedName : ParsedDefinitionName;
  ao_comments : comments;
  ao_parent : versionedAPIPtr;
  ao_isTopLevel : bool;
  ao_constructors : list constructor;
}.

Record versionedAPI := {
  va_version : VersionString;
  va_apiObjects : gmap ObjectKind apiObject;
  va_parent : groupPtr;
}.

(** The [parent *root] of a group is the one root of the run. *)
Record group := {
  group_name : GroupName;
  group_qualifiedName : GroupName;
  group_versionedAPIs : gmap VersionString versionedAPI;
}.

Record root := {
  root_spec : APISpec;
  root_groups : gmap GroupName group;
  root_hiddenGroups : gmap GroupName group;
  ksonnetLibSHA : option string;
  k8sSHA : option string;
}.

(** [sort.Slice(xs, func(i, j) { return key(xs[i]) < key(xs[j]) })]:
    afterwards no element is followed by one with a smaller key.  The
    maps of the tree are keyed by the very name that is compared, so the
    keys of a slice are distinct and this order is the only one. *)
Definition sort_Slice {A} (key : A -> string) (xs : list A) : list A :=
  merge_sort (fun a b => String.le (key a) (key b)) xs.

Section ModelTree.
Context {KS : Kubespec} {JS : Jsonnet} {KV : Kubeversion} {UT : Util}.

Definition k8sVersionOf (r : root) : string := Info_Version (root_spec r).

(** *** [propertySet.sortAndFilterBlacklisted] *)

(** The name looked up in the blacklist. *)
Definition blacklistName (pm : property) : PropertyName :=
  match prop_kind pm with
  | typeAlias => TrimSuffix (prop_name pm) "Type"
  | method => prop_name pm
  end.

(** The two [continue]s of the loop body. *)
Definition refHasNoVersion (pm : property) : bool :=
  match prop_ref pm with
  | Some r => match Version (Parse (Name r)) with
              | None => true
              | Some _ => false
              end
  | None => false
  end.

Definition selected (k8sVersion : string) (pm : property) : bool :=
  if IsBlacklistedProperty k8sVersion (prop_path pm) (blacklistName pm)
  then false
  else negb (refHasNoVersion pm).

(** The function on the bindings in the order the [range] visits them. *)
Definition sortAndFilterBlacklisted_range (k8sVersion : string)
    (visited : list (PropertyName * property)) : list (PropertyName * property) :=
  sort_Slice (fun kv => prop_name kv.2)
    (List.filter (fun kv => selected k8sVersion kv.2) visited).

Definition sortAndFilterBlacklisted (r : root)
    (aos : gmap PropertyName property) : list (PropertyName * property) :=
  sortAndFilterBlacklisted_range (k8sVersionOf r) (map_to_list aos).

(** *** Dereferencing and updating through pointers *)

Definition groupsOf (hidden : bool) (r : root) : gmap GroupName group :=
  if hidden then root_hiddenGroups r else root_groups r.

Definition withGroups (hidden : bool) (gs : gmap GroupName group) (r : root) : root :=
  if hidden
  then {| root_spec := root_spec r; root_groups := root_groups r;
          root_hiddenGroups := gs;
          ksonnetLibSHA := ksonnetLibSHA r; k8sSHA := k8sSHA r |}
  else {| root_spec := root_spec r; root_groups := gs;
          root_hiddenGroups := root_hiddenGroups r;
          ksonnetLibSHA := ksonnetLibSHA r; k8sSHA := k8sSHA r |}.

Definition withVersionedAPIs (vas : gmap VersionString versionedAPI) (g : group) : group :=
  {| group_name := group_name g; group_qualifiedName := group_qualifiedName g;
     group_versionedAPIs := vas |}.

Definition withAPIObjects (aos : gmap ObjectKind apiObject) (va : versionedAPI) : versionedAPI :=
  {| va_version := va_version va; va_apiObjects := aos; va_parent := va_parent va |}.

Definition withProperties (ps : gmap PropertyName property) (ao : apiObject) : apiObject :=
  {| ao_name := ao_name ao; ao_properties := ps; ao_parsedName := ao_parsedName ao;
     ao_comments := ao_comments ao; ao_parent := ao_parent ao;
     ao_isTopLevel := ao_isTopLevel ao; ao_constructors := ao_constructors ao |}.

Definition withParentMixinName (q : string) (p : property) : property :=
  {| prop_kind := prop_kind p; prop_ref := prop_ref p;
     prop_schemaType := prop_schemaType p; prop_itemTypes := prop_itemTypes p;
     prop_name := prop_name p; prop_path := prop_path p;
     prop_comments := prop_comments p; prop_parent := prop_parent p;
     prop_parentMixinName := q |}.

Definition derefGroup (r : root) (gp : groupPtr) : option group :=
  groupsOf (gp_hidden gp) r !! gp_name gp.

Definition derefVersionedAPI (r : root) (vp : versionedAPIPtr) : option versionedAPI :=
  g ← derefGroup r (vp_group vp); group_versionedAPIs g !! vp_version vp.

Definition derefAPIObject (r : root) (op : apiObjectPtr) : option apiObject :=
  va ← derefVersionedAPI r (op_va op); va_apiObjects va !! op_kind op.

Definition derefProperty (r : root) (pp : propertyPtr) : option property :=
  ao ← derefAPIObject r (pp_obj pp); ao_properties ao !! pp_key pp.

Definition alterGroup (f : group -> group) (gp : groupPtr) (r : root) : root :=
  withGroups (gp_hidden gp) (alter f (gp_name gp) (groupsOf (gp_hidden gp) r)) r.

Definition alterVersionedAPI (f : versionedAPI -> versionedAPI)
    (vp : versionedAPIPtr) (r : root) : root :=
  alterGroup (fun g => withVersionedAPIs (alter f (vp_version vp) (group_versionedAPIs g)) g)
    (vp_group vp) r.

Definition alterAPIObject (f : apiObject -> apiObject) (op : apiObjectPtr) (r : root) : root :=
  alterVersionedAPI (fun va => withAPIObjects (alter f (op_kind op) (va_apiObjects va)) va)
    (op_va op) r.

Definition alterProperty (f : property -> property) (pp : propertyPtr) (r : root) : root :=
  alterAPIObject (fun ao => withProperties (alter f (pp_key pp) (ao_properties ao)) ao)
    (pp_obj pp) r.

(** [apiObject.properties[name] = pm] through the pointer [apiObject]. *)
Definition setProperty (op : apiObjectPtr) (name : PropertyName) (pm : property)
    (r : root) : root :=
  alterAPIObject (fun ao => withProperties (<[name := pm]> (ao_properties ao)) ao) op r.

(** A pointer the tree does not hold cannot arise in Go; the model
    panics there. *)
Definition nilDereference : string :=
  "runtime error: invalid memory address or nil pointer dereference".

Definition orNil {S A} (o : option A) : M S A :=
  match o with
  | Some a => ret a
  | None => panic nilDereference
  end.

(** *** Constructors of the nodes *)

Definition newComments (text : string) : comments := Split text "010"%char.

Definition newGroup (name qualifiedName : GroupName) : group :=
  {| group_name := name; group_qualifiedName := qualifiedName;
     group_versionedAPIs := ∅ |}.

Definition newVersionedAPI (version : VersionString) (parent : groupPtr) : versionedAPI :=
  {| va_version := version; va_apiObjects := ∅; va_parent := parent |}.

Definition newAPIObject (name : ParsedDefinitionName) (parent : versionedAPIPtr)
    (def : SchemaDefinition) : apiObject :=
  let isTopLevel := negb (Nat.eqb (length (TopLevelSpecs def)) 0) in
  let comments := newComments (def_Description def) in
  {| ao_name := Kind name; ao_parsedName := name; ao_properties := ∅;
     ao_comments := comments; ao_parent := parent; ao_isTopLevel := isTopLevel;
     ao_constructors := [] |}.

Definition newPropertyMethod (name : PropertyName) (path : DefinitionName)
    (prop : Property) (parent : apiObjectPtr) : property :=
  let comments := newComments (Description prop) in
  {| prop_kind := method; prop_ref := Ref prop; prop_schemaType := Type_ prop;
     prop_itemTypes := Items_ prop; prop_name := name; prop_path := path;
     prop_comments := comments; prop_parent := parent;
     prop_parentMixinName := EmptyString |}.

Definition newPropertyTypeAlias (name : PropertyName) (path : DefinitionName)
    (prop : Property) (parent : apiObjectPtr) : property :=
  let comments := newComments (Description prop) in
  {| prop_kind := typeAlias; prop_ref := Ref prop; prop_schemaType := Type_ prop;
     prop_itemTypes := Items_ prop; prop_name := name; prop_path := path;
     prop_comments := comments; prop_parent := parent;
     prop_parentMixinName := EmptyString |}.

(** *** [root.createAPIObject] *)

Definition groupNameOf (parsedName : ParsedDefinitionName) : GroupName :=
  match Group parsedName with
  | None => "core"
  | Some g => g
  end.

(** The pointer to the object a parsed name leads to in one of the two
    sets of groups. *)
Definition objectAt (hidden : bool) (parsedName : ParsedDefinitionName)
    (version : VersionString) : apiObjectPtr :=
  {| op_va := {| vp_group := {| gp_hidden := hidden; gp_name := groupNameOf parsedName |};
                 vp_version := version |};
     op_kind := Kind parsedName |}.

Definition createAPIObject (parsedName : ParsedDefinitionName) (def : SchemaDefinition)
    : M root apiObjectPtr :=
  match Version parsedName with
  | None =>
      panic ("Can't make API object from name with nil version in path: '"
               +:+ Unparse parsedName +:+ "'")
  | Some version =>
      let groupName := groupNameOf parsedName in
      let qualifiedName :=
        match TopLevelSpecs def with
        | t :: _ => if String.eqb (tls_Group t) EmptyString then groupName else tls_Group t
        | [] => groupName
        end in
      (* Separate out top-level definitions from everything else. *)
      let hidden := Nat.eqb (length (TopLevelSpecs def)) 0 in
      let op := objectAt hidden parsedName version in
      let vp := op_va op in
      let gp := vp_group vp in
      r <- get;;
      let groups := groupsOf hidden r in
      let group := default (newGroup groupName qualifiedName) (groups !! groupName) in
      let versionedAPI :=
        default (newVersionedAPI version gp) (group_versionedAPIs group !! version) in
      match va_apiObjects versionedAPI !! Kind parsedName with
      | Some _ =>
          panic ("Duplicate object kinds with name '" +:+ Unparse parsedName +:+ "'")
      | None =>
          let apiObject := newAPIObject parsedName vp def in
          let versionedAPI' :=
            withAPIObjects (<[Kind parsedName := apiObject]> (va_apiObjects versionedAPI))
              versionedAPI in
          let group' :=
            withVersionedAPIs (<[version := versionedAPI']> (group_versionedAPIs group))
              group in
          modify (withGroups hidden (<[groupName := group']> groups));;;
          ret op
      end
  end.

(** *** [root.addDefinition] *)

Definition wantsTypeAlias (pm : property) (prop : Property) : bool :=
  isMixinRef (prop_ref pm)
  || match Type_ prop with
     | Some st => String.eqb st "array" && bool_decide (Items_Ref (Items_ prop) ≠ None)
     | None => false
     end.

Definition addProperty (path : DefinitionName) (apiObject : apiObjectPtr)
    (binding : PropertyName * Property) : M root unit :=
  let '(propName, prop) := binding in
  let pm := newPropertyMethod propName path prop apiObject in
  modify (setProperty apiObject propName pm);;;
  if wantsTypeAlias pm prop then
    let typeAliasName := propName +:+ "Type" in
    r <- get;;
    ao <- orNil (derefAPIObject r apiObject);;
    match ao_properties ao !! typeAliasName with
    | Some ta =>
        if bool_decide (prop_kind ta ≠ typeAlias)
        then panic ("Can't create type alias '" +:+ typeAliasName
                      +:+ "' because a property with that name already exists")
        else ret tt
    | None => ret tt
    end;;;
    modify (setProperty apiObject typeAliasName
              (newPropertyTypeAlias typeAliasName path prop apiObject))
  else ret tt.

Definition addDefinition (path : DefinitionName) (def : SchemaDefinition) : M root unit :=
  let parsedName := Parse path in
  match Version parsedName with
  | None => ret tt
  | Some _ =>
      apiObject <- createAPIObject parsedName def;;
      forM_ (Properties def) (addProperty path apiObject)
  end.

(** *** [newRoot] *)

Definition emptyRoot (spec : APISpec) (ksonnetLibSHA k8sSHA : option string) : root :=
  {| root_spec := spec; root_groups := ∅; root_hiddenGroups := ∅;
     ksonnetLibSHA := ksonnetLibSHA; k8sSHA := k8sSHA |}.

Definition newRoot (spec : APISpec) (ksonnetLibSHA k8sSHA : option string) : result root :=
  match forM_ (Definitions spec) (fun '(defName, def) => addDefinition defName def)
          (emptyRoot spec ksonnetLibSHA k8sSHA) with
  | Ok (_, r) => Ok r
  | Panic msg => Panic msg
  | OutOfFuel => OutOfFuel
  end.

(** *** [root.getAPIObjectHelper] and [root.getAPIObject] *)

(** The returned pair of a pointer and an [error]: a pointer, or the
    text of the error. *)
Definition getAPIObjectHelper (r : root) (parsedName : ParsedDefinitionName)
    (hidden : bool) : result (apiObjectPtr + string) :=
  match Version parsedName with
  | None =>
      Panic ("Can't get API object with nil version: '" +:+ Unparse parsedName +:+ "'")
  | Some version =>
      let groupName := groupNameOf parsedName in
      (* [if hidden { groups = root.groups } else { groups = root.hiddenGroups }] *)
      let inHidden := negb hidden in
      let groups := groupsOf inHidden r in
      match groups !! groupName with
      | None =>
          Ok (inr ("Could not retrieve object, group in path '"
                     +:+ Unparse parsedName +:+ "' doesn't exist"))
      | Some group =>
          match group_versionedAPIs group !! version with
          | None =>
              Ok (inr ("Could not retrieve object, versioned API in path '"
                         +:+ Unparse parsedName +:+ "' doesn't exist"))
          | Some versionedAPI =>
              match va_apiObjects versionedAPI !! Kind parsedName with
              | Some _ =>
                  Ok (inl (objectAt inHidden parsedName version))
              | None =>
                  Ok (inr ("Could not retrieve object, kind in path '"
                             +:+ Unparse parsedName +:+ "' doesn't exist"))
              end
          end
      end
  end.

Definition getAPIObject (r : root) (parsedName : ParsedDefinitionName)
    : result apiObjectPtr :=
  match getAPIObjectHelper r parsedName false with
  | Ok (inl ao) => Ok ao
  | Ok (inr _) =>
      match getAPIObjectHelper r parsedName true with
      | Ok (inl ao) => Ok ao
      | Ok (inr err) => Panic err
      | Panic msg => Panic msg
      | OutOfFuel => OutOfFuel
      end
  | Panic msg => Panic msg
  | OutOfFuel => OutOfFuel
  end.

(** *** The sorted slices of the three sets *)

Definition groupSet_toSortedSlice (gs : gmap GroupName group) : list (GroupName * group) :=
  sort_Slice (fun kv => group_name kv.2) (map_to_list gs).

Definition versionedAPISet_toSortedSlice (vas : gmap VersionString versionedAPI)
    : list (VersionString * versionedAPI) :=
  sort_Slice (fun kv => va_version kv.2) (map_to_list vas).

Definition apiObjectSet_toSortedSlice (aos : gmap ObjectKind apiObject)
    : list (ObjectKind * apiObject) :=
  sort_Slice (fun kv => ao_name kv.2) (map_to_list aos).

(** ** The [indentWriter] *)

Record indentedLine := { line_depth : Z; line_text : string }.

Record indentWriter := { iw_depth : Z; iw_lines : list indentedLine }.

Definition newIndentWriter : indentWriter := {| iw_depth := 0; iw_lines := [] |}.

Definition writeLine (text : string) (i : indentWriter) : indentWriter :=
  {| iw_depth := iw_depth i;
     iw_lines := iw_lines i ++ [{| line_depth := iw_depth i; line_text := text |}] |}.

Definition insert_ (o : indentWriter) (i : indentWriter) : indentWriter :=
  {| iw_depth := iw_depth i;
     iw_lines := iw_lines i
                 ++ List.map (fun l => {| line_depth := line_depth l + iw_depth i;
                                          line_text := line_text l |}) (iw_lines o) |}.

Definition indent (i : indentWriter) : indentWriter :=
  {| iw_depth := iw_depth i + 1; iw_lines := iw_lines i |}.

Definition dedent (i : indentWriter) : indentWriter :=
  {| iw_depth := iw_depth i - 1; iw_lines := iw_lines i |}.

(** The writer after [writeLine] on each of [texts] in turn. *)
Definition wrote (texts : list string) (i : indentWriter) : indentWriter :=
  {| iw_depth := iw_depth i;
     iw_lines := iw_lines i
                 ++ List.map (fun t => {| line_depth := iw_depth i; line_text := t |}) texts |}.

(** A [bytes.Buffer] is the text written to it so far. *)
Definition Buffer := string.

Definition newline : string := String "010"%char EmptyString.

(** The double quote character. *)
Definition dquote : string := String "034"%char EmptyString.

(** [indentWriter.write]: [buffer.WriteString] reports no error. *)
Fixpoint writeLines (ls : list indentedLine) (buffer : Buffer) : result Buffer :=
  match ls with
  | [] => Ok buffer
  | l :: ls' =>
      match Repeat "  " (line_depth l) with
      | Ok prefix => writeLines ls' (buffer +:+ prefix +:+ line_text l +:+ newline)
      | Panic msg => Panic msg
      | OutOfFuel => OutOfFuel
      end
  end.

Definition write (i : indentWriter) (buffer : Buffer) : result Buffer :=
  writeLines (iw_lines i) buffer.

(** ** The [emit] methods *)

(** What an [emit] method can change: the writer it is handed and the
    standard logger. *)
Record emitState := { es_m : indentWriter; es_log : list string }.

Definition onWriter (f : indentWriter -> indentWriter) : M emitState unit :=
  modify (fun s => {| es_m := f (es_m s); es_log := es_log s |}).

Definition m_writeLine (text : string) : M emitState unit := onWriter (writeLine text).
Definition m_indent : M emitState unit := onWriter indent.
Definition m_dedent : M emitState unit := onWriter dedent.

Definition log_Printf (text : string) : M emitState unit :=
  modify (fun s => {| es_m := es_m s; es_log := es_log s ++ [text] |}).

Definition liftResult {S A} (x : result A) : M S A :=
  fun s => match x with
           | Ok a => Ok (a, s)
           | Panic msg => Panic msg
           | OutOfFuel => OutOfFuel
           end.

(** *** [comments.emit] *)

Definition commentLine (comment : string) : string :=
  if String.eqb comment EmptyString then "//" else "// " +:+ comment.

Definition comments_emit (cs : comments) : M emitState unit :=
  forM_ cs (fun comment => m_writeLine (commentLine comment)).

(** *** [property.emitAsTypeAlias] *)

(** The reference an alias names: its own, or else that of its items. *)
Definition aliasRef (p : property) : option ObjectRef :=
  match prop_ref p with
  | Some r => Some r
  | None => Items_Ref (prop_itemTypes p)
  end.

Definition aliasTarget {S} (p : property) : M S DefinitionName :=
  r <- orNil (aliasRef p);; ret (Name r).

Definition couldNotEmitTypeAlias (path : DefinitionName) : string :=
  "Could not emit type alias for '" +:+ path +:+ "'" +:+ newline.

(** The line of an alias; [version] is what the pointer
    [parsedPath.Version] prints as through the [String] method of
    [VersionString]. *)
Definition typeAliasLine (k8sVersion : string) (p : property)
    (parsedPath : ParsedDefinitionName) (version : VersionString) : string :=
  let trimmedName := TrimSuffix (prop_name p) "Type" in
  let typeName := RewriteAsIdentifier k8sVersion trimmedName +:+ "Type" in
  let group := groupNameOf parsedPath in
  let id := RewriteAsIdentifier k8sVersion (Kind parsedPath) in
  typeName +:+ ":: hidden." +:+ group +:+ "." +:+ version +:+ "." +:+ id +:+ ",".

Definition emitAsTypeAlias (r : root) (p : property) : M emitState unit :=
  path <- aliasTarget p;;
  let parsedPath := Parse path in
  match Version parsedPath with
  | None => log_Printf (couldNotEmitTypeAlias path)
  | Some version => m_writeLine (typeAliasLine (k8sVersionOf r) p parsedPath version)
  end.

(** *** [property.emitHelper] and [apiObject.emitAsRefMixins] *)

Definition lowercaseCollision (name : string) (version : VersionString) : string :=
  "Tried to lowercase first character of object kind '" +:+ name
    +:+ "', but lowercase name was already present in version '" +:+ version +:+ "'".

(** [apiObject.emitAsRefMixins], with the call [pm.emitAsRefMixin] it
    makes on every property left open. *)
Definition emitAsRefMixins_with
    (emitAsRefMixin : property -> string -> M emitState unit)
    (r : root) (ao : apiObject) (p : property) (parentMixinName : option string)
    : M emitState unit :=
  let k8sVersion := k8sVersionOf r in
  let functionName := RewriteAsIdentifier k8sVersion (prop_name p) in
  let paramName := RewriteAsFuncParam k8sVersion (prop_name p) in
  let fieldName := RewriteAsFieldKey (prop_name p) in
  let mixinName := "__" +:+ functionName +:+ "Mixin" in
  let mixinText :=
    match parentMixinName with
    | None =>
        "local " +:+ mixinName +:+ "(" +:+ paramName +:+ ") = {" +:+ fieldName
          +:+ "+: " +:+ paramName +:+ "},"
    | Some parent =>
        "local " +:+ mixinName +:+ "(" +:+ paramName +:+ ") = " +:+ parent +:+ "({"
          +:+ fieldName +:+ "+: " +:+ paramName +:+ "}),"
    end in
  va <- orNil (derefVersionedAPI r (ao_parent ao));;
  (if bool_decide (is_Some (va_apiObjects va !! functionName))
   then panic (lowercaseCollision functionName (va_version va))
   else ret tt);;;
  m_writeLine (functionName +:+ ":: {");;;
  m_indent;;;
  m_writeLine mixinText;;;
  m_writeLine ("mixinInstance(" +:+ paramName +:+ "):: " +:+ mixinName +:+ "("
                 +:+ paramName +:+ "),");;;
  forM_ (sortAndFilterBlacklisted r (ao_properties ao))
    (fun kv => if isSpecialProperty (prop_name kv.2) then ret tt
               else emitAsRefMixin kv.2 mixinName);;;
  m_dedent;;;
  m_writeLine "},".

(** [property.emitHelper]; [fuel] bounds the depth of the references it
    follows. *)
Fixpoint emitHelper (fuel : nat) (r : root) (p : property)
    (parentMixinName : option string) : M emitState unit :=
  match fuel with
  | O => outOfFuel
  | S fuel' =>
      if bool_decide (prop_kind p = typeAlias) then emitAsTypeAlias r p
      else
        comments_emit (prop_comments p);;;
        let k8sVersion := k8sVersionOf r in
        let setterFunctionName := ToSetterID (RewriteAsIdentifier k8sVersion (prop_name p)) in
        let mixinFunctionName := ToMixinID (RewriteAsIdentifier k8sVersion (prop_name p)) in
        let paramName := RewriteAsFuncParam k8sVersion (prop_name p) in
        let fieldName := RewriteAsFieldKey (prop_name p) in
        let setterSignature := setterFunctionName +:+ "(" +:+ paramName +:+ ")::" in
        let mixinSignature := mixinFunctionName +:+ "(" +:+ paramName +:+ ")::" in
        if isMixinRef (prop_ref p) then
          ref <- orNil (prop_ref p);;
          let parsedRefPath := Parse (Name ref) in
          apiObject <- liftResult (getAPIObject r parsedRefPath);;
          ao <- orNil (derefAPIObject r apiObject);;
          emitAsRefMixins_with (fun pm name => emitHelper fuel' r pm (Some name))
            r ao p parentMixinName
        else if bool_decide (prop_ref p ≠ None) then
          let body :=
            match parentMixinName with
            | None => "{" +:+ fieldName +:+ ": " +:+ paramName +:+ "}"
            | Some parent =>
                parent +:+ "({" +:+ fieldName +:+ ": " +:+ paramName +:+ "})"
            end in
          m_writeLine (setterSignature +:+ " " +:+ body +:+ ",")
        else
          match prop_schemaType p with
          | Some paramType =>
              (* Generate both setter and mixin functions for some property. *)
              bodies <-
                (if String.eqb paramType "array" then
                   match parentMixinName with
                   | None =>
                       ret (true,
                            "if std.type(" +:+ paramName +:+ ") == " +:+ dquote +:+ "array"
                              +:+ dquote +:+ " then {" +:+ fieldName +:+ ": " +:+ paramName
                              +:+ "} else {" +:+ fieldName +:+ ": [" +:+ paramName +:+ "]}",
                            "if std.type(" +:+ paramName +:+ ") == " +:+ dquote +:+ "array"
                              +:+ dquote +:+ " then {" +:+ fieldName +:+ "+: " +:+ paramName
                              +:+ "} else {" +:+ fieldName +:+ "+: [" +:+ paramName +:+ "]}")
                   | Some parent =>
                       ret (true,
                            "if std.type(" +:+ paramName +:+ ") == " +:+ dquote +:+ "array"
                              +:+ dquote +:+ " then " +:+ parent +:+ "({" +:+ fieldName
                              +:+ ": " +:+ paramName +:+ "}) else " +:+ parent +:+ "({"
                              +:+ fieldName +:+ ": [" +:+ paramName +:+ "]})",
                            "if std.type(" +:+ paramName +:+ ") == " +:+ dquote +:+ "array"
                              +:+ dquote +:+ " then " +:+ parent +:+ "({" +:+ fieldName
                              +:+ "+: " +:+ paramName +:+ "}) else " +:+ parent +:+ "({"
                              +:+ fieldName +:+ "+: [" +:+ paramName +:+ "]})")
                   end
                 else if String.eqb paramType "integer" || String.eqb paramType "string"
                         || String.eqb paramType "boolean" then
                   match parentMixinName with
                   | None =>
                       ret (false, "{" +:+ fieldName +:+ ": " +:+ paramName +:+ "}",
                            EmptyString)
                   | Some parent =>
                       ret (false,
                            parent +:+ "({" +:+ fieldName +:+ ": " +:+ paramName +:+ "})",
                            EmptyString)
                   end
                 else if String.eqb paramType "object" then
                   match parentMixinName with
                   | None =>
                       ret (true, "{" +:+ fieldName +:+ ": " +:+ paramName +:+ "}",
                            "{" +:+ fieldName +:+ "+: " +:+ paramName +:+ "}")
                   | Some parent =>
                       ret (true,
                            parent +:+ "({" +:+ fieldName +:+ ": " +:+ paramName +:+ "})",
                            parent +:+ "({" +:+ fieldName +:+ "+: " +:+ paramName +:+ "})")
                   end
                 else panic ("Unrecognized type '" +:+ paramType +:+ "'"));;
              let '(emitMixin, setterBody, mixinBody) := bodies in
              (* Emit. *)
              m_writeLine (setterSignature +:+ " self + " +:+ setterBody +:+ ",");;;
              if emitMixin : bool then
                comments_emit (prop_comments p);;;
                m_writeLine (mixinSignature +:+ " self + " +:+ mixinBody +:+ ",")
              else ret tt
          | None => panic "Neither a type nor a ref"
          end
  end.

Definition property_emit (fuel : nat) (r : root) (p : property) : M emitState unit :=
  emitHelper fuel r p None.

Definition emitAsRefMixin (fuel : nat) (r : root) (p : property)
    (parentMixinName : string) : M emitState unit :=
  emitHelper fuel r p (Some parentMixinName).

Definition emitAsRefMixins (fuel : nat) (r : root) (ao : apiObject) (p : property)
    (parentMixinName : option string) : M emitState unit :=
  emitAsRefMixins_with (emitAsRefMixin fuel r) r ao p parentMixinName.

(** *** [apiObject.emitConstructor] and [apiObject.emitConstructors] *)

Definition paramLiteral (param : CustomConstructorParam) : string :=
  match DefaultValue param with
  | Some d => param_ID param +:+ "=" +:+ d
  | None => param_ID param
  end.

(** The element a parameter adds to the body of a constructor. *)
Definition paramSetter (r : root) (ao : apiObject) (param : CustomConstructorParam)
    : result string :=
  match RelativePath param with
  | None =>
      match ao_properties ao !! param_ID param with
      | None =>
          Panic ("Attempted to create constructor, but property '" +:+ param_ID param
                   +:+ "' does not exist")
      | Some prop =>
          let propMethodName :=
            ToSetterID (RewriteAsIdentifier (k8sVersionOf r) (prop_name prop)) in
          Ok ("self." +:+ propMethodName +:+ "(" +:+ param_ID param +:+ ")")
      end
  | Some relativePath =>
      Ok ("self." +:+ relativePath +:+ "(" +:+ param_ID param +:+ ")")
  end.

Fixpoint paramSetters (r : root) (ao : apiObject) (params : list CustomConstructorParam)
    : result (list string) :=
  match params with
  | [] => Ok []
  | param :: rest =>
      match paramSetter r ao param with
      | Ok s =>
          match paramSetters r ao rest with
          | Ok ss => Ok (s :: ss)
          | Panic msg => Panic msg
          | OutOfFuel => OutOfFuel
          end
      | Panic msg => Panic msg
      | OutOfFuel => OutOfFuel
      end
  end.

Definition emitConstructor (r : root) (ao : apiObject) (id : string)
    (params : list CustomConstructorParam) : M emitState unit :=
  (* Panic if a function with the constructor's name already exists. *)
  let specName := id in
  match ao_properties ao !! specName with
  | Some dm =>
      panic ("Attempted to create constructor, but '" +:+ specName
               +:+ "' property already existed at '" +:+ prop_path dm +:+ "'")
  | None =>
      let defaultSetters :=
        if ao_isTopLevel ao then specialPropertiesList else ["{}"] in
      let paramLiterals := List.map paramLiteral params in
      added <- liftResult (paramSetters r ao params);;
      let setters := defaultSetters ++ added in
      let paramsText := Join paramLiterals ", " in
      let bodyText := Join setters " + " in
      m_writeLine (specName +:+ "(" +:+ paramsText +:+ "):: " +:+ bodyText +:+ ",")
  end.

Definition emitConstructors (r : root) (ao : apiObject) : M emitState unit :=
  let k8sVersion := k8sVersionOf r in
  let path := Unparse (ao_parsedName ao) in
  match ConstructorSpec k8sVersion path with
  | None => emitConstructor r ao constructorName []
  | Some specs => forM_ specs (fun spec => emitConstructor r ao (spec_ID spec) (Params spec))
  end.

(** *** [apiObject.emit] *)

Definition apiObject_emit (fuel : nat) (r : root) (ao : apiObject) : M emitState unit :=
  let k8sVersion := k8sVersionOf r in
  let jsonnetName := RewriteAsIdentifier k8sVersion (ao_name ao) in
  va <- orNil (derefVersionedAPI r (ao_parent ao));;
  (if bool_decide (is_Some (va_apiObjects va !! jsonnetName))
   then panic (lowercaseCollision jsonnetName (va_version va))
   else ret tt);;;
  comments_emit (ao_comments ao);;;
  m_writeLine (jsonnetName +:+ ":: {");;;
  m_indent;;;
  (if ao_isTopLevel ao
   then m_writeLine ("local kind = {kind: " +:+ dquote +:+ ao_name ao +:+ dquote +:+ "},")
   else ret tt);;;
  emitConstructors r ao;;;
  forM_ (sortAndFilterBlacklisted r (ao_properties ao))
    (fun kv =>
       (* Skip special properties and fields that $ref another API object
          type, since those will go in the mixin namespace. *)
       if isSpecialProperty (prop_name kv.2) || isMixinRef (prop_ref kv.2) then ret tt
       else property_emit fuel r kv.2);;;
  m_writeLine "mixin:: {";;;
  m_indent;;;
  forM_ (sortAndFilterBlacklisted r (ao_properties ao))
    (fun kv =>
       if negb (isMixinRef (prop_ref kv.2)) then ret tt
       else property_emit fuel r kv.2);;;
  m_dedent;;;
  m_writeLine "},";;;
  m_dedent;;;
  m_writeLine "},".

(** *** [versionedAPI.emit] *)

Definition apiVersionLine (gn : GroupName) (version : VersionString) : string :=
  if String.eqb gn "core"
  then "local apiVersion = {apiVersion: " +:+ dquote +:+ version +:+ dquote +:+ "},"
  else "local apiVersion = {apiVersion: " +:+ dquote +:+ gn +:+ "/" +:+ version
         +:+ dquote +:+ "},".

Definition versionedAPI_emit (fuel : nat) (r : root) (va : versionedAPI)
    : M emitState unit :=
  m_writeLine (va_version va +:+ ":: {");;;
  m_indent;;;
  parent <- orNil (derefGroup r (va_parent va));;
  let gn := group_qualifiedName parent in
  m_writeLine (apiVersionLine gn (va_version va));;;
  (* Emit in sorted order so that we can diff the output. *)
  forM_ (apiObjectSet_toSortedSlice (va_apiObjects va))
    (fun kv => apiObject_emit fuel r kv.2);;;
  m_dedent;;;
  m_writeLine "},".

(** *** [group.emit] *)

Definition group_emit (fuel : nat) (r : root) (group : group) : M emitState unit :=
  let k8sVersion := k8sVersionOf r in
  let mixinName := RewriteAsIdentifier k8sVersion (group_name group) in
  m_writeLine (mixinName +:+ ":: {");;;
  m_indent;;;
  (* Emit in sorted order so that we can diff the output. *)
  forM_ (versionedAPISet_toSortedSlice (group_versionedAPIs group))
    (fun kv => versionedAPI_emit fuel r kv.2);;;
  m_dedent;;;
  m_writeLine "},".

(** *** [root.emit] *)

Definition root_emit (fuel : nat) (r : root) : M emitState unit :=
  m_writeLine "// AUTOGENERATED from the Kubernetes OpenAPI specification. DO NOT MODIFY.";;;
  m_writeLine ("// Kubernetes version: " +:+ k8sVersionOf r);;;
  match ksonnetLibSHA r with
  | Some sha => m_writeLine ("// SHA of ksonnet-lib HEAD: " +:+ sha)
  | None => ret tt
  end;;;
  match ksonnetLibSHA r with
  | Some _ =>
      sha <- orNil (k8sSHA r);;
      m_writeLine ("// SHA of Kubernetes HEAD OpenAPI spec is generated from: " +:+ sha)
  | None => ret tt
  end;;;
  m_writeLine EmptyString;;;
  m_writeLine "{";;;
  m_indent;;;
  (* Emit in sorted order so that we can diff the output. *)
  forM_ (groupSet_toSortedSlice (root_groups r)) (fun kv => group_emit fuel r kv.2);;;
  m_writeLine "local hidden = {";;;
  m_indent;;;
  forM_ (groupSet_toSortedSlice (root_hiddenGroups r)) (fun kv => group_emit fuel r kv.2);;;
  m_dedent;;;
  m_writeLine "},";;;
  m_dedent;;;
  m_writeLine "}".

(** ** The [accept] methods *)

(** The address of a [comments] field: [&ao.comments] or [&p.comments]. *)
Inductive commentsPtr :=
| CommentsOfObject (ao : apiObjectPtr)
| CommentsOfProperty (p : propertyPtr).

Definition derefComments (r : root) (cs : commentsPtr) : option comments :=
  match cs with
  | CommentsOfObject ao => ao_comments <$> derefAPIObject r ao
  | CommentsOfProperty p => prop_comments <$> derefProperty r p
  end.

(** [refMixinAPIObject].  The embedded [apiObject] is a copy of the
    object referred to: its [properties] map and its [parent] are the
    object's own (a copied map or pointer reaches the same nodes), and
    no code assigns the other copied fields after construction, so the
    model reads all of them through the pointer to that object. *)
Record refMixinAPIObject := {
  rmao_apiObject : apiObjectPtr;
  rmao_prop : propertyPtr;
  rmao_parentMixinName : string;
}.

(** A pointer to a constructor: its place in [ao.constructors]. *)
Record constructorPtr := { cp_obj : apiObjectPtr; cp_index : nat }.

Definition derefConstructor (r : root) (c : constructorPtr) : option constructor :=
  ao ← derefAPIObject r (cp_obj c); ao_constructors ao !! cp_index c.

(** A visit reads the tree and changes the visitor and the log. *)
Definition visiting (V : Type) : Type := M (V * list string) unit.

(** The interface [Visitor]. *)
Class Visitor (V : Type) := {
  visitRoot : root -> visiting V;
  visitGroup : root -> groupPtr -> bool -> visiting V;
  visitVersionedAPI : root -> versionedAPIPtr -> visiting V;
  visitComments : root -> commentsPtr -> visiting V;
  visitAPIObject : root -> apiObjectPtr -> visiting V;
  visitRefMixinAPIObject : root -> refMixinAPIObject -> visiting V;
  visitConstructor : root -> constructorPtr -> visiting V;
  visitProperty : root -> propertyPtr -> visiting V;
  visitTypeAlias : root -> propertyPtr -> visiting V;
  visitRefProperty : root -> propertyPtr -> visiting V;
}.

(** What an [accept] method can change: the tree (the nodes are reached
    through pointers), the visitor and the log. *)
Record visitState (V : Type) := {
  vs_root : root;
  vs_visitor : V;
  vs_log : list string;
}.
#[global] Arguments vs_root {V} _.
#[global] Arguments vs_visitor {V} _.
#[global] Arguments vs_log {V} _.

Definition visit {V} (f : root -> visiting V) : M (visitState V) unit :=
  fun s => match f (vs_root s) (vs_visitor s, vs_log s) with
           | Ok (_, (v, l)) => Ok (tt, {| vs_root := vs_root s; vs_visitor := v; vs_log := l |})
           | Panic msg => Panic msg
           | OutOfFuel => OutOfFuel
           end.

(** [pm.parentMixinName = name] *)
Definition setParentMixinName {V} (pm : propertyPtr) (name : string)
    : M (visitState V) unit :=
  modify (fun s => {| vs_root := alterProperty (withParentMixinName name) pm (vs_root s);
                      vs_visitor := vs_visitor s; vs_log := vs_log s |}).

Definition theRoot {V} : M (visitState V) root := s <- get;; ret (vs_root s).

(** [refMixinAPIObject.accept], with the call [pm.accept] left open. *)
Definition refMixinAPIObject_accept_with {V} `{Visitor V}
    (property_accept : propertyPtr -> M (visitState V) unit)
    (rmao : refMixinAPIObject) : M (visitState V) unit :=
  r <- theRoot;;
  ao <- orNil (derefAPIObject r (rmao_apiObject rmao));;
  forM_ (sortAndFilterBlacklisted r (ao_properties ao))
    (fun kv =>
       if isSpecialProperty (prop_name kv.2) then ret tt
       else
         let pm := {| pp_obj := rmao_apiObject rmao; pp_key := kv.1 |} in
         setParentMixinName pm (rmao_parentMixinName rmao);;;
         property_accept pm);;;
  visit (fun r => visitRefMixinAPIObject r rmao).

(** [property.accept]; [fuel] bounds the depth of the references it
    follows. *)
Fixpoint property_accept {V} `{Visitor V} (fuel : nat) (pp : propertyPtr)
    : M (visitState V) unit :=
  match fuel with
  | O => outOfFuel
  | S fuel' =>
      r <- theRoot;;
      p <- orNil (derefProperty r pp);;
      if bool_decide (prop_kind p = typeAlias) then visit (fun r => visitTypeAlias r pp)
      else
        visit (fun r => visitComments r (CommentsOfProperty pp));;;
        if isMixinRef (prop_ref p) then
          ref <- orNil (prop_ref p);;
          let parsedRefPath := Parse (Name ref) in
          apiObject <- liftResult (getAPIObject r parsedRefPath);;
          let rmao := {| rmao_apiObject := apiObject; rmao_prop := pp;
                         rmao_parentMixinName := EmptyString |} in
          refMixinAPIObject_accept_with (property_accept fuel') rmao
        else if bool_decide (prop_ref p ≠ None) then visit (fun r => visitRefProperty r pp)
        else if bool_decide (prop_schemaType p = None) then panic "Neither a type nor a ref"
        else visit (fun r => visitProperty r pp)
  end.

Definition refMixinAPIObject_accept {V} `{Visitor V} (fuel : nat)
    (rmao : refMixinAPIObject) : M (visitState V) unit :=
  refMixinAPIObject_accept_with (property_accept fuel) rmao.

(** [apiObject.accept] *)
Definition apiObject_accept {V} `{Visitor V} (fuel : nat) (op : apiObjectPtr)
    : M (visitState V) unit :=
  visit (fun r => visitComments r (CommentsOfObject op));;;
  r <- theRoot;;
  ao <- orNil (derefAPIObject r op);;
  forM_ (sortAndFilterBlacklisted r (ao_properties ao))
    (fun kv => property_accept fuel {| pp_obj := op; pp_key := kv.1 |});;;
  visit (fun r => visitAPIObject r op).

(** [versionedAPI.accept] *)
Definition versionedAPI_accept {V} `{Visitor V} (fuel : nat) (vp : versionedAPIPtr)
    : M (visitState V) unit :=
  r <- theRoot;;
  va <- orNil (derefVersionedAPI r vp);;
  forM_ (apiObjectSet_toSortedSlice (va_apiObjects va))
    (fun kv => apiObject_accept fuel {| op_va := vp; op_kind := kv.1 |});;;
  visit (fun r => visitVersionedAPI r vp).

(** [group.accept] *)
Definition group_accept {V} `{Visitor V} (fuel : nat) (gp : groupPtr) (hidden : bool)
    : M (visitState V) unit :=
  r <- theRoot;;
  group <- orNil (derefGroup r gp);;
  forM_ (versionedAPISet_toSortedSlice (group_versionedAPIs group))
    (fun kv => versionedAPI_accept fuel {| vp_group := gp; vp_version := kv.1 |});;;
  visit (fun r => visitGroup r gp hidden).

(** [root.accept] *)
Definition root_accept {V} `{Visitor V} (fuel : nat) : M (visitState V) unit :=
  r <- theRoot;;
  forM_ (groupSet_toSortedSlice (root_groups r))
    (fun kv => group_accept fuel {| gp_hidden := false; gp_name := kv.1 |} false);;;
  forM_ (groupSet_toSortedSlice (root_hiddenGroups r))
    (fun kv => group_accept fuel {| gp_hidden := true; gp_name := kv.1 |} true);;;
  visit visitRoot.

(** ** The [emitVisitor] *)

(** The methods that [Emit] and the visitor call on the [indentWriter]
    and that no source file declares: [bufferWriteLine], [bytes], and
    the [write] that takes a buffer by value (the [write] declared with
    the [indentWriter] takes a pointer to the buffer it renders its
    lines into, and returns an error). *)
Class IndentWriterBuffers := {
  bufferWriteLine : indentWriter -> Buffer -> string -> Buffer;
  writeBuffer : indentWriter -> Buffer -> indentWriter;
  bytes : indentWriter -> Buffer + string;
}.

(** The keys of [emitVisitor.buffers]: the pointers the visitor stores
    buffers under. *)
Inductive bufferKey :=
| KeyVersionedAPI (va : versionedAPIPtr)
| KeyAPIObject (ao : apiObjectPtr)
| KeyProperty (p : propertyPtr)
| KeyComments (cs : commentsPtr)
| KeyConstructor (c : constructorPtr).

Definition encodeGroupPtr (gp : groupPtr) : bool * string := (gp_hidden gp, gp_name gp).
Definition encodeVersionedAPIPtr (vp : versionedAPIPtr) : bool * string * string :=
  (encodeGroupPtr (vp_group vp), vp_version vp).
Definition encodeAPIObjectPtr (op : apiObjectPtr) : bool * string * string * string :=
  (encodeVersionedAPIPtr (op_va op), op_kind op).
Definition encodePropertyPtr (pp : propertyPtr)
    : bool * string * string * string * string :=
  (encodeAPIObjectPtr (pp_obj pp), pp_key pp).

Definition decodeGroupPtr (x : bool * string) : groupPtr :=
  {| gp_hidden := x.1; gp_name := x.2 |}.
Definition decodeVersionedAPIPtr (x : bool * string * string) : versionedAPIPtr :=
  {| vp_group := decodeGroupPtr x.1; vp_version := x.2 |}.
Definition decodeAPIObjectPtr (x : bool * string * string * string) : apiObjectPtr :=
  {| op_va := decodeVersionedAPIPtr x.1; op_kind := x.2 |}.
Definition decodePropertyPtr (x : bool * string * string * string * string)
    : propertyPtr :=
  {| pp_obj := decodeAPIObjectPtr x.1; pp_key := x.2 |}.

Definition encodedKey : Type :=
  (bool * string * string)
  + (bool * string * string * string)
  + (bool * string * string * string * string)
  + (bool * string * string * string)
  + (bool * string * string * string * string)
  + (bool * string * string * string) * nat.

Definition encodeKey (k : bufferKey) : encodedKey :=
  match k with
  | KeyVersionedAPI va => inl (inl (inl (inl (inl (encodeVersionedAPIPtr va)))))
  | KeyAPIObject ao => inl (inl (inl (inl (inr (encodeAPIObjectPtr ao)))))
  | KeyProperty p => inl (inl (inl (inr (encodePropertyPtr p))))
  | KeyComments (CommentsOfObject ao) => inl (inl (inr (encodeAPIObjectPtr ao)))
  | KeyComments (CommentsOfProperty p) => inl (inr (encodePropertyPtr p))
  | KeyConstructor c => inr (encodeAPIObjectPtr (cp_obj c), cp_index c)
  end.

Definition decodeKey (x : encodedKey) : bufferKey :=
  match x with
  | inl (inl (inl (inl (inl va)))) => KeyVersionedAPI (decodeVersionedAPIPtr va)
  | inl (inl (inl (inl (inr ao)))) => KeyAPIObject (decodeAPIObjectPtr ao)
  | inl (inl (inl (inr p))) => KeyProperty (decodePropertyPtr p)
  | inl (inl (inr ao)) => KeyComments (CommentsOfObject (decodeAPIObjectPtr ao))
  | inl (inr p) => KeyComments (CommentsOfProperty (decodePropertyPtr p))
  | inr (ao, i) => KeyConstructor {| cp_obj := decodeAPIObjectPtr ao; cp_index := i |}
  end.

#[global] Instance constructorPtr_eq_dec : EqDecision constructorPtr.
Proof. solve_decision. Defined.
#[global] Instance commentsPtr_eq_dec : EqDecision commentsPtr.
Proof. solve_decision. Defined.
#[global] Instance bufferKey_eq_dec : EqDecision bufferKey.
Proof. solve_decision. Defined.
#[global] Instance bufferKey_countable : Countable bufferKey.
Proof.
  apply (inj_countable' encodeKey decodeKey).
  intros [va|ao|p|[ao|p]|c];
    repeat match goal with
           | x : constructorPtr |- _ => destruct x
           | x : propertyPtr |- _ => destruct x
           | x : apiObjectPtr |- _ => destruct x
           | x : versionedAPIPtr |- _ => destruct x
           | x : groupPtr |- _ => destruct x
           end; reflexivity.
Defined.

Record emitVisitor := {
  e_m : indentWriter;
  e_groups : Buffer;
  e_hiddenGroups : Buffer;
  e_buffers : gmap bufferKey Buffer;
}.

Definition newEmitVisitor (iw : indentWriter) : emitVisitor :=
  {| e_m := iw; e_groups := EmptyString; e_hiddenGroups := EmptyString; e_buffers := ∅ |}.

(** Where a visit method writes: one of the two buffers of the visitor,
    or the buffer stored under a key. *)
Inductive bufferPtr :=
| GroupsBuffer
| HiddenGroupsBuffer
| StoredBuffer (k : bufferKey).

Section EmitVisitor.
Context {IW : IndentWriterBuffers}.

Definition onVisitor (f : emitVisitor -> emitVisitor) : visiting emitVisitor :=
  modify (fun s => (f s.1, s.2)).

Definition onVisitorWriter (f : indentWriter -> indentWriter) : visiting emitVisitor :=
  onVisitor (fun e => {| e_m := f (e_m e); e_groups := e_groups e;
                         e_hiddenGroups := e_hiddenGroups e; e_buffers := e_buffers e |}).

Definition e_writeLine (text : string) : visiting emitVisitor :=
  onVisitorWriter (writeLine text).
Definition e_indent : visiting emitVisitor := onVisitorWriter indent.
Definition e_dedent : visiting emitVisitor := onVisitorWriter dedent.

Definition e_log_Printf (text : string) : visiting emitVisitor :=
  modify (fun s => (s.1, s.2 ++ [text])).

Definition readBuffer (b : bufferPtr) (e : emitVisitor) : option Buffer :=
  match b with
  | GroupsBuffer => Some (e_groups e)
  | HiddenGroupsBuffer => Some (e_hiddenGroups e)
  | StoredBuffer k => e_buffers e !! k
  end.

Definition storeBuffer (b : bufferPtr) (text : Buffer) (e : emitVisitor) : emitVisitor :=
  match b with
  | GroupsBuffer =>
      {| e_m := e_m e; e_groups := text; e_hiddenGroups := e_hiddenGroups e;
         e_buffers := e_buffers e |}
  | HiddenGroupsBuffer =>
      {| e_m := e_m e; e_groups := e_groups e; e_hiddenGroups := text;
         e_buffers := e_buffers e |}
  | StoredBuffer k =>
      {| e_m := e_m e; e_groups := e_groups e; e_hiddenGroups := e_hiddenGroups e;
         e_buffers := <[k := text]> (e_buffers e) |}
  end.

(** [buffer := bytes.Buffer{}; e.buffers[k] = &buffer] *)
Definition newBuffer (k : bufferKey) : visiting emitVisitor :=
  onVisitor (storeBuffer (StoredBuffer k) EmptyString).

(** [e.m.bufferWriteLine(buffer, line)] *)
Definition e_bufferWriteLine (b : bufferPtr) (line : string) : visiting emitVisitor :=
  s <- get;;
  buffer <- orNil (readBuffer b s.1);;
  onVisitor (storeBuffer b (bufferWriteLine (e_m s.1) buffer line)).

(** [buffer.Write(e.buffers[k].Bytes())] *)
Definition bufferWriteStored (b : bufferPtr) (k : bufferKey) : visiting emitVisitor :=
  s <- get;;
  source <- orNil (e_buffers s.1 !! k);;
  buffer <- orNil (readBuffer b s.1);;
  onVisitor (storeBuffer b (buffer +:+ source)).

(** *** [emitVisitor.visitRoot] *)

(** [e.m.write(e.groups)] and [e.m.write(e.hiddenGroups)] *)
Definition e_write (buffer : emitVisitor -> Buffer) : visiting emitVisitor :=
  s <- get;;
  onVisitorWriter (fun m => writeBuffer m (buffer s.1)).

Definition ev_visitRoot (r : root) : visiting emitVisitor :=
  e_writeLine "// AUTOGENERATED from the Kubernetes OpenAPI specification. DO NOT MODIFY.";;;
  e_writeLine ("// Kubernetes version: " +:+ k8sVersionOf r);;;
  match ksonnetLibSHA r with
  | Some sha => e_writeLine ("// SHA of ksonnet-lib HEAD: " +:+ sha)
  | None => ret tt
  end;;;
  match ksonnetLibSHA r with
  | Some _ =>
      sha <- orNil (k8sSHA r);;
      e_writeLine ("// SHA of Kubernetes HEAD OpenAPI spec is generated from: " +:+ sha)
  | None => ret tt
  end;;;
  e_writeLine EmptyString;;;
  e_writeLine "{";;;
  e_indent;;;
  e_write e_groups;;;
  e_writeLine "local hidden = {";;;
  e_indent;;;
  e_write e_hiddenGroups;;;
  e_dedent;;;
  e_writeLine "},";;;
  e_dedent;;;
  e_writeLine "}".

(** *** [emitVisitor.visitGroup] *)

Definition ev_visitGroup (r : root) (gp : groupPtr) (hidden : bool)
    : visiting emitVisitor :=
  let buffer := if hidden then HiddenGroupsBuffer else GroupsBuffer in
  group <- orNil (derefGroup r gp);;
  let k8sVersion := k8sVersionOf r in
  let mixinName := RewriteAsIdentifier k8sVersion (group_name group) in
  e_bufferWriteLine buffer (mixinName +:+ ":: {");;;
  e_indent;;;
  forM_ (versionedAPISet_toSortedSlice (group_versionedAPIs group))
    (fun kv => bufferWriteStored buffer
                 (KeyVersionedAPI {| vp_group := gp; vp_version := kv.1 |}));;;
  e_dedent;;;
  e_bufferWriteLine buffer "},".

(** *** [emitVisitor.visitVersionedAPI] *)

Definition ev_visitVersionedAPI (r : root) (vp : versionedAPIPtr)
    : visiting emitVisitor :=
  let buffer := StoredBuffer (KeyVersionedAPI vp) in
  newBuffer (KeyVersionedAPI vp);;;
  va <- orNil (derefVersionedAPI r vp);;
  e_bufferWriteLine buffer (va_version va +:+ ":: {");;;
  e_indent;;;
  parent <- orNil (derefGroup r (va_parent va));;
  let gn := group_qualifiedName parent in
  e_bufferWriteLine buffer (apiVersionLine gn (va_version va));;;
  (* Emit in sorted order so that we can diff the output. *)
  forM_ (apiObjectSet_toSortedSlice (va_apiObjects va))
    (fun kv => bufferWriteStored buffer
                 (KeyAPIObject {| op_va := vp; op_kind := kv.1 |}));;;
  e_dedent;;;
  e_bufferWriteLine buffer "},".

(** *** [emitVisitor.visitAPIObject] *)

Definition ev_visitAPIObject (r : root) (op : apiObjectPtr) : visiting emitVisitor :=
  let buffer := StoredBuffer (KeyAPIObject op) in
  newBuffer (KeyAPIObject op);;;
  ao <- orNil (derefAPIObject r op);;
  let k8sVersion := k8sVersionOf r in
  let jsonnetName := RewriteAsIdentifier k8sVersion (ao_name ao) in
  bufferWriteStored buffer (KeyComments (CommentsOfObject op));;;
  e_bufferWriteLine buffer (jsonnetName +:+ ":: {");;;
  e_indent;;;
  (if ao_isTopLevel ao
   then e_bufferWriteLine buffer
          ("local kind = {kind: " +:+ dquote +:+ ao_name ao +:+ dquote +:+ "},")
   else ret tt);;;
  forM_ (seq 0 (length (ao_constructors ao)))
    (fun i => bufferWriteStored buffer (KeyConstructor {| cp_obj := op; cp_index := i |}));;;
  forM_ (sortAndFilterBlacklisted r (ao_properties ao))
    (fun kv =>
       if isSpecialProperty (prop_name kv.2) || isMixinRef (prop_ref kv.2) then ret tt
       else bufferWriteStored buffer (KeyProperty {| pp_obj := op; pp_key := kv.1 |}));;;
  (* Emit the properties that $ref another API object type in the
     mixin namespace. *)
  e_bufferWriteLine buffer "mixin:: {";;;
  e_indent;;;
  forM_ (sortAndFilterBlacklisted r (ao_properties ao))
    (fun kv =>
       if negb (isMixinRef (prop_ref kv.2)) then ret tt
       else bufferWriteStored buffer (KeyProperty {| pp_obj := op; pp_key := kv.1 |}));;;
  e_dedent;;;
  e_bufferWriteLine buffer "},";;;
  e_dedent;;;
  e_bufferWriteLine buffer "},".

(** *** [emitVisitor.visitRefMixinAPIObject] *)

Definition ev_visitRefMixinAPIObject (r : root) (rmao : refMixinAPIObject)
    : visiting emitVisitor :=
  let pp := rmao_prop rmao in
  let buffer := StoredBuffer (KeyProperty pp) in
  newBuffer (KeyProperty pp);;;
  p <- orNil (derefProperty r pp);;
  ao <- orNil (derefAPIObject r (rmao_apiObject rmao));;
  let k8sVersion := k8sVersionOf r in
  let functionName := RewriteAsIdentifier k8sVersion (prop_name p) in
  let paramName := RewriteAsFuncParam k8sVersion (prop_name p) in
  let fieldName := RewriteAsFieldKey (prop_name p) in
  let mixinName := "__" +:+ functionName +:+ "Mixin" in
  let mixinText :=
    if String.eqb (rmao_parentMixinName rmao) EmptyString
    then "local " +:+ mixinName +:+ "(" +:+ paramName +:+ ") = {" +:+ fieldName
           +:+ "+: " +:+ paramName +:+ "},"
    else "local " +:+ mixinName +:+ "(" +:+ paramName +:+ ") = "
           +:+ rmao_parentMixinName rmao +:+ "({" +:+ fieldName +:+ "+: " +:+ paramName
           +:+ "})," in
  va <- orNil (derefVersionedAPI r (ao_parent ao));;
  (if bool_decide (is_Some (va_apiObjects va !! functionName))
   then panic (lowercaseCollision functionName (va_version va))
   else ret tt);;;
  e_bufferWriteLine buffer (functionName +:+ ":: {");;;
  e_indent;;;
  e_bufferWriteLine buffer mixinText;;;
  e_bufferWriteLine buffer
    ("mixinInstance(" +:+ paramName +:+ "):: " +:+ mixinName +:+ "(" +:+ paramName +:+ "),");;;
  forM_ (sortAndFilterBlacklisted r (ao_properties ao))
    (fun kv =>
       let pm := KeyProperty {| pp_obj := rmao_apiObject rmao; pp_key := kv.1 |} in
       s <- get;;
       if bool_decide (is_Some (e_buffers s.1 !! pm))
       then bufferWriteStored buffer pm
       else ret tt);;;
  e_dedent;;;
  e_bufferWriteLine buffer "},".

(** *** [emitVisitor.visitConstructor] *)

Definition ev_visitConstructor (r : root) (cp : constructorPtr) : visiting emitVisitor :=
  c <- orNil (derefConstructor r cp);;
  apiObj <- orNil (derefAPIObject r (c_apiObj c));;
  let paramLiterals := List.map paramLiteral (c_params c) in
  added <- liftResult (paramSetters r apiObj (c_params c));;
  let setters := c_defaultSetters c ++ added in
  (* Write out constructor. *)
  let paramsText := Join paramLiterals ", " in
  let bodyText := Join setters " + " in
  newBuffer (KeyConstructor cp);;;
  e_bufferWriteLine (StoredBuffer (KeyConstructor cp))
    (specName c +:+ "(" +:+ paramsText +:+ "):: " +:+ bodyText +:+ ",").

(** *** [emitVisitor.visitProperty]: the body after the first two
    statements is commented out in the source. *)

Definition ev_visitProperty (r : root) (pp : propertyPtr) : visiting emitVisitor :=
  newBuffer (KeyProperty pp).

(** *** [emitVisitor.visitTypeAlias] *)

Definition ev_visitTypeAlias (r : root) (pp : propertyPtr) : visiting emitVisitor :=
  let buffer := StoredBuffer (KeyProperty pp) in
  newBuffer (KeyProperty pp);;;
  p <- orNil (derefProperty r pp);;
  path <- aliasTarget p;;
  let parsedPath := Parse path in
  match Version parsedPath with
  | None => e_log_Printf (couldNotEmitTypeAlias path)
  | Some version =>
      e_bufferWriteLine buffer (typeAliasLine (k8sVersionOf r) p parsedPath version)
  end.

(** *** [emitVisitor.visitRefProperty] *)

Definition ev_visitRefProperty (r : root) (pp : propertyPtr) : visiting emitVisitor :=
  let buffer := StoredBuffer (KeyProperty pp) in
  newBuffer (KeyProperty pp);;;
  p <- orNil (derefProperty r pp);;
  let k8sVersion := k8sVersionOf r in
  let setterFunctionName := ToSetterID (RewriteAsIdentifier k8sVersion (prop_name p)) in
  let fieldName := RewriteAsFieldKey (prop_name p) in
  let paramName := RewriteAsFuncParam k8sVersion (prop_name p) in
  let setterSignature := setterFunctionName +:+ "(" +:+ paramName +:+ ")::" in
  let body :=
    if String.eqb (prop_parentMixinName p) EmptyString
    then "{" +:+ fieldName +:+ ": " +:+ paramName +:+ "}"
    else prop_parentMixinName p +:+ "({" +:+ fieldName +:+ ": " +:+ paramName +:+ "})" in
  e_bufferWriteLine buffer (setterSignature +:+ " " +:+ body +:+ ",").

(** *** [emitVisitor.visitComments] *)

Definition ev_visitComments (r : root) (cs : commentsPtr) : visiting emitVisitor :=
  let buffer := StoredBuffer (KeyComments cs) in
  newBuffer (KeyComments cs);;;
  comments <- orNil (derefComments r cs);;
  forM_ comments (fun comment => e_bufferWriteLine buffer (commentLine comment)).

#[global] Instance emitVisitor_Visitor : Visitor emitVisitor := {|
  visitRoot := ev_visitRoot;
  visitGroup := ev_visitGroup;
  visitVersionedAPI := ev_visitVersionedAPI;
  visitComments := ev_visitComments;
  visitAPIObject := ev_visitAPIObject;
  visitRefMixinAPIObject := ev_visitRefMixinAPIObject;
  visitConstructor := ev_visitConstructor;
  visitProperty := ev_visitProperty;
  visitTypeAlias := ev_visitTypeAlias;
  visitRefProperty := ev_visitRefProperty;
|}.

(** ** [Emit] *)

(** The three results of [Emit]: the two texts, or the error. *)
Definition Emit (fuel : nat) (spec : APISpec) (ksonnetLibSHA k8sSHA : option string)
    : result (Buffer * Buffer + string) :=
  match newRoot spec ksonnetLibSHA k8sSHA with
  | Ok root =>
      let m := newIndentWriter in
      let emitVisitor := newEmitVisitor m in
      match root_accept fuel {| vs_root := root; vs_visitor := emitVisitor; vs_log := [] |} with
      | Ok (_, s) =>
          match bytes (e_m (vs_visitor s)) with
          | inl k8sBytes =>
              let kBytes := KSource (Info_Version spec) in
              Ok (inl (kBytes, k8sBytes))
          | inr err => Ok (inr err)
          end
      | Panic msg => Panic msg
      | OutOfFuel => OutOfFuel
      end
  | Panic msg => Panic msg
  | OutOfFuel => OutOfFuel
  end.

End EmitVisitor.
End ModelTree.


(** ** Further definitions used to state what the code does *)

(** The text [write] appends for one record that is not above the left
    margin, and for a sequence of them. *)
Definition renderedLine (l : indentedLine) : string :=
  repeatString "  " (Z.to_nat (line_depth l)) +:+ line_text l +:+ newline.

Definition rendered (ls : list indentedLine) : string :=
  fold_right (fun l rest => renderedLine l +:+ rest) EmptyString ls.

(** The text of [ls] with every line moved right by [depth] units. *)
Definition renderedWithin (depth : Z) (ls : list indentedLine) : string :=
  fold_right (fun l rest => repeatString "  " (Z.to_nat depth) +:+ renderedLine l +:+ rest)
    EmptyString ls.

(** How often a byte occurs in a text. *)
Fixpoint occurrences (c : ascii) (text : string) : nat :=
  match text with
  | EmptyString => 0
  | String x rest => (if Ascii.eqb x c then 1 else 0) + occurrences c rest
  end.

(** What a run of an [emit] method does to the writer and the log,
    from the state [s] to the state [s']: the depth moves by [k], lines
    are appended only, none of them more than [-lo] units left of the
    depth at the start, and the log grows at its end. *)
Definition appended (lo k : Z) (s s' : emitState) : Prop :=
  iw_depth (es_m s') = (iw_depth (es_m s) + k)%Z
  /\ (exists new,
        iw_lines (es_m s') = iw_lines (es_m s) ++ new
        /\ Forall (fun l => (iw_depth (es_m s) + lo <= line_depth l)%Z) new)
  /\ (exists logged, es_log s' = es_log s ++ logged).

(** A computation that closes [n] blocks: whenever it returns, it has
    appended lines at or right of the depth it ends at, which is [n]
    units left of the depth it started at.  With [n] = 0 it keeps the
    depth and writes nothing left of it. *)
Definition closes {A} (n : nat) (c : M emitState A) : Prop :=
  keeps (appended (- Z.of_nat n) (- Z.of_nat n)) c.

(** A computation that returns from no state in [I], and one that
    stays in [I] whenever it returns. *)
Definition neverFrom {S A} (I : S -> Prop) (c : M S A) : Prop :=
  forall s y, I s -> c s <> Ok y.

Definition preserves {S A} (I : S -> Prop) (c : M S A) : Prop :=
  forall s a s', I s -> c s = Ok (a, s') -> I s'.

Section MoreModelTree.
Context {KS : Kubespec} {JS : Jsonnet} {KV : Kubeversion} {UT : Util}.

(** Whether [createAPIObject] routes a definition into the hidden
    groups: it does when the definition has no resource marker. *)
Definition routedHidden (def : SchemaDefinition) : bool :=
  Nat.eqb (length (TopLevelSpecs def)) 0.

(** The qualified name [createAPIObject] gives a group it makes. *)
Definition qualifiedNameFor (parsedName : ParsedDefinitionName) (def : SchemaDefinition)
    : GroupName :=
  match TopLevelSpecs def with
  | t :: _ => if String.eqb (tls_Group t) EmptyString then groupNameOf parsedName
              else tls_Group t
  | [] => groupNameOf parsedName
  end.

(** The group, the versioned API and the tree that [createAPIObject]
    leaves when it does not panic. *)
Definition groupFor (parsedName : ParsedDefinitionName) (def : SchemaDefinition)
    (r : root) : group :=
  default (newGroup (groupNameOf parsedName) (qualifiedNameFor parsedName def))
    (groupsOf (routedHidden def) r !! groupNameOf parsedName).

Definition versionedAPIFor (parsedName : ParsedDefinitionName) (def : SchemaDefinition)
    (version : VersionString) (r : root) : versionedAPI :=
  default (newVersionedAPI version
             {| gp_hidden := routedHidden def; gp_name := groupNameOf parsedName |})
    (group_versionedAPIs (groupFor parsedName def r) !! version).

Definition versionedAPIWith (parsedName : ParsedDefinitionName) (def : SchemaDefinition)
    (version : VersionString) (r : root) : versionedAPI :=
  withAPIObjects
    (<[Kind parsedName :=
         newAPIObject parsedName (op_va (objectAt (routedHidden def) parsedName version)) def]>
       (va_apiObjects (versionedAPIFor parsedName def version r)))
    (versionedAPIFor parsedName def version r).

Definition groupWith (parsedName : ParsedDefinitionName) (def : SchemaDefinition)
    (version : VersionString) (r : root) : group :=
  withVersionedAPIs
    (<[version := versionedAPIWith parsedName def version r]>
       (group_versionedAPIs (groupFor parsedName def r)))
    (groupFor parsedName def r).

Definition placed (parsedName : ParsedDefinitionName) (def : SchemaDefinition)
    (version : VersionString) (r : root) : root :=
  withGroups (routedHidden def)
    (<[groupNameOf parsedName := groupWith parsedName def version r]>
       (groupsOf (routedHidden def) r)) r.

(** Every node of the tree is stored under its own name, points back to
    the node that owns it, an object is marked top-level exactly in the
    visible groups and has no constructor, and no property carries a
    qualifier. *)
Definition wellKeyed (r : root) : Prop :=
  (forall gp g, derefGroup r gp = Some g -> group_name g = gp_name gp)
  /\ (forall vp va, derefVersionedAPI r vp = Some va ->
        va_version va = vp_version vp /\ va_parent va = vp_group vp)
  /\ (forall op ao, derefAPIObject r op = Some ao ->
        ao_name ao = op_kind op
        /\ ao_parent ao = op_va op
        /\ ao_isTopLevel ao = negb (gp_hidden (vp_group (op_va op)))
        /\ ao_constructors ao = [])
  /\ (forall pp p, derefProperty r pp = Some p ->
        prop_name p = pp_key pp
        /\ prop_parent p = pp_obj pp
        /\ prop_parentMixinName p = EmptyString).

(** The second tree is stamped as the first: the same schema and the
    same two revisions. *)
Definition sameStamp (r r' : root) : Prop :=
  root_spec r' = root_spec r
  /\ ksonnetLibSHA r' = ksonnetLibSHA r
  /\ k8sSHA r' = k8sSHA r.

(** The tree of the second state is that of the first, if no property
    of the first carries a qualifier. *)
Definition sameIfNoQualifier {V} (s s' : visitState V) : Prop :=
  (forall pp p, derefProperty (vs_root s) pp = Some p ->
                prop_parentMixinName p = EmptyString) ->
  vs_root s' = vs_root s.

(** The text [visitComments] leaves in the buffer of a [comments]
    value, written with the writer [m]. *)
Definition commentsText {IW : IndentWriterBuffers} (m : indentWriter) (cs : comments)
    : Buffer :=
  fold_left (fun buffer comment => bufferWriteLine m buffer (commentLine comment)) cs
    EmptyString.

(** The visitor of the second state has a buffer wherever that of the
    first has one. *)
Definition keepsBuffers (e e' : emitVisitor * list string) : Prop :=
  forall k, is_Some (e_buffers e.1 !! k) -> is_Some (e_buffers e'.1 !! k).

Definition buffersKept (s s' : visitState emitVisitor) : Prop :=
  keepsBuffers (vs_visitor s, vs_log s) (vs_visitor s', vs_log s').

End MoreModelTree.
(** ** Sample collaborators and schemas

    One implementation of each interface, on the shapes of name the
    examples use, and the schemas the examples run on. *)

Module Sample.

Definition lower (c : ascii) : ascii :=
  let n := nat_of_ascii c in
  if (65 <=? n)%nat && (n <=? 90)%nat then ascii_of_nat (n + 32) else c.

Definition upper (c : ascii) : ascii :=
  let n := nat_of_ascii c in
  if (97 <=? n)%nat && (n <=? 122)%nat then ascii_of_nat (n - 32) else c.

Definition lowerFirst (s : string) : string :=
  match s with
  | EmptyString => EmptyString
  | String c rest => String (lower c) rest
  end.

Definition upperFirst (s : string) : string :=
  match s with
  | EmptyString => EmptyString
  | String c rest => String (upper c) rest
  end.

(** Names of the forms [io.k8s.api.<group>.<version>.<kind>],
    [io.k8s.kubernetes.pkg.api.<version>.<kind>] and
    [io.k8s.apimachinery.pkg.apis.<group>.<version>.<kind>] carry a
    version; any other name carries none. *)
Definition parse (path : DefinitionName) : ParsedDefinitionName :=
  match Split path "."%char with
  | [a; b; c; g; v; k] =>
      if String.eqb a "io" && String.eqb b "k8s" && String.eqb c "api"
      then {| Group := Some g; Version := Some v; Kind := k |}
      else {| Group := None; Version := None; Kind := k |}
  | [a; b; c; d; e; v; k] =>
      if String.eqb a "io" && String.eqb b "k8s" && String.eqb c "kubernetes"
         && String.eqb d "pkg" && String.eqb e "api"
      then {| Group := None; Version := Some v; Kind := k |}
      else {| Group := None; Version := None; Kind := k |}
  | [a; b; c; d; e; g; v; k] =>
      if String.eqb a "io" && String.eqb b "k8s" && String.eqb c "apimachinery"
         && String.eqb d "pkg" && String.eqb e "apis"
      then {| Group := Some g; Version := Some v; Kind := k |}
      else {| Group := None; Version := None; Kind := k |}
  | fields => {| Group := None; Version := None; Kind := List.last fields EmptyString |}
  end.

Definition unparse (n : ParsedDefinitionName) : DefinitionName :=
  match Version n, Group n with
  | Some v, Some g => "io.k8s.api." +:+ g +:+ "." +:+ v +:+ "." +:+ Kind n
  | Some v, None => "io.k8s.kubernetes.pkg.api." +:+ v +:+ "." +:+ Kind n
  | None, _ => Kind n
  end.

#[global] Instance kubespec : Kubespec := {|
  Parse := parse;
  Unparse := unparse;
  Name := fun ref => TrimPrefix ref "#/definitions/";
|}.

#[global] Instance jsonnet : Jsonnet := {|
  RewriteAsIdentifier := fun _ name => lowerFirst name;
  ToSetterID := fun id => "with" +:+ upperFirst id;
  ToMixinID := fun id => "with" +:+ upperFirst id +:+ "Mixin";
  RewriteAsFuncParam := fun _ name => lowerFirst name;
  RewriteAsFieldKey := fun name => name;
|}.

#[global] Instance kubeversion : Kubeversion := {|
  IsBlacklistedProperty := fun _ _ name => String.eqb name "status";
  ConstructorSpec := fun _ _ => None;
  KSource := fun version => "// k.libsonnet, Kubernetes " +:+ version;
|}.

Definition intOrString : ObjectRef :=
  "#/definitions/io.k8s.apimachinery.pkg.util.intstr.IntOrString".

#[global] Instance util : Util := {|
  isMixinRef := fun or => match or with
                          | None => false
                          | Some r => negb (String.eqb r intOrString)
                          end;
  isSpecialProperty := fun pn => String.eqb pn "apiVersion" || String.eqb pn "kind";
  constructorName := "new";
  specialPropertiesList := ["apiVersion"; "kind"];
|}.

(** The lines of a text in which every line ends with a line feed. *)
Definition linesOf (text : Buffer) : list string :=
  removelast (Split text "010"%char).

(** Modelled from the spec: the methods [bufferWriteLine], [write] (of
    a buffer) and [bytes] of the line buffer, which no source file
    declares.  A line goes into a buffer as the final rendering has it,
    the indentation unit repeated to the current depth, the text and
    the line terminator; splicing a buffer appends its lines at the
    current depth of the writer; the final text is the rendering of the
    records in their order. *)
#[global] Instance indentWriterBuffers : IndentWriterBuffers := {|
  bufferWriteLine := fun i buffer line =>
    buffer +:+ repeatString "  " (Z.to_nat (iw_depth i)) +:+ line +:+ newline;
  writeBuffer := fun i buffer => wrote (linesOf buffer) i;
  bytes := fun i => match write i EmptyString with
                    | Ok text => inl text
                    | Panic msg => inr msg
                    | OutOfFuel => inr EmptyString
                    end;
|}.

Definition noItems : Items := {| Items_Ref := None; Items_Type := None |}.

Definition scalar (type description : string) : Property :=
  {| Description := description; Type_ := Some type; Items_ := noItems; Ref := None |}.

Definition reference (ref : ObjectRef) (description : string) : Property :=
  {| Description := description; Type_ := None; Items_ := noItems; Ref := Some ref |}.

Definition arrayOf (ref : ObjectRef) (description : string) : Property :=
  {| Description := description; Type_ := Some "array";
     Items_ := {| Items_Ref := Some ref; Items_Type := None |}; Ref := None |}.

Definition topLevel (g v k : string) : TopLevelSpec :=
  {| tls_Group := g; tls_Version := v; tls_Kind := k |}.

(** A deployment whose [spec] refers to a hidden [DeploymentSpec]. *)
Definition deploymentSchema : APISpec :=
  {| Info_Version := "v1.7.0";
     Definitions :=
       [ ("io.k8s.api.apps.v1beta1.Deployment",
          {| def_Description := "Deployment enables declarative updates.";
             Properties :=
               [ ("spec",
                  reference "#/definitions/io.k8s.api.apps.v1beta1.DeploymentSpec"
                    "Specification of the desired behavior.") ];
             TopLevelSpecs := [topLevel "apps" "v1beta1" "Deployment"] |});
         ("io.k8s.api.apps.v1beta1.DeploymentSpec",
          {| def_Description := "DeploymentSpec is the specification.";
             Properties :=
               [ ("paused", scalar "boolean" "Indicates that the deployment is paused.");
                 ("replicas", scalar "integer" "Number of desired pods.") ];
             TopLevelSpecs := [] |}) ] |}.

Definition deploymentSpecPtr : apiObjectPtr :=
  {| op_va := {| vp_group := {| gp_hidden := true; gp_name := "apps" |};
                 vp_version := "v1beta1" |};
     op_kind := "DeploymentSpec" |}.

Definition deploymentPtr : apiObjectPtr :=
  {| op_va := {| vp_group := {| gp_hidden := false; gp_name := "apps" |};
                 vp_version := "v1beta1" |};
     op_kind := "Deployment" |}.

Definition replicasPtr : propertyPtr :=
  {| pp_obj := deploymentSpecPtr; pp_key := "replicas" |}.

Definition deploymentRoot : root :=
  match newRoot deploymentSchema None None with
  | Ok r => r
  | _ => emptyRoot deploymentSchema None None
  end.

(** The property [spec] of the deployment, and the expansion of
    [DeploymentSpec] that [property.accept] starts for it. *)
Definition specPtr : propertyPtr := {| pp_obj := deploymentPtr; pp_key := "spec" |}.

Definition specExpansion : refMixinAPIObject :=
  {| rmao_apiObject := deploymentSpecPtr;
     rmao_prop := specPtr;
     rmao_parentMixinName := EmptyString |}.

Definition freshVisit (r : root) : visitState emitVisitor :=
  {| vs_root := r; vs_visitor := newEmitVisitor newIndentWriter; vs_log := [] |}.

(** A volume with the fields [secret] (a reference, so the alias
    [secretType] is made) and [secretRef]. *)
Definition volumeSchema : APISpec :=
  {| Info_Version := "v1.7.0";
     Definitions :=
       [ ("io.k8s.api.core.v1.Volume",
          {| def_Description := "Volume represents a named volume in a pod.";
             Properties :=
               [ ("secret",
                  reference "#/definitions/io.k8s.api.core.v1.SecretVolumeSource"
                    "Secret represents a secret.");
                 ("secretRef", scalar "string" "Name of the secret.");
                 ("data",
                  reference "#/definitions/io.k8s.apimachinery.pkg.runtime.RawExtension"
                    "Data is the serialized representation.") ];
             TopLevelSpecs := [] |}) ] |}.

Definition volumePtr : apiObjectPtr :=
  {| op_va := {| vp_group := {| gp_hidden := true; gp_name := "core" |};
                 vp_version := "v1" |};
     op_kind := "Volume" |}.

Definition volumeRoot : root :=
  match newRoot volumeSchema None None with
  | Ok r => r
  | _ => emptyRoot volumeSchema None None
  end.

Definition volumeProperties : gmap PropertyName property :=
  match derefAPIObject volumeRoot volumePtr with
  | Some ao => ao_properties ao
  | None => ∅
  end.

(** A pod specification with the fields [volumes], an array of
    references, and [volumesType]; the schema is given with the
    bindings of [properties] in the order one run ranges over them. *)
Definition volumesFirst : list (PropertyName * Property) :=
  [ ("volumes", arrayOf "#/definitions/io.k8s.api.core.v1.Volume" "List of volumes.");
    ("volumesType", scalar "string" "Type of the volumes.") ].

Definition volumesTypeFirst : list (PropertyName * Property) :=
  [ ("volumesType", scalar "string" "Type of the volumes.");
    ("volumes", arrayOf "#/definitions/io.k8s.api.core.v1.Volume" "List of volumes.") ].

Definition podSpecSchema (properties : list (PropertyName * Property)) : APISpec :=
  {| Info_Version := "v1.7.0";
     Definitions :=
       [ ("io.k8s.api.core.v1.PodSpec",
          {| def_Description := "PodSpec is a description of a pod.";
             Properties := properties;
             TopLevelSpecs := [] |}) ] |}.

(** Two top-level definitions of the group [apps] whose first resource
    markers name different groups; the schema is given with the
    definitions in the order one run ranges over them. *)
Definition scaleDefinition : DefinitionName * SchemaDefinition :=
  ("io.k8s.api.apps.v1beta1.Scale",
   {| def_Description := "Scale represents a scaling request.";
      Properties := [];
      TopLevelSpecs := [topLevel "extensions" "v1beta1" "Scale"] |}).

Definition statefulSetDefinition : DefinitionName * SchemaDefinition :=
  ("io.k8s.api.apps.v1beta1.StatefulSet",
   {| def_Description := "StatefulSet represents a set of pods.";
      Properties := [];
      TopLevelSpecs := [topLevel "apps" "v1beta1" "StatefulSet"] |}).

Definition appsSchema (definitions : list (DefinitionName * SchemaDefinition)) : APISpec :=
  {| Info_Version := "v1.7.0"; Definitions := definitions |}.

(** The text [root.emit] writes for a schema, rendered by [write]. *)
Definition emittedText (fuel : nat) (spec : APISpec) : result Buffer :=
  match newRoot spec None None with
  | Ok r =>
      match root_emit fuel r {| es_m := newIndentWriter; es_log := [] |} with
      | Ok (_, s) => write (es_m s) EmptyString
      | Panic msg => Panic msg
      | OutOfFuel => OutOfFuel
      end
  | Panic msg => Panic msg
  | OutOfFuel => OutOfFuel
  end.

(** The same kind under its old and its new path. *)
Definition podDefinition (path : DefinitionName) : DefinitionName * SchemaDefinition :=
  (path,
   {| def_Description := "Pod is a collection of containers.";
      Properties := [];
      TopLevelSpecs := [topLevel EmptyString "v1" "Pod"] |}).

Definition twoPodsSchema : APISpec :=
  {| Info_Version := "v1.8.0";
     Definitions := [ podDefinition "io.k8s.api.core.v1.Pod";
                      podDefinition "io.k8s.kubernetes.pkg.api.v1.Pod" ] |}.

Definition onePodRoot : root :=
  match forM_ [podDefinition "io.k8s.api.core.v1.Pod"]
          (fun '(defName, def) => addDefinition defName def)
          (emptyRoot twoPodsSchema None None) with
  | Ok (_, r) => r
  | _ => emptyRoot twoPodsSchema None None
  end.

(** The states [property.accept] on [spec] and the expansion of
    [DeploymentSpec] end in. *)
Definition afterSpecAccept : visitState emitVisitor :=
  match property_accept 3 specPtr (freshVisit deploymentRoot) with
  | Ok (_, s) => s
  | _ => freshVisit deploymentRoot
  end.

Definition afterSpecExpansion : visitState emitVisitor :=
  match refMixinAPIObject_accept 3 specExpansion (freshVisit deploymentRoot) with
  | Ok (_, s) => s
  | _ => freshVisit deploymentRoot
  end.

(** The lines [root.emit] writes for a schema. *)
Definition emittedLines (fuel : nat) (spec : APISpec) (ksonnetLibSHA k8sSHA : option string)
    : result (list string) :=
  match newRoot spec ksonnetLibSHA k8sSHA with
  | Ok r =>
      match root_emit fuel r {| es_m := newIndentWriter; es_log := [] |} with
      | Ok (_, s) => Ok (List.map line_text (iw_lines (es_m s)))
      | Panic msg => Panic msg
      | OutOfFuel => OutOfFuel
      end
  | Panic msg => Panic msg
  | OutOfFuel => OutOfFuel
  end.

Definition podSpecPtr : apiObjectPtr :=
  {| op_va := {| vp_group := {| gp_hidden := true; gp_name := "core" |};
                 vp_version := "v1" |};
     op_kind := "PodSpec" |}.

(** The method property [addDefinition] makes of the field [volumes]. *)
Definition volumesProperty : property :=
  newPropertyMethod "volumes" "io.k8s.api.core.v1.PodSpec"
    (arrayOf "#/definitions/io.k8s.api.core.v1.Volume" "List of volumes.") podSpecPtr.

Definition podSpecRoot : root :=
  match newRoot (podSpecSchema volumesFirst) None None with
  | Ok r => r
  | _ => emptyRoot (podSpecSchema volumesFirst) None None
  end.

Definition freshEmit : emitState := {| es_m := newIndentWriter; es_log := [] |}.

(** The versioned API that holds the first of the two pods. *)
Definition corePods : versionedAPI :=
  default (newVersionedAPI "v1" {| gp_hidden := false; gp_name := "core" |})
    (derefVersionedAPI onePodRoot
       {| vp_group := {| gp_hidden := false; gp_name := "core" |}; vp_version := "v1" |}).

(** Resource requirements: [limits] is an array of quantities, whose
    path carries no version. *)
Definition quantity : ObjectRef :=
  "#/definitions/io.k8s.apimachinery.pkg.api.resource.Quantity".

Definition requirementsSchema : APISpec :=
  {| Info_Version := "v1.7.0";
     Definitions :=
       [ ("io.k8s.api.core.v1.ResourceRequirements",
          {| def_Description := "ResourceRequirements describes the requirements.";
             Properties := [ ("limits", arrayOf quantity "Limits describes the maximum.") ];
             TopLevelSpecs := [] |}) ] |}.

Definition requirementsRoot : root :=
  match newRoot requirementsSchema None None with
  | Ok r => r
  | _ => emptyRoot requirementsSchema None None
  end.

Definition requirementsPtr : apiObjectPtr :=
  {| op_va := {| vp_group := {| gp_hidden := true; gp_name := "core" |};
                 vp_version := "v1" |};
     op_kind := "ResourceRequirements" |}.

Definition limitsTypePtr : propertyPtr :=
  {| pp_obj := requirementsPtr; pp_key := "limitsType" |}.

(** The alias [addDefinition] makes of the field [limits]. *)
Definition limitsType : property :=
  newPropertyTypeAlias "limitsType" "io.k8s.api.core.v1.ResourceRequirements"
    (arrayOf quantity "Limits describes the maximum.") requirementsPtr.

Definition rawExtension : ObjectRef :=
  "#/definitions/io.k8s.apimachinery.pkg.runtime.RawExtension".

(** The two properties [addDefinition] makes of the field [data] of the
    volume. *)
Definition dataProperty : property :=
  newPropertyMethod "data" "io.k8s.api.core.v1.Volume"
    (reference rawExtension "Data is the serialized representation.") volumePtr.

Definition dataType : property :=
  newPropertyTypeAlias "dataType" "io.k8s.api.core.v1.Volume"
    (reference rawExtension "Data is the serialized representation.") volumePtr.

Definition header : list string :=
  [ "// AUTOGENERATED from the Kubernetes OpenAPI specification. DO NOT MODIFY.";
    "// Kubernetes version: v1.7.0" ].

(** The text of lines, each ended by a line feed. *)
Definition textOf (lines : list string) : Buffer :=
  fold_right (fun line rest => line +:+ newline +:+ rest) EmptyString lines.

(** The lines [root.emit] writes before the opening brace. *)
Fixpoint beforeBrace (lines : list string) : list string :=
  match lines with
  | [] => []
  | line :: rest => if String.eqb line "{" then [] else line :: beforeBrace rest
  end.

Definition emittedHeader (fuel : nat) (spec : APISpec) (ksonnetLibSHA k8sSHA : option string)
    : result (list string) :=
  match emittedLines fuel spec ksonnetLibSHA k8sSHA with
  | Ok lines => Ok (beforeBrace lines)
  | Panic msg => Panic msg
  | OutOfFuel => OutOfFuel
  end.

(** Whether two runs end in the same text. *)
Definition sameText (x y : result Buffer) : bool :=
  match x, y with
  | Ok a, Ok b => String.eqb a b
  | Panic a, Panic b => String.eqb a b
  | OutOfFuel, OutOfFuel => true
  | _, _ => false
  end.

(** A definition whose path carries no version. *)
Definition rawExtensionDefinition : SchemaDefinition :=
  {| def_Description := "RawExtension is used to hold extensions in external versions.";
     Properties := [ ("Raw", scalar "string" "Raw is the underlying serialization.") ];
     TopLevelSpecs := [] |}.

(** The lines of the document [Emit] returns that come before the
    opening brace. *)
Definition documentHeader (x : result (Buffer * Buffer + string)) : result (list string) :=
  match x with
  | Ok (inl (_, text)) => Ok (beforeBrace (linesOf text))
  | Ok (inr err) => Ok [err]
  | Panic msg => Panic msg
  | OutOfFuel => OutOfFuel
  end.

Definition returnsDocument (x : result (Buffer * Buffer + string)) : bool :=
  match x with
  | Ok (inl _) => true
  | _ => false
  end.

(** Whether two runs of [Emit] return the same document. *)
Definition sameDocument (x y : result (Buffer * Buffer + string)) : bool :=
  match x, y with
  | Ok (inl (_, a)), Ok (inl (_, b)) => String.eqb a b
  | _, _ => false
  end.

(** The deployment schema with that definition among the others. *)
Definition deploymentSchemaWithRawExtension : APISpec :=
  {| Info_Version := Info_Version deploymentSchema;
     Definitions :=
       [ ("io.k8s.apimachinery.pkg.runtime.RawExtension", rawExtensionDefinition) ]
       ++ Definitions deploymentSchema |}.

(** A writer with a line at the margin and one a unit right of it; a
    writer that opened a block; a writer dedented past the margin. *)
Definition twoLines : indentWriter :=
  writeLine "kind:: {}," (indent (writeLine "apps:: {" newIndentWriter)).

Definition openBlock : indentWriter := indent (writeLine "{" newIndentWriter).

Definition dedented : indentWriter :=
  writeLine "}" (dedent (dedent (writeLine "{" newIndentWriter))).

(** The deployment tree after [createAPIObject] on the scale. *)
Definition scalePtr : apiObjectPtr :=
  {| op_va := {| vp_group := {| gp_hidden := false; gp_name := "apps" |};
                 vp_version := "v1beta1" |};
     op_kind := "Scale" |}.

Definition withScale : root :=
  match createAPIObject (parse scaleDefinition.1) scaleDefinition.2 deploymentRoot with
  | Ok (_, r) => r
  | _ => deploymentRoot
  end.

Definition appsPtr : groupPtr := {| gp_hidden := false; gp_name := "apps" |}.

Definition appsGroup : group :=
  default (newGroup "apps" "apps") (derefGroup deploymentRoot appsPtr).

(** The state the traversal of the deployment tree ends in. *)
Definition afterAccept : visitState emitVisitor :=
  match root_accept 5 (freshVisit deploymentRoot) with
  | Ok (_, s) => s
  | _ => freshVisit deploymentRoot
  end.

Definition deploymentSpecObject : apiObject :=
  default (newAPIObject (parse "io.k8s.api.apps.v1beta1.DeploymentSpec")
             (op_va deploymentSpecPtr) rawExtensionDefinition)
    (derefAPIObject deploymentRoot deploymentSpecPtr).

(** The pod specification before any of its properties is added. *)
Definition barePodSpecRoot : root :=
  match newRoot (podSpecSchema []) None None with
  | Ok r => r
  | _ => emptyRoot (podSpecSchema []) None None
  end.

Definition barePodSpec : apiObject :=
  default (newAPIObject (parse "io.k8s.api.core.v1.PodSpec") (op_va podSpecPtr)
             rawExtensionDefinition)
    (derefAPIObject barePodSpecRoot podSpecPtr).

Definition volumesField : Property :=
  arrayOf "#/definitions/io.k8s.api.core.v1.Volume" "List of volumes.".

Definition volumesTypeField : Property := scalar "string" "Type of the volumes.".

(** A property of the schema type [number], and one that refers to
    the one reference that is no mixin reference. *)
Definition weightProperty : property :=
  newPropertyMethod "weight" "io.k8s.api.core.v1.PodSpec"
    (scalar "number" "Weight of the pod.") podSpecPtr.

Definition portProperty : property :=
  newPropertyMethod "port" "io.k8s.api.core.v1.PodSpec"
    (reference intOrString "Port to connect to.") podSpecPtr.

(** An object with a property of the constructor's name, and a
    constructor parameter that names no property. *)
Definition newProperty : property :=
  newPropertyMethod "new" "io.k8s.api.core.v1.PodSpec"
    (scalar "boolean" "Whether the pod is new.") podSpecPtr.

Definition podSpecWithNew : apiObject :=
  withProperties (<["new" := newProperty]> ∅) barePodSpec.

Definition nameParam : CustomConstructorParam :=
  {| param_ID := "name"; DefaultValue := None; RelativePath := None |}.

(** A definition whose kind starts with a lower-case letter. *)
Definition lowerKindSchema : APISpec :=
  {| Info_Version := "v1.7.0";
     Definitions :=
       [ ("io.k8s.api.apps.v1beta1.scale",
          {| def_Description := "scale represents a scaling request.";
             Properties := [];
             TopLevelSpecs := [] |}) ] |}.

Definition lowerKindRoot : root :=
  match newRoot lowerKindSchema None None with
  | Ok r => r
  | _ => emptyRoot lowerKindSchema None None
  end.

Definition lowerKindPtr : apiObjectPtr :=
  {| op_va := {| vp_group := {| gp_hidden := true; gp_name := "apps" |};
                 vp_version := "v1beta1" |};
     op_kind := "scale" |}.

Definition lowerKindObject : apiObject :=
  default (newAPIObject (parse "io.k8s.api.apps.v1beta1.scale") (op_va lowerKindPtr)
             rawExtensionDefinition)
    (derefAPIObject lowerKindRoot lowerKindPtr).

(** The state [root.emit] ends in on the deployment tree. *)
Definition emittedState : emitState :=
  match root_emit 5 deploymentRoot freshEmit with
  | Ok (_, s) => s
  | _ => freshEmit
  end.

(** A schema that contains itself: the field [not] of
    [JSONSchemaProps] refers to [JSONSchemaProps]. *)
Definition schemaProps : ObjectRef :=
  "#/definitions/io.k8s.api.apiextensions.v1beta1.JSONSchemaProps".

Definition selfSchema : APISpec :=
  {| Info_Version := "v1.7.0";
     Definitions :=
       [ ("io.k8s.api.apiextensions.v1beta1.JSONSchemaProps",
          {| def_Description := "JSONSchemaProps is a JSON-Schema.";
             Properties := [ ("not", reference schemaProps "Not is the negated schema.") ];
             TopLevelSpecs := [] |}) ] |}.

Definition selfRoot : root :=
  match newRoot selfSchema None None with
  | Ok r => r
  | _ => emptyRoot selfSchema None None
  end.

Definition schemaPropsPtr : apiObjectPtr :=
  {| op_va := {| vp_group := {| gp_hidden := true; gp_name := "apiextensions" |};
                 vp_version := "v1beta1" |};
     op_kind := "JSONSchemaProps" |}.

Definition schemaPropsObject : apiObject :=
  default (newAPIObject (parse "io.k8s.api.apiextensions.v1beta1.JSONSchemaProps")
             (op_va schemaPropsPtr) rawExtensionDefinition)
    (derefAPIObject selfRoot schemaPropsPtr).

Definition notPtr : propertyPtr := {| pp_obj := schemaPropsPtr; pp_key := "not" |}.

Definition notProperty : property :=
  newPropertyMethod "not" "io.k8s.api.apiextensions.v1beta1.JSONSchemaProps"
    (reference schemaProps "Not is the negated schema.") schemaPropsPtr.

(** The property [addDefinition] makes of the field [replicas], and
    the state [property.accept] ends in on it. *)
Definition replicasProperty : property :=
  newPropertyMethod "replicas" "io.k8s.api.apps.v1beta1.DeploymentSpec"
    (scalar "integer" "Number of desired pods.") deploymentSpecPtr.

Definition afterReplicas : visitState emitVisitor :=
  match property_accept 1 replicasPtr (freshVisit deploymentRoot) with
  | Ok (_, s) => s
  | _ => freshVisit deploymentRoot
  end.

End Sample.

(** * Properties *)

(** ** The monad *)

Lemma isOk_state {S} (x : result (unit * S)) (d : S) :
  isOk x = true -> x = Ok (tt, match x with Ok (_, s) => s | _ => d end).
Proof. destruct x as [[[] s]| |]; [reflexivity | discriminate | discriminate]. Qed.

Lemma isOk_value {A} (x : result A) (d : A) :
  isOk x = true -> x = Ok (match x with Ok a => a | _ => d end).
Proof. destruct x; [reflexivity | discriminate | discriminate]. Qed.

Lemma bind_Ok {S A B} (c : M S A) (k : A -> M S B) s a s' :
  c s = Ok (a, s') -> bind c k s = k a s'.
Proof. intros Hc. unfold bind. rewrite Hc. reflexivity. Qed.

Lemma bind_Panic {S A B} (c : M S A) (k : A -> M S B) s msg :
  c s = Panic msg -> bind c k s = Panic msg.
Proof. intros Hc. unfold bind. rewrite Hc. reflexivity. Qed.

Lemma bind_inv_Ok {S A B} (c : M S A) (k : A -> M S B) s b s'' :
  bind c k s = Ok (b, s'') -> exists a s', c s = Ok (a, s') /\ k a s' = Ok (b, s'').
Proof.
  unfold bind. destruct (c s) as [[a s']| |] eqn:Hc; try discriminate.
  intros Hk. exists a, s'. split; [reflexivity | exact Hk].
Qed.

Lemma forM__app {S X} (l1 l2 : list X) (body : X -> M S unit) s :
  forM_ (l1 ++ l2) body s
  = match forM_ l1 body s with
    | Ok (_, s') => forM_ l2 body s'
    | Panic msg => Panic msg
    | OutOfFuel => OutOfFuel
    end.
Proof.
  revert s. induction l1 as [|x l1 IH]; intros s; simpl.
  - reflexivity.
  - unfold bind. destruct (body x s) as [[[] s']| |]; [apply IH | reflexivity | reflexivity].
Qed.

Lemma keeps_ret {S A} (R : S -> S -> Prop) `{!Reflexive R} (a : A) : keeps R (ret a).
Proof. intros s a' s' [= _ <-]. reflexivity. Qed.

Lemma keeps_panic {S A} (R : S -> S -> Prop) msg : keeps R (@panic S A msg).
Proof. intros s a s' Hc. discriminate Hc. Qed.

Lemma keeps_outOfFuel {S A} (R : S -> S -> Prop) : keeps R (@outOfFuel S A).
Proof. intros s a s' Hc. discriminate Hc. Qed.

Lemma keeps_get {S} (R : S -> S -> Prop) `{!Reflexive R} : keeps R get.
Proof. intros s a s' [= _ <-]. reflexivity. Qed.

Lemma keeps_bind {S A B} (R : S -> S -> Prop) `{!Transitive R}
    (c : M S A) (k : A -> M S B) :
  keeps R c -> (forall a, keeps R (k a)) -> keeps R (bind c k).
Proof.
  intros Hc Hk s b s'' Hrun.
  apply bind_inv_Ok in Hrun as (a & s' & Hc' & Hk').
  transitivity s'; [eapply Hc | eapply Hk]; eassumption.
Qed.

Lemma keeps_forM_ {S X} (R : S -> S -> Prop) `{!PreOrder R}
    (l : list X) (body : X -> M S unit) :
  (forall x, keeps R (body x)) -> keeps R (forM_ l body).
Proof.
  intros Hbody. induction l as [|x l IH]; simpl.
  - apply keeps_ret; apply _.
  - apply keeps_bind; [apply _ | apply Hbody | intros _; exact IH].
Qed.

Lemma keeps_orNil {S A} (R : S -> S -> Prop) `{!Reflexive R} (o : option A) :
  keeps R (@orNil S A o).
Proof. destruct o; [apply keeps_ret; assumption | apply keeps_panic]. Qed.

Lemma keeps_liftResult {S A} (R : S -> S -> Prop) `{!Reflexive R} (x : result A) :
  keeps R (@liftResult S A x).
Proof. intros s a s' Hc. unfold liftResult in Hc. destruct x; inversion Hc; subst. reflexivity. Qed.

(** ** [sort.Slice] *)

Section SortSlice.
Context {A : Type} (key : A -> string).

#[local] Instance key_le_total : Total (fun a b => String.le (key a) (key b)).
Proof. intros a b. apply (total String.le). Qed.

#[local] Instance key_le_trans : Transitive (fun a b => String.le (key a) (key b)).
Proof. intros a b c Hab Hbc. exact (transitivity Hab Hbc). Qed.

Lemma sort_Slice_Sorted xs :
  Sorted (fun a b => String.le (key a) (key b)) (sort_Slice key xs).
Proof. apply (Sorted_merge_sort _). Qed.

Lemma sort_Slice_Permutation xs : sort_Slice key xs ≡ₚ xs.
Proof. apply merge_sort_Permutation. Qed.

Lemma sort_Slice_elem_of x xs : x ∈ sort_Slice key xs <-> x ∈ xs.
Proof. rewrite sort_Slice_Permutation. reflexivity. Qed.

(** When no two elements share a key, the sorted slice does not depend
    on the order the elements came in. *)
Lemma sort_Slice_order_irrelevant xs ys :
  xs ≡ₚ ys ->
  (forall a b, a ∈ xs -> b ∈ xs -> key a = key b -> a = b) ->
  sort_Slice key xs = sort_Slice key ys.
Proof.
  intros Hperm Hinj.
  apply (Sorted_unique_strong (fun a b => String.le (key a) (key b))).
  - intros a b Ha Hb Hab Hba.
    apply Hinj.
    + apply (proj1 (sort_Slice_elem_of _ _)) in Ha. exact Ha.
    + apply (proj1 (sort_Slice_elem_of _ _)) in Hb. rewrite <- Hperm in Hb. exact Hb.
    + apply (anti_symm String.le); assumption.
  - apply sort_Slice_Sorted.
  - apply sort_Slice_Sorted.
  - rewrite !sort_Slice_Permutation. exact Hperm.
Qed.

End SortSlice.

Section Properties.
Context {KS : Kubespec} {JS : Jsonnet} {KV : Kubeversion} {UT : Util}
  {IW : IndentWriterBuffers}.

(** ** Looking an object up *)

Lemma getAPIObjectHelper_found r parsedName version hidden :
  Version parsedName = Some version ->
  is_Some (derefAPIObject r (objectAt (negb hidden) parsedName version)) ->
  getAPIObjectHelper r parsedName hidden
  = Ok (inl (objectAt (negb hidden) parsedName version)).
Proof.
  intros Hv [ao Hao]. unfold getAPIObjectHelper. rewrite Hv.
  unfold derefAPIObject, derefVersionedAPI, derefGroup in Hao. simpl in Hao.
  destruct (groupsOf (negb hidden) r !! groupNameOf parsedName) as [g|]; [|discriminate].
  simpl in Hao.
  destruct (group_versionedAPIs g !! version) as [va|]; [|discriminate].
  simpl in Hao. rewrite Hao. reflexivity.
Qed.

Lemma getAPIObjectHelper_missing r parsedName version hidden :
  Version parsedName = Some version ->
  derefAPIObject r (objectAt (negb hidden) parsedName version) = None ->
  exists what,
    what ∈ ["group"; "versioned API"; "kind"]
    /\ getAPIObjectHelper r parsedName hidden
       = Ok (inr ("Could not retrieve object, " +:+ what +:+ " in path '"
                    +:+ Unparse parsedName +:+ "' doesn't exist")).
Proof.
  intros Hv Hao. unfold getAPIObjectHelper. rewrite Hv.
  unfold derefAPIObject, derefVersionedAPI, derefGroup in Hao. simpl in Hao.
  destruct (groupsOf (negb hidden) r !! groupNameOf parsedName) as [g|].
  - simpl in Hao. destruct (group_versionedAPIs g !! version) as [va|].
    + simpl in Hao. rewrite Hao. exists "kind". split; [set_solver | reflexivity].
    + exists "versioned API". split; [set_solver | reflexivity].
  - exists "group". split; [set_solver | reflexivity].
Qed.

(** C9.  A reference with a version is looked up in the hidden groups
    first; only when group, version and kind do not lead to an object
    there is it looked up in the visible groups; when they lead to an
    object in neither, [getAPIObject] panics with the error of the
    lookup. *)
Theorem C9_getAPIObject_hidden_first r parsedName version :
  Version parsedName = Some version ->
  let hiddenOne := objectAt true parsedName version in
  let visibleOne := objectAt false parsedName version in
  (is_Some (derefAPIObject r hiddenOne) -> getAPIObject r parsedName = Ok hiddenOne)
  /\ (derefAPIObject r hiddenOne = None -> is_Some (derefAPIObject r visibleOne) ->
      getAPIObject r parsedName = Ok visibleOne)
  /\ (derefAPIObject r hiddenOne = None -> derefAPIObject r visibleOne = None ->
      exists what,
        what ∈ ["group"; "versioned API"; "kind"]
        /\ getAPIObject r parsedName
           = Panic ("Could not retrieve object, " +:+ what +:+ " in path '"
                      +:+ Unparse parsedName +:+ "' doesn't exist")).
Proof.
  intros Hv hiddenOne visibleOne. unfold getAPIObject. repeat split.
  - intros Hh. rewrite (getAPIObjectHelper_found r parsedName version false Hv Hh).
    reflexivity.
  - intros Hh Hs.
    destruct (getAPIObjectHelper_missing r parsedName version false Hv Hh)
      as (what & _ & ->).
    rewrite (getAPIObjectHelper_found r parsedName version true Hv Hs). reflexivity.
  - intros Hh Hs.
    destruct (getAPIObjectHelper_missing r parsedName version false Hv Hh)
      as (what & _ & ->).
    destruct (getAPIObjectHelper_missing r parsedName version true Hv Hs)
      as (what' & Hin & ->).
    exists what'. split; [exact Hin | reflexivity].
Qed.

(** ** Building the tree *)

Lemma newRoot_fold spec sha1 sha2 :
  newRoot spec sha1 sha2
  = match forM_ (Definitions spec) (fun '(defName, def) => addDefinition defName def)
            (emptyRoot spec sha1 sha2) with
    | Ok (_, r) => Ok r
    | Panic msg => Panic msg
    | OutOfFuel => OutOfFuel
    end.
Proof. reflexivity. Qed.

Lemma addDefinition_no_version path def r :
  Version (Parse path) = None -> addDefinition path def r = Ok (tt, r).
Proof. intros Hv. unfold addDefinition. rewrite Hv. reflexivity. Qed.

(** C7.  A definition whose path carries no version leaves the tree as
    it is and raises nothing; the tree [newRoot] builds is the one the
    other definitions build. *)
Theorem C7_definition_without_version_is_skipped path def :
  Version (Parse path) = None ->
  (forall r, addDefinition path def r = Ok (tt, r))
  /\ (forall before after r,
        forM_ (before ++ (path, def) :: after)
          (fun '(defName, def) => addDefinition defName def) r
        = forM_ (before ++ after) (fun '(defName, def) => addDefinition defName def) r)
  /\ (forall spec before after sha1 sha2,
        Definitions spec = before ++ (path, def) :: after ->
        newRoot spec sha1 sha2
        = match forM_ (before ++ after) (fun '(defName, def) => addDefinition defName def)
                  (emptyRoot spec sha1 sha2) with
          | Ok (_, r) => Ok r
          | Panic msg => Panic msg
          | OutOfFuel => OutOfFuel
          end).
Proof.
  intros Hv.
  assert (Hskip : forall before after r,
             forM_ (before ++ (path, def) :: after)
               (fun '(defName, def) => addDefinition defName def) r
             = forM_ (before ++ after)
                 (fun '(defName, def) => addDefinition defName def) r).
  { intros before after r. rewrite !forM__app.
    destruct (forM_ before _ r) as [[[] r']| |]; try reflexivity.
    simpl. unfold bind at 1. rewrite (addDefinition_no_version path def r' Hv).
    reflexivity. }
  split; [|split].
  - intros r. apply addDefinition_no_version, Hv.
  - exact Hskip.
  - intros spec before after sha1 sha2 Hdefs.
    rewrite newRoot_fold, Hdefs, Hskip. reflexivity.
Qed.

Lemma createAPIObject_duplicate parsedName def r version va :
  Version parsedName = Some version ->
  derefVersionedAPI r
    (op_va (objectAt (Nat.eqb (length (TopLevelSpecs def)) 0) parsedName version))
  = Some va ->
  is_Some (va_apiObjects va !! Kind parsedName) ->
  createAPIObject parsedName def r
  = Panic ("Duplicate object kinds with name '" +:+ Unparse parsedName +:+ "'").
Proof.
  intros Hv Hva [ao Hao]. unfold createAPIObject. rewrite Hv.
  unfold derefVersionedAPI, derefGroup in Hva. simpl in Hva.
  unfold bind, get. simpl.
  destruct (groupsOf (Nat.eqb (length (TopLevelSpecs def)) 0) r !! groupNameOf parsedName)
    as [g|]; [|discriminate].
  simpl in Hva |- *. rewrite Hva. simpl. rewrite Hao. reflexivity.
Qed.

(** C5.  When the definitions before it have built a versioned API that
    holds an object of its kind, a definition makes [createAPIObject]
    panic with a message that names its path; [addDefinition],
    [newRoot] and [Emit] end in that panic, so [Emit] returns no text. *)
Theorem C5_duplicate_kind_is_fatal spec before path def after sha1 sha2 r version va :
  Definitions spec = before ++ (path, def) :: after ->
  forM_ before (fun '(defName, def) => addDefinition defName def)
    (emptyRoot spec sha1 sha2) = Ok (tt, r) ->
  Version (Parse path) = Some version ->
  derefVersionedAPI r
    (op_va (objectAt (Nat.eqb (length (TopLevelSpecs def)) 0) (Parse path) version))
  = Some va ->
  is_Some (va_apiObjects va !! Kind (Parse path)) ->
  let msg := "Duplicate object kinds with name '" +:+ Unparse (Parse path) +:+ "'" in
  createAPIObject (Parse path) def r = Panic msg
  /\ addDefinition path def r = Panic msg
  /\ newRoot spec sha1 sha2 = Panic msg
  /\ forall fuel, Emit fuel spec sha1 sha2 = Panic msg.
Proof.
  intros Hdefs Hbefore Hv Hva Hdup msg.
  pose proof (createAPIObject_duplicate (Parse path) def r version va Hv Hva Hdup) as Hc.
  assert (Ha : addDefinition path def r = Panic msg).
  { unfold addDefinition. rewrite Hv. apply bind_Panic, Hc. }
  assert (Hn : newRoot spec sha1 sha2 = Panic msg).
  { rewrite newRoot_fold, Hdefs, forM__app, Hbefore. simpl.
    unfold bind at 1. rewrite Ha. reflexivity. }
  repeat split; try assumption.
  intros fuel. unfold Emit. rewrite Hn. reflexivity.
Qed.

(** ** The properties chosen for emission *)

Lemma selected_spec k8sVersion pm :
  selected k8sVersion pm = true
  <-> IsBlacklistedProperty k8sVersion (prop_path pm) (blacklistName pm) = false
      /\ refHasNoVersion pm = false.
Proof.
  unfold selected.
  destruct (IsBlacklistedProperty k8sVersion (prop_path pm) (blacklistName pm));
    destruct (refHasNoVersion pm); simpl; intuition congruence.
Qed.

Lemma sortAndFilterBlacklisted_elem_of r (aos : gmap PropertyName property) k pm :
  (k, pm) ∈ sortAndFilterBlacklisted r aos
  <-> aos !! k = Some pm
      /\ IsBlacklistedProperty (k8sVersionOf r) (prop_path pm) (blacklistName pm) = false
      /\ refHasNoVersion pm = false.
Proof.
  unfold sortAndFilterBlacklisted, sortAndFilterBlacklisted_range.
  rewrite sort_Slice_elem_of, list_elem_of_In, filter_In, <- list_elem_of_In.
  rewrite elem_of_map_to_list. simpl. rewrite selected_spec. reflexivity.
Qed.

(** The slice does not depend on the order in which the [range] over
    the map visits the properties, as long as every property is stored
    under its name. *)
Lemma sortAndFilterBlacklisted_any_range r (aos : gmap PropertyName property) visited :
  visited ≡ₚ map_to_list aos ->
  (forall k pm, aos !! k = Some pm -> prop_name pm = k) ->
  sortAndFilterBlacklisted_range (k8sVersionOf r) visited = sortAndFilterBlacklisted r aos.
Proof.
  intros Hperm Hname.
  unfold sortAndFilterBlacklisted, sortAndFilterBlacklisted_range.
  apply sort_Slice_order_irrelevant.
  - clear Hname. induction Hperm; simpl.
    + reflexivity.
    + destruct (selected _ _); [constructor|]; exact IHHperm.
    + destruct (selected _ x.2), (selected _ y.2); try reflexivity.
      * apply perm_swap.
    + etransitivity; eassumption.
  - intros [k1 p1] [k2 p2] H1 H2 Hkey. simpl in Hkey.
    apply list_elem_of_In, filter_In in H1 as [H1 _].
    apply list_elem_of_In, filter_In in H2 as [H2 _].
    apply list_elem_of_In in H1, H2.
    rewrite Hperm in H1, H2.
    apply elem_of_map_to_list in H1, H2.
    pose proof (Hname _ _ H1) as E1. pose proof (Hname _ _ H2) as E2.
    assert (k1 = k2) as -> by congruence.
    congruence.
Qed.

(** C2, amended.  The sequence chosen for emission holds exactly the
    properties of the set that are not blacklisted under their name
    without the alias suffix and whose reference, if any, parses to a
    version; it is in ascending order of the whole name of the
    property, alias suffix included. *)
Theorem C2_selection_sorted_by_full_name r (aos : gmap PropertyName property) :
  let chosen := sortAndFilterBlacklisted r aos in
  chosen ≡ₚ List.filter (fun kv => selected (k8sVersionOf r) kv.2) (map_to_list aos)
  /\ (forall k pm,
        (k, pm) ∈ chosen
        <-> aos !! k = Some pm
            /\ IsBlacklistedProperty (k8sVersionOf r) (prop_path pm) (blacklistName pm)
                = false
            /\ refHasNoVersion pm = false)
  /\ Sorted (fun a b => String.le (prop_name a.2) (prop_name b.2)) chosen.
Proof.
  intros chosen. split; [|split].
  - apply sort_Slice_Permutation.
  - intros k pm. apply sortAndFilterBlacklisted_elem_of.
  - apply (sort_Slice_Sorted (fun kv : PropertyName * property => prop_name kv.2)).
Qed.

(** C10, amended.  A property of either kind whose reference does not
    parse to a version is in no chosen sequence, under no key, so no
    emission site receives it (the function has no access to the log);
    a property that is not blacklisted and has no such reference is
    chosen. *)
Theorem C10_reference_without_version_is_dropped r
    (aos : gmap PropertyName property) k pm :
  aos !! k = Some pm ->
  (refHasNoVersion pm = true -> k ∉ (sortAndFilterBlacklisted r aos).*1)
  /\ (refHasNoVersion pm = false ->
      IsBlacklistedProperty (k8sVersionOf r) (prop_path pm) (blacklistName pm) = false ->
      (k, pm) ∈ sortAndFilterBlacklisted r aos).
Proof.
  intros Hk. split.
  - intros Href Hin. apply list_elem_of_fmap in Hin as ([k' pm'] & -> & Hin).
    apply sortAndFilterBlacklisted_elem_of in Hin as (Hk' & _ & Href').
    simpl in Hk. congruence.
  - intros Href Hbl. apply sortAndFilterBlacklisted_elem_of. auto.
Qed.

(** ** What the [emit] methods write *)

Lemma wrote_cons t ts i : wrote (t :: ts) i = wrote ts (writeLine t i).
Proof. unfold wrote, writeLine. simpl. rewrite <- app_assoc. reflexivity. Qed.

Lemma wrote_nil i : wrote [] i = i.
Proof. destruct i. unfold wrote. simpl. rewrite app_nil_r. reflexivity. Qed.

Lemma wrote_app ts1 ts2 i : wrote (ts1 ++ ts2) i = wrote ts2 (wrote ts1 i).
Proof.
  revert i. induction ts1 as [|t ts1 IH]; intros i.
  - rewrite wrote_nil. reflexivity.
  - simpl. rewrite !wrote_cons. apply IH.
Qed.

Lemma writeLine_wrote t ts i : writeLine t (wrote ts i) = wrote (ts ++ [t]) i.
Proof. rewrite wrote_app, wrote_cons, wrote_nil. reflexivity. Qed.

Lemma comments_emit_run cs s :
  comments_emit cs s
  = Ok (tt, {| es_m := wrote (List.map commentLine cs) (es_m s); es_log := es_log s |}).
Proof.
  unfold comments_emit. revert s. induction cs as [|c cs IH]; intros s.
  - simpl. rewrite wrote_nil. destruct s; reflexivity.
  - simpl. unfold bind at 1. simpl. rewrite IH. simpl. rewrite wrote_cons. reflexivity.
Qed.

Lemma emitHelper_typed fuel r p parentMixinName s :
  prop_kind p = method ->
  prop_ref p = None ->
  isMixinRef None = false ->
  emitHelper (S fuel) r p parentMixinName s
  = (comments_emit (prop_comments p);;;
     let k8sVersion := k8sVersionOf r in
     let setterFunctionName := ToSetterID (RewriteAsIdentifier k8sVersion (prop_name p)) in
     let mixinFunctionName := ToMixinID (RewriteAsIdentifier k8sVersion (prop_name p)) in
     let paramName := RewriteAsFuncParam k8sVersion (prop_name p) in
     let fieldName := RewriteAsFieldKey (prop_name p) in
     let setterSignature := setterFunctionName +:+ "(" +:+ paramName +:+ ")::" in
     let mixinSignature := mixinFunctionName +:+ "(" +:+ paramName +:+ ")::" in
     match prop_schemaType p with
     | Some paramType =>
         bodies <-
           (if String.eqb paramType "array" then
              match parentMixinName with
              | None =>
                  ret (true,
                       "if std.type(" +:+ paramName +:+ ") == " +:+ dquote +:+ "array"
                         +:+ dquote +:+ " then {" +:+ fieldName +:+ ": " +:+ paramName
                         +:+ "} else {" +:+ fieldName +:+ ": [" +:+ paramName +:+ "]}",
                       "if std.type(" +:+ paramName +:+ ") == " +:+ dquote +:+ "array"
                         +:+ dquote +:+ " then {" +:+ fieldName +:+ "+: " +:+ paramName
                         +:+ "} else {" +:+ fieldName +:+ "+: [" +:+ paramName +:+ "]}")
              | Some parent =>
                  ret (true,
                       "if std.type(" +:+ paramName +:+ ") == " +:+ dquote +:+ "array"
                         +:+ dquote +:+ " then " +:+ parent +:+ "({" +:+ fieldName
                         +:+ ": " +:+ paramName +:+ "}) else " +:+ parent +:+ "({"
                         +:+ fieldName +:+ ": [" +:+ paramName +:+ "]})",
                       "if std.type(" +:+ paramName +:+ ") == " +:+ dquote +:+ "array"
                         +:+ dquote +:+ " then " +:+ parent +:+ "({" +:+ fieldName
                         +:+ "+: " +:+ paramName +:+ "}) else " +:+ parent +:+ "({"
                         +:+ fieldName +:+ "+: [" +:+ paramName +:+ "]})")
              end
            else if String.eqb paramType "integer" || String.eqb paramType "string"
                    || String.eqb paramType "boolean" then
              match parentMixinName with
              | None =>
                  ret (false, "{" +:+ fieldName +:+ ": " +:+ paramName +:+ "}",
                       EmptyString)
              | Some parent =>
                  ret (false,
                       parent +:+ "({" +:+ fieldName +:+ ": " +:+ paramName +:+ "})",
                       EmptyString)
              end
            else if String.eqb paramType "object" then
              match parentMixinName with
              | None =>
                  ret (true, "{" +:+ fieldName +:+ ": " +:+ paramName +:+ "}",
                       "{" +:+ fieldName +:+ "+: " +:+ paramName +:+ "}")
              | Some parent =>
                  ret (true,
                       parent +:+ "({" +:+ fieldName +:+ ": " +:+ paramName +:+ "})",
                       parent +:+ "({" +:+ fieldName +:+ "+: " +:+ paramName +:+ "})")
              end
            else panic ("Unrecognized type '" +:+ paramType +:+ "'"));;
         let '(emitMixin, setterBody, mixinBody) := bodies in
         m_writeLine (setterSignature +:+ " self + " +:+ setterBody +:+ ",");;;
         if emitMixin : bool then
           comments_emit (prop_comments p);;;
           m_writeLine (mixinSignature +:+ " self + " +:+ mixinBody +:+ ",")
         else ret tt
     | None => panic "Neither a type nor a ref"
     end) s.
Proof.
  intros Hkind Href Hmixin.
  cbn [emitHelper].
  rewrite (bool_decide_eq_false_2 (prop_kind p = typeAlias)) by congruence.
  rewrite Href, Hmixin.
  rewrite (bool_decide_eq_false_2 (None ≠ None)) by congruence.
  reflexivity.
Qed.

(** C4.  For a method property with a declared type and no reference,
    [emitHelper] writes: for the types array and object, the comments
    and the setter, then the comments again and the mixin; for the
    types integer, string and boolean, the comments and the setter
    only.  The body of the setter of an array tests [std.type] of its
    argument in the generated code: an array is assigned as it is, any
    other value inside a list of one element. *)
Theorem C4_setter_and_mixin_by_type fuel r p parentMixinName s :
  prop_kind p = method ->
  prop_ref p = None ->
  isMixinRef None = false ->
  let k8sVersion := k8sVersionOf r in
  let paramName := RewriteAsFuncParam k8sVersion (prop_name p) in
  let fieldName := RewriteAsFieldKey (prop_name p) in
  let setterSignature :=
    ToSetterID (RewriteAsIdentifier k8sVersion (prop_name p)) +:+ "(" +:+ paramName
      +:+ ")::" in
  let mixinSignature :=
    ToMixinID (RewriteAsIdentifier k8sVersion (prop_name p)) +:+ "(" +:+ paramName
      +:+ ")::" in
  let docs := List.map commentLine (prop_comments p) in
  let writes texts :=
    emitHelper (S fuel) r p parentMixinName s
    = Ok (tt, {| es_m := wrote texts (es_m s); es_log := es_log s |}) in
  (prop_schemaType p = Some "array" ->
   writes
     (docs
      ++ [setterSignature +:+ " self + "
          +:+ match parentMixinName with
              | None =>
                  "if std.type(" +:+ paramName +:+ ") == " +:+ dquote +:+ "array"
                    +:+ dquote +:+ " then {" +:+ fieldName +:+ ": " +:+ paramName
                    +:+ "} else {" +:+ fieldName +:+ ": [" +:+ paramName +:+ "]}"
              | Some parent =>
                  "if std.type(" +:+ paramName +:+ ") == " +:+ dquote +:+ "array"
                    +:+ dquote +:+ " then " +:+ parent +:+ "({" +:+ fieldName
                    +:+ ": " +:+ paramName +:+ "}) else " +:+ parent +:+ "({"
                    +:+ fieldName +:+ ": [" +:+ paramName +:+ "]})"
              end +:+ ","]
      ++ docs
      ++ [mixinSignature +:+ " self + "
          +:+ match parentMixinName with
              | None =>
                  "if std.type(" +:+ paramName +:+ ") == " +:+ dquote +:+ "array"
                    +:+ dquote +:+ " then {" +:+ fieldName +:+ "+: " +:+ paramName
                    +:+ "} else {" +:+ fieldName +:+ "+: [" +:+ paramName +:+ "]}"
              | Some parent =>
                  "if std.type(" +:+ paramName +:+ ") == " +:+ dquote +:+ "array"
                    +:+ dquote +:+ " then " +:+ parent +:+ "({" +:+ fieldName
                    +:+ "+: " +:+ paramName +:+ "}) else " +:+ parent +:+ "({"
                    +:+ fieldName +:+ "+: [" +:+ paramName +:+ "]})"
              end +:+ ","]))
  /\ (prop_schemaType p = Some "object" ->
      writes
        (docs
         ++ [setterSignature +:+ " self + "
             +:+ match parentMixinName with
                 | None => "{" +:+ fieldName +:+ ": " +:+ paramName +:+ "}"
                 | Some parent =>
                     parent +:+ "({" +:+ fieldName +:+ ": " +:+ paramName +:+ "})"
                 end +:+ ","]
         ++ docs
         ++ [mixinSignature +:+ " self + "
             +:+ match parentMixinName with
                 | None => "{" +:+ fieldName +:+ "+: " +:+ paramName +:+ "}"
                 | Some parent =>
                     parent +:+ "({" +:+ fieldName +:+ "+: " +:+ paramName +:+ "})"
                 end +:+ ","]))
  /\ (forall type,
        type ∈ ["integer"; "string"; "boolean"] ->
        prop_schemaType p = Some type ->
        writes
          (docs
           ++ [setterSignature +:+ " self + "
               +:+ match parentMixinName with
                   | None => "{" +:+ fieldName +:+ ": " +:+ paramName +:+ "}"
                   | Some parent =>
                       parent +:+ "({" +:+ fieldName +:+ ": " +:+ paramName +:+ "})"
                   end +:+ ","])).
Proof.
  intros Hkind Href Hmixin k8sVersion paramName fieldName setterSignature
    mixinSignature docs writes.
  subst writes. cbv beta.
  assert (Hscalar : forall type,
             String.eqb type "array" = false ->
             String.eqb type "integer" || String.eqb type "string"
             || String.eqb type "boolean" = true ->
             prop_schemaType p = Some type ->
             emitHelper (S fuel) r p parentMixinName s
             = Ok (tt, {| es_m :=
                            wrote
                              (docs
                               ++ [setterSignature +:+ " self + "
                                   +:+ match parentMixinName with
                                       | None =>
                                           "{" +:+ fieldName +:+ ": " +:+ paramName +:+ "}"
                                       | Some parent =>
                                           parent +:+ "({" +:+ fieldName +:+ ": "
                                             +:+ paramName +:+ "})"
                                       end +:+ ","]) (es_m s);
                          es_log := es_log s |})).
  { intros type Harray Hscalar Htype.
    rewrite (emitHelper_typed fuel r p parentMixinName s Hkind Href Hmixin).
    unfold bind at 1. rewrite comments_emit_run. cbv zeta. rewrite Htype.
    rewrite Harray, Hscalar.
    rewrite wrote_app, wrote_cons, wrote_nil.
    destruct parentMixinName; reflexivity. }
  split; [|split].
  - intros Htype.
    rewrite (emitHelper_typed fuel r p parentMixinName s Hkind Href Hmixin).
    unfold bind at 1. rewrite comments_emit_run. cbv zeta. rewrite Htype.
    change (String.eqb "array" "array") with true. cbv iota.
    rewrite !wrote_app, !wrote_cons, !wrote_nil.
    destruct parentMixinName; unfold bind, ret, m_writeLine, onWriter, modify;
      cbv beta iota; rewrite comments_emit_run; reflexivity.
  - intros Htype.
    rewrite (emitHelper_typed fuel r p parentMixinName s Hkind Href Hmixin).
    unfold bind at 1. rewrite comments_emit_run. cbv zeta. rewrite Htype.
    change (String.eqb "object" "array") with false.
    change (String.eqb "object" "integer" || String.eqb "object" "string"
            || String.eqb "object" "boolean") with false.
    change (String.eqb "object" "object") with true. cbv iota.
    rewrite !wrote_app, !wrote_cons, !wrote_nil.
    destruct parentMixinName; unfold bind, ret, m_writeLine, onWriter, modify;
      cbv beta iota; rewrite comments_emit_run; reflexivity.
  - intros type Hin Htype.
    apply (Hscalar type); [| |exact Htype];
      repeat (apply elem_of_cons in Hin as [->|Hin]; [reflexivity|]);
      apply elem_of_nil in Hin; contradiction.
Qed.

(** ** Type aliases *)

Lemma ev_visitTypeAlias_no_version r pp p ref e log :
  derefProperty r pp = Some p ->
  aliasRef p = Some ref ->
  Version (Parse (Name ref)) = None ->
  ev_visitTypeAlias r pp (e, log)
  = Ok (tt, (storeBuffer (StoredBuffer (KeyProperty pp)) EmptyString e,
             log ++ [couldNotEmitTypeAlias (Name ref)])).
Proof.
  intros Hp Href Hv. unfold ev_visitTypeAlias, aliasTarget.
  unfold bind, newBuffer, onVisitor, modify. cbv beta iota. simpl fst. simpl snd.
  rewrite Hp. cbv beta iota delta [orNil ret]. rewrite Href. cbv beta iota.
  rewrite Hv. reflexivity.
Qed.

Lemma emitAsTypeAlias_no_version r p ref s :
  aliasRef p = Some ref ->
  Version (Parse (Name ref)) = None ->
  emitAsTypeAlias r p s
  = Ok (tt, {| es_m := es_m s; es_log := es_log s ++ [couldNotEmitTypeAlias (Name ref)] |}).
Proof.
  intros Href Hv. unfold emitAsTypeAlias, aliasTarget, bind.
  rewrite Href. cbv beta iota delta [orNil ret]. rewrite Hv. reflexivity.
Qed.

(** C6.  When a type alias is emitted whose path does not parse to a
    version, both emitters log the diagnostic and return: the visitor
    stores an empty buffer for the alias, [emitAsTypeAlias] leaves the
    writer as it is; neither panics, and no other part of the state
    changes. *)
Theorem C6_alias_without_version_is_skipped r pp p ref :
  derefProperty r pp = Some p ->
  prop_kind p = typeAlias ->
  aliasRef p = Some ref ->
  Version (Parse (Name ref)) = None ->
  let diagnostic := couldNotEmitTypeAlias (Name ref) in
  (forall e log,
      visitTypeAlias r pp (e, log)
      = Ok (tt, (storeBuffer (StoredBuffer (KeyProperty pp)) EmptyString e,
                 log ++ [diagnostic])))
  /\ (forall fuel (st : visitState emitVisitor),
        vs_root st = r ->
        property_accept (S fuel) pp st
        = Ok (tt, {| vs_root := r;
                     vs_visitor :=
                       storeBuffer (StoredBuffer (KeyProperty pp)) EmptyString
                         (vs_visitor st);
                     vs_log := vs_log st ++ [diagnostic] |}))
  /\ (forall s,
        emitAsTypeAlias r p s
        = Ok (tt, {| es_m := es_m s; es_log := es_log s ++ [diagnostic] |}))
  /\ (forall fuel parentMixinName s,
        emitHelper (S fuel) r p parentMixinName s
        = Ok (tt, {| es_m := es_m s; es_log := es_log s ++ [diagnostic] |})).
Proof.
  intros Hp Hkind Href Hv diagnostic. repeat split.
  - intros e log. apply (ev_visitTypeAlias_no_version r pp p ref e log Hp Href Hv).
  - intros fuel st <-. cbn [property_accept].
    unfold bind at 1. unfold theRoot, bind at 1, get, ret. cbv beta iota.
    unfold bind at 1. rewrite Hp. cbv beta iota delta [orNil ret].
    rewrite (bool_decide_eq_true_2 _ Hkind).
    unfold visit. cbn [visitTypeAlias emitVisitor_Visitor].
    rewrite (ev_visitTypeAlias_no_version _ pp p ref _ _ Hp Href Hv). reflexivity.
  - intros s. apply (emitAsTypeAlias_no_version r p ref s Href Hv).
  - intros fuel parentMixinName s. cbn [emitHelper].
    rewrite (bool_decide_eq_true_2 _ Hkind).
    apply (emitAsTypeAlias_no_version r p ref s Href Hv).
Qed.

(** ** The header *)

Lemma root_emit_nil_k8sSHA fuel r sha s :
  ksonnetLibSHA r = Some sha ->
  k8sSHA r = None ->
  root_emit fuel r s = Panic nilDereference.
Proof.
  intros Hlib Hk8s. unfold root_emit. rewrite Hlib, Hk8s. reflexivity.
Qed.

Lemma ev_visitRoot_nil_k8sSHA r sha s :
  ksonnetLibSHA r = Some sha ->
  k8sSHA r = None ->
  ev_visitRoot r s = Panic nilDereference.
Proof.
  intros Hlib Hk8s. unfold ev_visitRoot. rewrite Hlib, Hk8s. reflexivity.
Qed.

(** ** Reading through a pointer after an assignment through a pointer *)

Lemma groupsOf_withGroups h h' gs r :
  groupsOf h' (withGroups h gs r) = if decide (h = h') then gs else groupsOf h' r.
Proof. destruct h, h'; reflexivity. Qed.

Lemma derefGroup_alterGroup change gp gp' r :
  derefGroup (alterGroup change gp r) gp'
  = if decide (gp = gp') then change <$> derefGroup r gp' else derefGroup r gp'.
Proof.
  unfold derefGroup, alterGroup. rewrite groupsOf_withGroups.
  destruct gp as [h n], gp' as [h' n']; simpl.
  destruct (decide (h = h')) as [->|Hh].
  - rewrite lookup_alter. destruct (decide (n = n')) as [->|Hn].
    + rewrite decide_True by reflexivity. reflexivity.
    + rewrite decide_False by congruence. reflexivity.
  - rewrite decide_False by congruence. reflexivity.
Qed.

Lemma derefVersionedAPI_alterVersionedAPI change vp vp' r :
  derefVersionedAPI (alterVersionedAPI change vp r) vp'
  = if decide (vp = vp') then change <$> derefVersionedAPI r vp'
    else derefVersionedAPI r vp'.
Proof.
  unfold derefVersionedAPI, alterVersionedAPI. rewrite derefGroup_alterGroup.
  destruct vp as [gp v], vp' as [gp' v']; simpl.
  destruct (decide (gp = gp')) as [->|Hg].
  - destruct (derefGroup r gp') as [g|]; simpl.
    + rewrite lookup_alter. destruct (decide (v = v')) as [->|Hv].
      * rewrite decide_True by reflexivity. reflexivity.
      * rewrite decide_False by congruence. reflexivity.
    + destruct (decide _); reflexivity.
  - rewrite decide_False by congruence. reflexivity.
Qed.

Lemma derefAPIObject_alterAPIObject change op op' r :
  derefAPIObject (alterAPIObject change op r) op'
  = if decide (op = op') then change <$> derefAPIObject r op' else derefAPIObject r op'.
Proof.
  unfold derefAPIObject, alterAPIObject. rewrite derefVersionedAPI_alterVersionedAPI.
  destruct op as [vp k], op' as [vp' k']; simpl.
  destruct (decide (vp = vp')) as [->|Hv].
  - destruct (derefVersionedAPI r vp') as [va|]; simpl.
    + rewrite lookup_alter. destruct (decide (k = k')) as [->|Hk].
      * rewrite decide_True by reflexivity. reflexivity.
      * rewrite decide_False by congruence. reflexivity.
    + destruct (decide _); reflexivity.
  - rewrite decide_False by congruence. reflexivity.
Qed.

Lemma derefProperty_alterProperty change pp pp' r :
  derefProperty (alterProperty change pp r) pp'
  = if decide (pp = pp') then change <$> derefProperty r pp' else derefProperty r pp'.
Proof.
  unfold derefProperty, alterProperty. rewrite derefAPIObject_alterAPIObject.
  destruct pp as [op k], pp' as [op' k']; simpl.
  destruct (decide (op = op')) as [->|Ho].
  - destruct (derefAPIObject r op') as [ao|]; simpl.
    + rewrite lookup_alter. destruct (decide (k = k')) as [->|Hk].
      * rewrite decide_True by reflexivity. reflexivity.
      * rewrite decide_False by congruence. reflexivity.
    + destruct (decide _); reflexivity.
  - rewrite decide_False by congruence. reflexivity.
Qed.

Section Accept.
Context {V : Type} {VI : Visitor V}.

Lemma visit_root (f : root -> visiting V) (s : visitState V) a s' :
  visit f s = Ok (a, s') -> vs_root s' = vs_root s.
Proof.
  unfold visit. destruct (f (vs_root s) (vs_visitor s, vs_log s)) as [[[] [v l]]| |];
    try discriminate.
  intros [= _ <-]. reflexivity.
Qed.

(** The traversal keeps every relation that the visits and the
    assignments it makes keep. *)
Section Kept.
Context (R : visitState V -> visitState V -> Prop) {HR : PreOrder R}.
Hypothesis visit_kept : forall f : root -> visiting V, keeps R (visit f).

Lemma theRoot_kept : keeps R (@theRoot V).
Proof.
  unfold theRoot. apply keeps_bind; [apply _ | apply keeps_get; apply _ |].
  intros s. apply keeps_ret. apply _.
Qed.

Lemma refMixinAPIObject_accept_with_kept property_accept rmao :
  (forall pm, keeps R (setParentMixinName pm (rmao_parentMixinName rmao))) ->
  (forall pm, keeps R (property_accept pm)) ->
  keeps R (refMixinAPIObject_accept_with property_accept rmao).
Proof.
  intros Hset Hpm. unfold refMixinAPIObject_accept_with.
  apply keeps_bind; [apply _ | apply theRoot_kept |]. intros r.
  apply keeps_bind; [apply _ | apply keeps_orNil; apply _ |]. intros ao.
  apply keeps_bind; [apply _ | | intros _; apply visit_kept].
  apply keeps_forM_; [apply _ |]. intros kv.
  destruct (isSpecialProperty (prop_name kv.2)).
  - apply keeps_ret. apply _.
  - apply keeps_bind; [apply _ | apply Hset | intros _; apply Hpm].
Qed.

Lemma property_accept_kept fuel :
  (forall pm, keeps R (setParentMixinName pm EmptyString)) ->
  forall pp, keeps R (property_accept fuel pp).
Proof.
  intros Hset. induction fuel as [|fuel IH]; intros pp.
  - apply keeps_outOfFuel.
  - cbn [property_accept].
    apply keeps_bind; [apply _ | apply theRoot_kept |]. intros r.
    apply keeps_bind; [apply _ | apply keeps_orNil; apply _ |]. intros p.
    destruct (bool_decide (prop_kind p = typeAlias)); [apply visit_kept|].
    apply keeps_bind; [apply _ | apply visit_kept |]. intros _.
    destruct (isMixinRef (prop_ref p)).
    + apply keeps_bind; [apply _ | apply keeps_orNil; apply _ |]. intros ref.
      apply keeps_bind; [apply _ | apply keeps_liftResult; apply _ |]. intros apiObject.
      apply refMixinAPIObject_accept_with_kept; [exact Hset | exact IH].
    + destruct (bool_decide (prop_ref p ≠ None)); [apply visit_kept|].
      destruct (bool_decide (prop_schemaType p = None));
        [apply keeps_panic | apply visit_kept].
Qed.

End Kept.

End Accept.

End Properties.

Lemma default_is_Some {A} (o : option A) (d : A) : is_Some o -> o = Some (default d o).
Proof. intros [a ->]. reflexivity. Qed.

(** * Further properties of the code *)

(** ** Strings *)

Lemma append_assoc (a b c : string) : (a +:+ b) +:+ c = a +:+ b +:+ c.
Proof.
  induction a as [|x a IH]; [reflexivity|].
  change (String x ((a +:+ b) +:+ c) = String x (a +:+ b +:+ c)). rewrite IH. reflexivity.
Qed.

Lemma append_nil_r (a : string) : a +:+ EmptyString = a.
Proof.
  induction a as [|x a IH]; [reflexivity|].
  change (String x (a +:+ EmptyString) = String x a). rewrite IH. reflexivity.
Qed.

Lemma repeatString_add s n m :
  repeatString s (n + m) = repeatString s n +:+ repeatString s m.
Proof.
  induction n as [|n IH]; [reflexivity|].
  simpl. rewrite IH, append_assoc. reflexivity.
Qed.

(** ** The [indentWriter] *)

Lemma writeLines_rendered ls buffer :
  Forall (fun l => (0 <= line_depth l)%Z) ls ->
  writeLines ls buffer = Ok (buffer +:+ rendered ls).
Proof.
  revert buffer. induction ls as [|l ls IH]; intros buffer Hls.
  - simpl. rewrite append_nil_r. reflexivity.
  - apply Forall_cons in Hls as [Hl Hls]. simpl. unfold Repeat.
    destruct (line_depth l <? 0)%Z eqn:Hneg; [apply Z.ltb_lt in Hneg; lia|].
    rewrite (IH _ Hls). unfold renderedLine. rewrite !append_assoc. reflexivity.
Qed.

Lemma writeLines_Ok_inv ls buffer text :
  writeLines ls buffer = Ok text -> Forall (fun l => (0 <= line_depth l)%Z) ls.
Proof.
  revert buffer. induction ls as [|l ls IH]; intros buffer Hrun; [constructor|].
  simpl in Hrun. unfold Repeat in Hrun.
  destruct (line_depth l <? 0)%Z eqn:Hneg; [discriminate Hrun|].
  constructor; [apply Z.ltb_ge in Hneg; exact Hneg | exact (IH _ Hrun)].
Qed.

(** X1.  [write] returns a text exactly when no recorded line is left
    of the margin, and the text is then the buffer followed, for every
    record in order, by the indentation unit repeated [depth] times,
    the text and a line feed. *)
Theorem X1_write_renders_records_in_order i buffer text :
  write i buffer = Ok text
  <-> Forall (fun l => (0 <= line_depth l)%Z) (iw_lines i)
      /\ text = buffer +:+ rendered (iw_lines i).
Proof.
  unfold write. split.
  - intros Hrun. pose proof (writeLines_Ok_inv _ _ _ Hrun) as Hlines.
    split; [exact Hlines|].
    rewrite (writeLines_rendered _ _ Hlines) in Hrun. congruence.
  - intros [Hlines ->]. apply writeLines_rendered, Hlines.
Qed.

(** X2.  [dedent] has no floor: once a line is recorded at a negative
    depth, [write] panics in [strings.Repeat], whatever else was
    written. *)
Theorem X2_write_panics_on_negative_depth i buffer :
  Exists (fun l => (line_depth l < 0)%Z) (iw_lines i) ->
  write i buffer = Panic "strings: negative Repeat count".
Proof.
  unfold write. generalize (iw_lines i) as ls. intros ls. revert buffer.
  induction ls as [|l ls IH]; intros buffer Hls.
  - apply Exists_nil in Hls. contradiction.
  - simpl. unfold Repeat.
    destruct (line_depth l <? 0)%Z eqn:Hneg; [reflexivity|].
    apply Exists_cons in Hls as [Hl|Hls]; [apply Z.ltb_ge in Hneg; lia|].
    apply IH, Hls.
Qed.

Lemma rendered_app ls1 ls2 : rendered (ls1 ++ ls2) = rendered ls1 +:+ rendered ls2.
Proof.
  induction ls1 as [|l ls1 IH]; [reflexivity|].
  simpl. rewrite IH, append_assoc. reflexivity.
Qed.

Lemma rendered_shifted depth ls :
  (0 <= depth)%Z ->
  Forall (fun l => (0 <= line_depth l)%Z) ls ->
  rendered (List.map (fun l => {| line_depth := line_depth l + depth;
                                  line_text := line_text l |}) ls)
  = renderedWithin depth ls.
Proof.
  intros Hdepth Hls. induction ls as [|l ls IH]; [reflexivity|].
  apply Forall_cons in Hls as [Hl Hls]. simpl. rewrite (IH Hls).
  unfold renderedLine at 1. simpl.
  rewrite (Z.add_comm (line_depth l) depth), Z2Nat.inj_add by lia.
  rewrite repeatString_add. unfold renderedLine. rewrite !append_assoc. reflexivity.
Qed.

(** X3.  [insert] splices another writer into this one at the current
    depth: the receiver keeps its depth, and what [write] then renders
    is the receiver's own text followed by the text of the inserted
    writer with every line moved right by the receiver's depth. *)
Theorem X3_insert_renders_at_current_depth o i buffer :
  (0 <= iw_depth i)%Z ->
  Forall (fun l => (0 <= line_depth l)%Z) (iw_lines i) ->
  Forall (fun l => (0 <= line_depth l)%Z) (iw_lines o) ->
  iw_depth (insert_ o i) = iw_depth i
  /\ write (insert_ o i) buffer
     = Ok (buffer +:+ rendered (iw_lines i) +:+ renderedWithin (iw_depth i) (iw_lines o)).
Proof.
  intros Hdepth Hi Ho. split; [reflexivity|].
  unfold write, insert_. cbn [iw_lines].
  rewrite writeLines_rendered.
  - rewrite rendered_app, (rendered_shifted _ _ Hdepth Ho). reflexivity.
  - apply Forall_app. split; [exact Hi|].
    apply Forall_forall. intros l Hin. apply list_elem_of_In in Hin.
    apply in_map_iff in Hin as (l0 & <- & Hin0). simpl.
    apply list_elem_of_In in Hin0.
    pose proof (proj1 (Forall_forall _ _) Ho l0 Hin0). simpl in *. lia.
Qed.

(** ** Comments *)

Lemma Split_length text sep : length (Split text sep) = S (occurrences sep text).
Proof.
  induction text as [|x text IH]; [reflexivity|].
  simpl. destruct (Ascii.eqb x sep).
  - simpl. rewrite IH. reflexivity.
  - destruct (Split text sep) as [|l ls]; simpl in *; [discriminate IH | exact IH].
Qed.

Lemma Join_Split text sep : Join (Split text sep) (String sep EmptyString) = text.
Proof.
  induction text as [|x text IH]; [reflexivity|].
  pose proof (Split_length text sep) as Hlength.
  simpl. destruct (Ascii.eqb x sep) eqn:Hx.
  - apply Ascii.eqb_eq in Hx. subst x.
    destruct (Split text sep) as [|l ls]; [discriminate Hlength|].
    change (Join (EmptyString :: l :: ls) (String sep EmptyString))
      with (String sep (Join (l :: ls) (String sep EmptyString))).
    rewrite IH. reflexivity.
  - destruct (Split text sep) as [|l ls]; [discriminate Hlength|].
    destruct ls as [|l' ls].
    + simpl in *. rewrite IH. reflexivity.
    + change (Join (String x l :: l' :: ls) (String sep EmptyString))
        with (String x (Join (l :: l' :: ls) (String sep EmptyString))).
      rewrite IH. reflexivity.
Qed.

Lemma Split_no_sep text sep :
  Forall (fun piece => occurrences sep piece = 0) (Split text sep).
Proof.
  induction text as [|x text IH]; [repeat constructor|].
  simpl. destruct (Ascii.eqb x sep) eqn:Hx.
  - constructor; [reflexivity | exact IH].
  - destruct (Split text sep) as [|l ls].
    + repeat constructor. simpl. rewrite Hx. reflexivity.
    + apply Forall_cons in IH as [Hl Hls].
      constructor; [|exact Hls]. simpl. rewrite Hx, Hl. reflexivity.
Qed.

(** X4.  The comments of a node are the lines of its description: the
    pieces between its line feeds, in order (joined by line feeds they
    give the description back, and none contains a line feed), one more
    than there are line feeds, so an empty description still gives one
    piece.  [comments.emit] writes one line for each piece in order, a
    bare [//] for an empty piece (no trailing space) and [// ] followed
    by the piece otherwise, and changes nothing else. *)
Theorem X4_comments_one_line_per_description_line text s :
  let pieces := newComments text in
  Join pieces newline = text
  /\ Forall (fun piece => occurrences "010"%char piece = 0) pieces
  /\ length pieces = S (occurrences "010"%char text)
  /\ comments_emit pieces s
     = Ok (tt, {| es_m :=
                    wrote
                      (List.map
                         (fun piece => if String.eqb piece EmptyString then "//"
                                       else "// " +:+ piece) pieces)
                      (es_m s);
                  es_log := es_log s |}).
Proof.
  intros pieces. subst pieces. unfold newComments.
  split; [apply Join_Split|]. split; [apply Split_no_sep|].
  split; [apply Split_length|].
  apply comments_emit_run.
Qed.

Section MoreProperties.
Context {KS : Kubespec} {JS : Jsonnet} {KV : Kubeversion} {UT : Util}
  {IW : IndentWriterBuffers}.

(** ** [createAPIObject] *)

Lemma derefAPIObject_versionedAPIFor parsedName def version r :
  va_apiObjects (versionedAPIFor parsedName def version r) !! Kind parsedName
  = derefAPIObject r (objectAt (routedHidden def) parsedName version).
Proof.
  unfold versionedAPIFor, groupFor, derefAPIObject, derefVersionedAPI, derefGroup. simpl.
  destruct (groupsOf (routedHidden def) r !! groupNameOf parsedName) as [g|]; simpl.
  - destruct (group_versionedAPIs g !! version) as [va|]; reflexivity.
  - rewrite lookup_empty. reflexivity.
Qed.

(** What [createAPIObject] returns, on every input. *)
Lemma createAPIObject_run parsedName def r :
  createAPIObject parsedName def r
  = match Version parsedName with
    | None =>
        Panic ("Can't make API object from name with nil version in path: '"
                 +:+ Unparse parsedName +:+ "'")
    | Some version =>
        match derefAPIObject r (objectAt (routedHidden def) parsedName version) with
        | Some _ =>
            Panic ("Duplicate object kinds with name '" +:+ Unparse parsedName +:+ "'")
        | None =>
            Ok (objectAt (routedHidden def) parsedName version,
                placed parsedName def version r)
        end
    end.
Proof.
  unfold createAPIObject. destruct (Version parsedName) as [version|]; [|reflexivity].
  rewrite <- derefAPIObject_versionedAPIFor.
  unfold bind, get. cbv beta iota zeta.
  change (va_apiObjects
            (default (newVersionedAPI version
                        (vp_group (op_va (objectAt (Nat.eqb (length (TopLevelSpecs def)) 0)
                                            parsedName version))))
               (group_versionedAPIs
                  (default (newGroup (groupNameOf parsedName)
                              match TopLevelSpecs def with
                              | [] => groupNameOf parsedName
                              | t :: _ =>
                                  if String.eqb (tls_Group t) EmptyString
                                  then groupNameOf parsedName else tls_Group t
                              end)
                     (groupsOf (Nat.eqb (length (TopLevelSpecs def)) 0) r
                        !! groupNameOf parsedName)) !! version)) !! Kind parsedName)
    with (va_apiObjects (versionedAPIFor parsedName def version r) !! Kind parsedName).
  destruct (va_apiObjects (versionedAPIFor parsedName def version r) !! Kind parsedName);
    reflexivity.
Qed.

(** Reading through pointers in the tree [createAPIObject] leaves. *)
Lemma derefGroup_placed parsedName def version r gp :
  derefGroup (placed parsedName def version r) gp
  = if decide (gp = vp_group (op_va (objectAt (routedHidden def) parsedName version)))
    then Some (groupWith parsedName def version r)
    else derefGroup r gp.
Proof.
  unfold derefGroup, placed. rewrite groupsOf_withGroups.
  destruct gp as [h g]. simpl.
  destruct (decide (routedHidden def = h)) as [<-|Hh].
  - rewrite lookup_insert. destruct (decide (groupNameOf parsedName = g)) as [<-|Hg].
    + rewrite decide_True by reflexivity. reflexivity.
    + rewrite decide_False by congruence. reflexivity.
  - rewrite decide_False by congruence. reflexivity.
Qed.

Lemma derefVersionedAPI_placed parsedName def version r vp :
  derefVersionedAPI (placed parsedName def version r) vp
  = if decide (vp = op_va (objectAt (routedHidden def) parsedName version))
    then Some (versionedAPIWith parsedName def version r)
    else derefVersionedAPI r vp.
Proof.
  unfold derefVersionedAPI. rewrite derefGroup_placed.
  destruct vp as [gp v]. simpl.
  destruct (decide (gp = _)) as [->|Hg].
  - simpl. rewrite lookup_insert. destruct (decide (version = v)) as [<-|Hv].
    + rewrite decide_True by reflexivity. reflexivity.
    + rewrite decide_False by congruence.
      unfold groupFor, derefGroup. simpl.
      destruct (groupsOf (routedHidden def) r !! groupNameOf parsedName); simpl;
        [reflexivity | apply lookup_empty].
  - rewrite decide_False by congruence. reflexivity.
Qed.

Lemma derefAPIObject_placed parsedName def version r op :
  derefAPIObject (placed parsedName def version r) op
  = if decide (op = objectAt (routedHidden def) parsedName version)
    then Some (newAPIObject parsedName
                 (op_va (objectAt (routedHidden def) parsedName version)) def)
    else derefAPIObject r op.
Proof.
  unfold derefAPIObject. rewrite derefVersionedAPI_placed.
  destruct op as [vp k]. simpl.
  destruct (decide (vp = _)) as [->|Hv].
  - simpl. rewrite lookup_insert. destruct (decide (Kind parsedName = k)) as [<-|Hk].
    + rewrite decide_True by reflexivity. reflexivity.
    + rewrite decide_False by (unfold objectAt; congruence).
      unfold versionedAPIFor, groupFor, derefVersionedAPI, derefGroup. simpl.
      destruct (groupsOf (routedHidden def) r !! groupNameOf parsedName) as [g|]; simpl.
      * destruct (group_versionedAPIs g !! version); simpl; [reflexivity | apply lookup_empty].
      * rewrite lookup_empty. simpl. apply lookup_empty.
  - rewrite decide_False by (unfold objectAt; congruence). reflexivity.
Qed.

Lemma groupsOf_placed_other parsedName def version r :
  groupsOf (negb (routedHidden def)) (placed parsedName def version r)
  = groupsOf (negb (routedHidden def)) r.
Proof.
  unfold placed. rewrite groupsOf_withGroups.
  destruct (routedHidden def); reflexivity.
Qed.

(** X5.  When the path has a version and the routed tree holds no object
    of that group, version and kind, [createAPIObject] returns the
    pointer to a new object without properties and changes nothing
    else: every other object is as before, and so is the whole other
    set of groups (a definition with resource markers only touches the
    visible groups, one without only the hidden groups). *)
Theorem X5_createAPIObject_adds_one_object parsedName def r version :
  Version parsedName = Some version ->
  derefAPIObject r (objectAt (routedHidden def) parsedName version) = None ->
  exists r',
    createAPIObject parsedName def r
    = Ok (objectAt (routedHidden def) parsedName version, r')
    /\ derefAPIObject r' (objectAt (routedHidden def) parsedName version)
       = Some (newAPIObject parsedName
                 (op_va (objectAt (routedHidden def) parsedName version)) def)
    /\ (forall op, op <> objectAt (routedHidden def) parsedName version ->
          derefAPIObject r' op = derefAPIObject r op)
    /\ groupsOf (negb (routedHidden def)) r' = groupsOf (negb (routedHidden def)) r
    /\ root_spec r' = root_spec r
    /\ ksonnetLibSHA r' = ksonnetLibSHA r
    /\ k8sSHA r' = k8sSHA r.
Proof.
  intros Hv Hfree. exists (placed parsedName def version r).
  split; [rewrite createAPIObject_run, Hv, Hfree; reflexivity|].
  split; [rewrite derefAPIObject_placed, decide_True by reflexivity; reflexivity|].
  split; [intros op Hop; rewrite derefAPIObject_placed, decide_False by exact Hop;
          reflexivity|].
  split; [apply groupsOf_placed_other|].
  unfold placed, withGroups. destruct (routedHidden def); repeat split.
Qed.

Lemma createAPIObject_Ok_inv parsedName def r op r' :
  createAPIObject parsedName def r = Ok (op, r') ->
  exists version,
    Version parsedName = Some version
    /\ derefAPIObject r (objectAt (routedHidden def) parsedName version) = None
    /\ op = objectAt (routedHidden def) parsedName version
    /\ r' = placed parsedName def version r.
Proof.
  rewrite createAPIObject_run. destruct (Version parsedName) as [version|]; [|discriminate].
  destruct (derefAPIObject r _) eqn:Hfree; [discriminate|].
  intros [= <- <-]. exists version. repeat split. exact Hfree.
Qed.

(** X6.  A group keeps the qualified name it got from the first
    definition that made it: when the group exists, [createAPIObject]
    leaves its name and qualified name as they are, whatever the
    resource markers of the new definition; only a new group takes the
    group of the first resource marker (the group name when there is no
    marker or its group is empty). *)
Theorem X6_group_keeps_first_qualifiedName parsedName def r op r' :
  createAPIObject parsedName def r = Ok (op, r') ->
  exists g',
    derefGroup r' (vp_group (op_va op)) = Some g'
    /\ match derefGroup r (vp_group (op_va op)) with
       | Some g =>
           group_name g' = group_name g
           /\ group_qualifiedName g' = group_qualifiedName g
       | None =>
           group_name g' = groupNameOf parsedName
           /\ group_qualifiedName g'
              = match TopLevelSpecs def with
                | t :: _ => if String.eqb (tls_Group t) EmptyString
                            then groupNameOf parsedName else tls_Group t
                | [] => groupNameOf parsedName
                end
       end.
Proof.
  intros Hrun. apply createAPIObject_Ok_inv in Hrun as (version & Hv & Hfree & -> & ->).
  exists (groupWith parsedName def version r).
  split; [rewrite derefGroup_placed, decide_True by reflexivity; reflexivity|].
  unfold groupWith, groupFor, derefGroup. simpl.
  destruct (groupsOf (routedHidden def) r !! groupNameOf parsedName); simpl;
    split; reflexivity.
Qed.

(** X7.  What [createAPIObject] stores, [getAPIObject] finds again,
    with one exception.  An object routed to the hidden groups is
    always found.  An object routed to the visible groups is found when
    the hidden groups hold no object of the same group, version and
    kind; when they do, the lookup returns that hidden object and the
    new one is shadowed. *)
Theorem X7_getAPIObject_after_createAPIObject parsedName def r op r' :
  createAPIObject parsedName def r = Ok (op, r') ->
  (TopLevelSpecs def = [] -> getAPIObject r' parsedName = Ok op)
  /\ (forall version,
        TopLevelSpecs def <> [] ->
        Version parsedName = Some version ->
        derefAPIObject r (objectAt true parsedName version) = None ->
        getAPIObject r' parsedName = Ok op)
  /\ (forall version,
        TopLevelSpecs def <> [] ->
        Version parsedName = Some version ->
        is_Some (derefAPIObject r (objectAt true parsedName version)) ->
        getAPIObject r' parsedName = Ok (objectAt true parsedName version)
        /\ objectAt true parsedName version <> op).
Proof.
  intros Hrun. apply createAPIObject_Ok_inv in Hrun as (version & Hv & Hfree & -> & ->).
  assert (Hvisible : TopLevelSpecs def <> [] -> routedHidden def = false).
  { unfold routedHidden. destruct (TopLevelSpecs def); [congruence | reflexivity]. }
  split; [|split].
  - intros Hnone. assert (Hhidden : routedHidden def = true)
      by (unfold routedHidden; rewrite Hnone; reflexivity).
    rewrite Hhidden in *. unfold getAPIObject.
    rewrite (getAPIObjectHelper_found _ parsedName version false Hv); [reflexivity|].
    simpl. rewrite derefAPIObject_placed, Hhidden, decide_True by reflexivity. eauto.
  - intros version' Hdef Hv' Hnone. assert (version' = version) as -> by congruence.
    rewrite (Hvisible Hdef) in *. unfold getAPIObject.
    destruct (getAPIObjectHelper_missing (placed parsedName def version r) parsedName
                version false Hv) as (what & _ & ->).
    { simpl. rewrite derefAPIObject_placed, (Hvisible Hdef), decide_False by discriminate.
      exact Hnone. }
    rewrite (getAPIObjectHelper_found _ parsedName version true Hv); [reflexivity|].
    simpl. rewrite derefAPIObject_placed, (Hvisible Hdef), decide_True by reflexivity. eauto.
  - intros version' Hdef Hv' Hsome. assert (version' = version) as -> by congruence.
    rewrite (Hvisible Hdef) in *. split; [|discriminate].
    unfold getAPIObject.
    rewrite (getAPIObjectHelper_found _ parsedName version false Hv); [reflexivity|].
    simpl. rewrite derefAPIObject_placed, (Hvisible Hdef), decide_False by discriminate.
    exact Hsome.
Qed.

(** ** The tree [newRoot] builds *)

Lemma keeps_modify {S} (R : S -> S -> Prop) (f : S -> S) :
  (forall s, R s (f s)) -> keeps R (modify f).
Proof. intros Hf s a s' [= _ <-]. apply Hf. Qed.

Lemma derefProperty_placed parsedName def version r pp :
  derefAPIObject r (objectAt (routedHidden def) parsedName version) = None ->
  derefProperty (placed parsedName def version r) pp = derefProperty r pp.
Proof.
  intros Hfree. unfold derefProperty. rewrite derefAPIObject_placed.
  destruct (decide (pp_obj pp = _)) as [->|Hne]; [|reflexivity].
  rewrite Hfree. simpl. apply lookup_empty.
Qed.

Lemma wellKeyed_emptyRoot spec sha1 sha2 : wellKeyed (emptyRoot spec sha1 sha2).
Proof.
  assert (Hg : forall gp, derefGroup (emptyRoot spec sha1 sha2) gp = None).
  { intros [[] g]; apply lookup_empty. }
  assert (Hv : forall vp, derefVersionedAPI (emptyRoot spec sha1 sha2) vp = None).
  { intros vp. unfold derefVersionedAPI. rewrite Hg. reflexivity. }
  assert (Ho : forall op, derefAPIObject (emptyRoot spec sha1 sha2) op = None).
  { intros op. unfold derefAPIObject. rewrite Hv. reflexivity. }
  assert (Hp : forall pp, derefProperty (emptyRoot spec sha1 sha2) pp = None).
  { intros pp. unfold derefProperty. rewrite Ho. reflexivity. }
  split; [|split; [|split]]; intros ? ? Hsome;
    rewrite ?Hg, ?Hv, ?Ho, ?Hp in Hsome; discriminate Hsome.
Qed.

Lemma wellKeyed_placed parsedName def version r :
  derefAPIObject r (objectAt (routedHidden def) parsedName version) = None ->
  wellKeyed r -> wellKeyed (placed parsedName def version r).
Proof.
  intros Hfree (Hg & Hv & Ho & Hp). split; [|split; [|split]].
  - intros gp g. rewrite derefGroup_placed.
    destruct (decide _) as [->|Hne]; [|apply Hg].
    intros [= <-]. unfold groupWith, groupFor. simpl.
    destruct (groupsOf (routedHidden def) r !! groupNameOf parsedName) as [g|] eqn:Hold;
      simpl; [|reflexivity].
    apply (Hg {| gp_hidden := routedHidden def; gp_name := groupNameOf parsedName |} g Hold).
  - intros vp va. rewrite derefVersionedAPI_placed.
    destruct (decide _) as [->|Hne]; [|apply Hv].
    intros [= <-]. unfold versionedAPIWith, versionedAPIFor, groupFor. simpl.
    destruct (groupsOf (routedHidden def) r !! groupNameOf parsedName) as [g|] eqn:Hold;
      simpl.
    + destruct (group_versionedAPIs g !! version) as [va|] eqn:Hva; simpl;
        [|split; reflexivity].
      apply (Hv (op_va (objectAt (routedHidden def) parsedName version)) va).
      unfold derefVersionedAPI, derefGroup. simpl. rewrite Hold. exact Hva.
    + rewrite lookup_empty. simpl. split; reflexivity.
  - intros op ao. rewrite derefAPIObject_placed.
    destruct (decide _) as [->|Hne]; [|apply Ho].
    intros [= <-]. unfold newAPIObject, routedHidden. simpl. repeat split.
  - intros pp p. rewrite (derefProperty_placed _ _ _ _ _ Hfree). apply Hp.
Qed.

Lemma derefProperty_setProperty op name pm r pp :
  derefProperty (setProperty op name pm r) pp
  = if decide (pp_obj pp = op)
    then match derefAPIObject r op with
         | Some ao => if decide (pp_key pp = name) then Some pm
                      else ao_properties ao !! pp_key pp
         | None => None
         end
    else derefProperty r pp.
Proof.
  unfold derefProperty, setProperty. rewrite derefAPIObject_alterAPIObject.
  destruct (decide (op = pp_obj pp)) as [<-|Hne].
  - rewrite decide_True by reflexivity.
    destruct (derefAPIObject r op) as [ao|]; simpl; [|reflexivity].
    rewrite lookup_insert. destruct (decide (name = pp_key pp)) as [<-|Hk].
    + rewrite decide_True by reflexivity. reflexivity.
    + rewrite decide_False by congruence. reflexivity.
  - rewrite decide_False by congruence. reflexivity.
Qed.

Lemma wellKeyed_setProperty op name pm r :
  prop_name pm = name ->
  prop_parent pm = op ->
  prop_parentMixinName pm = EmptyString ->
  wellKeyed r -> wellKeyed (setProperty op name pm r).
Proof.
  intros Hname Hparent Hq (Hg & Hv & Ho & Hp). split; [|split; [|split]].
  - intros gp g. unfold setProperty, alterAPIObject, alterVersionedAPI.
    rewrite derefGroup_alterGroup.
    destruct (decide _); [|apply Hg].
    destruct (derefGroup r gp) as [g0|] eqn:Hold; [|discriminate].
    intros [= <-]. simpl. apply (Hg gp g0 Hold).
  - intros vp va. unfold setProperty, alterAPIObject.
    rewrite derefVersionedAPI_alterVersionedAPI.
    destruct (decide _); [|apply Hv].
    destruct (derefVersionedAPI r vp) as [va0|] eqn:Hold; [|discriminate].
    intros [= <-]. simpl. apply (Hv vp va0 Hold).
  - intros op' ao. unfold setProperty. rewrite derefAPIObject_alterAPIObject.
    destruct (decide _); [|apply Ho].
    destruct (derefAPIObject r op') as [ao0|] eqn:Hold; [|discriminate].
    intros [= <-]. simpl. apply (Ho op' ao0 Hold).
  - intros pp p. rewrite derefProperty_setProperty.
    destruct (decide (pp_obj pp = op)) as [Hobj|Hne]; [|apply Hp].
    destruct (derefAPIObject r op) as [ao|] eqn:Hao; [|discriminate].
    destruct (decide (pp_key pp = name)) as [Hkey|Hkey].
    + intros [= <-]. repeat split; congruence.
    + intros Hold. apply Hp. unfold derefProperty. rewrite Hobj, Hao. exact Hold.
Qed.

Lemma addProperty_wellKeyed path op binding :
  keeps (fun r r' => wellKeyed r -> wellKeyed r') (addProperty path op binding).
Proof.
  assert (HR : PreOrder (fun r r' : root => wellKeyed r -> wellKeyed r')).
  { split; [intros r; auto | intros r1 r2 r3; auto]. }
  destruct binding as [propName prop]. unfold addProperty.
  apply keeps_bind; [apply _ | |intros _].
  { apply keeps_modify. intros r. apply wellKeyed_setProperty; reflexivity. }
  destruct (wantsTypeAlias _ prop); [|apply keeps_ret; apply _].
  apply keeps_bind; [apply _ | apply keeps_get; apply _ |]. intros r.
  apply keeps_bind; [apply _ | apply keeps_orNil; apply _ |]. intros ao.
  apply keeps_bind; [apply _ | |intros _].
  { destruct (ao_properties ao !! _) as [ta|]; [|apply keeps_ret; apply _].
    destruct (bool_decide _); [apply keeps_panic | apply keeps_ret; apply _]. }
  apply keeps_modify. intros r0. apply wellKeyed_setProperty; reflexivity.
Qed.

Lemma addDefinition_wellKeyed path def :
  keeps (fun r r' => wellKeyed r -> wellKeyed r') (addDefinition path def).
Proof.
  assert (HR : PreOrder (fun r r' : root => wellKeyed r -> wellKeyed r')).
  { split; [intros r; auto | intros r1 r2 r3; auto]. }
  unfold addDefinition. destruct (Version (Parse path)); [|apply keeps_ret; apply _].
  apply keeps_bind; [apply _ | |].
  - intros r op r' Hrun Hr.
    apply createAPIObject_Ok_inv in Hrun as (version & _ & Hfree & _ & ->).
    apply wellKeyed_placed; assumption.
  - intros op. apply keeps_forM_; [apply _|]. intros binding. apply addProperty_wellKeyed.
Qed.

Lemma newRoot_wellKeyed spec sha1 sha2 r :
  newRoot spec sha1 sha2 = Ok r -> wellKeyed r.
Proof.
  assert (HR : PreOrder (fun r r' : root => wellKeyed r -> wellKeyed r')).
  { split; [intros r0; auto | intros r1 r2 r3; auto]. }
  rewrite newRoot_fold.
  destruct (forM_ _ _ _) as [[[] r0]| |] eqn:Hrun; try discriminate.
  intros [= <-].
  eapply (keeps_forM_ (fun r r' : root => wellKeyed r -> wellKeyed r') _ _ _ _ _ _ Hrun).
  apply wellKeyed_emptyRoot.
  Unshelve. intros [defName def]. apply addDefinition_wellKeyed.
Qed.

#[local] Instance sameStamp_preorder : PreOrder sameStamp.
Proof.
  split.
  - intros r. repeat split.
  - intros r1 r2 r3 (Hs1 & Hk1 & Hs2) (Hs3 & Hk3 & Hs4).
    repeat split; etransitivity; eassumption.
Qed.

Lemma sameStamp_withGroups hidden gs r : sameStamp r (withGroups hidden gs r).
Proof. destruct hidden; repeat split. Qed.

Lemma addProperty_sameStamp path op binding : keeps sameStamp (addProperty path op binding).
Proof.
  destruct binding as [propName prop]. unfold addProperty.
  apply keeps_bind; [apply _ | |intros _].
  { apply keeps_modify. intros r. apply sameStamp_withGroups. }
  destruct (wantsTypeAlias _ prop); [|apply keeps_ret; apply _].
  apply keeps_bind; [apply _ | apply keeps_get; apply _ |]. intros r.
  apply keeps_bind; [apply _ | apply keeps_orNil; apply _ |]. intros ao.
  apply keeps_bind; [apply _ | |intros _].
  { destruct (ao_properties ao !! _) as [ta|]; [|apply keeps_ret; apply _].
    destruct (bool_decide _); [apply keeps_panic | apply keeps_ret; apply _]. }
  apply keeps_modify. intros r0. apply sameStamp_withGroups.
Qed.

Lemma addDefinition_sameStamp path def : keeps sameStamp (addDefinition path def).
Proof.
  unfold addDefinition. destruct (Version (Parse path)); [|apply keeps_ret; apply _].
  apply keeps_bind; [apply _ | |].
  - intros r op r' Hrun.
    apply createAPIObject_Ok_inv in Hrun as (version & _ & _ & _ & ->).
    apply sameStamp_withGroups.
  - intros op. apply keeps_forM_; [apply _|]. intros binding. apply addProperty_sameStamp.
Qed.

(** X8.  Every tree [newRoot] returns carries the schema and the two
    revisions it was given, and is well keyed: each group, versioned
    API, object and property is stored under its own name (the key the
    sorted slices compare), its parent pointer leads to the node that
    owns it, an object is top-level exactly when it is in the visible
    groups, and no property carries a mixin qualifier. *)
Theorem X8_newRoot_builds_a_well_keyed_tree spec sha1 sha2 r :
  newRoot spec sha1 sha2 = Ok r ->
  wellKeyed r
  /\ root_spec r = spec
  /\ ksonnetLibSHA r = sha1
  /\ k8sSHA r = sha2.
Proof.
  intros Hbuilt. split; [exact (newRoot_wellKeyed spec sha1 sha2 r Hbuilt)|].
  rewrite newRoot_fold in Hbuilt.
  destruct (forM_ _ _ _) as [[[] r0]| |] eqn:Hrun; try discriminate.
  injection Hbuilt as <-.
  assert (Hstamp : sameStamp (emptyRoot spec sha1 sha2) r0).
  { refine (keeps_forM_ sameStamp _ _ _ _ _ _ Hrun).
    intros [defName def]. apply addDefinition_sameStamp. }
  exact Hstamp.
Qed.

(** ** The traversal and the tree *)

Lemma withGroups_groupsOf hidden r : withGroups hidden (groupsOf hidden r) r = r.
Proof. destruct r, hidden; reflexivity. Qed.

Lemma alterProperty_id change pp r :
  (forall p, derefProperty r pp = Some p -> change p = p) ->
  alterProperty change pp r = r.
Proof.
  intros Hid. unfold alterProperty, alterAPIObject, alterVersionedAPI, alterGroup.
  rewrite alter_id; [apply withGroups_groupsOf|].
  intros g Hg. destruct g as [gname qname vas]. unfold withVersionedAPIs. simpl. f_equal.
  apply alter_id. intros va Hva.
  destruct va as [version aos parent]. unfold withAPIObjects. simpl. f_equal.
  apply alter_id. intros ao Hao.
  destruct ao as [name ps parsed cs aparent top ctors]. unfold withProperties. simpl.
  f_equal. apply alter_id. intros p Hp. apply Hid.
  unfold derefProperty, derefAPIObject, derefVersionedAPI, derefGroup.
  rewrite Hg. simpl. rewrite Hva. simpl. rewrite Hao. simpl. exact Hp.
Qed.

Section MoreAccept.
Context {V : Type} {VI : Visitor V}.

#[local] Instance sameIfNoQualifier_preorder : PreOrder (@sameIfNoQualifier V).
Proof.
  split.
  - intros s _. reflexivity.
  - intros s1 s2 s3 H12 H23 Hnone. unfold sameIfNoQualifier in *.
    rewrite H23; [apply H12, Hnone|]. rewrite (H12 Hnone). exact Hnone.
Qed.

Lemma visit_sameIfNoQualifier (f : root -> visiting V) :
  keeps sameIfNoQualifier (visit f).
Proof. intros s a s' Hrun _. exact (visit_root f s a s' Hrun). Qed.

Lemma setParentMixinName_sameIfNoQualifier pm :
  keeps sameIfNoQualifier (@setParentMixinName V pm EmptyString).
Proof.
  intros s a s' [= _ <-] Hnone. simpl. apply alterProperty_id.
  intros p Hp. pose proof (Hnone pm p Hp) as Hq.
  destruct p. simpl in Hq. subst. reflexivity.
Qed.

(** The methods above [property.accept] keep every relation that
    [property.accept] and the visits keep. *)
Section KeptAbove.
Context (R : visitState V -> visitState V -> Prop) {HR : PreOrder R}.
Hypothesis visit_kept : forall f : root -> visiting V, keeps R (visit f).
Hypothesis set_kept : forall pm, keeps R (setParentMixinName pm EmptyString).

Lemma apiObject_accept_kept fuel op : keeps R (apiObject_accept fuel op).
Proof.
  unfold apiObject_accept.
  apply keeps_bind; [apply _ | apply visit_kept |]. intros _.
  apply keeps_bind; [apply _ | apply theRoot_kept; apply _ |]. intros r.
  apply keeps_bind; [apply _ | apply keeps_orNil; apply _ |]. intros ao.
  apply keeps_bind; [apply _ | | intros _; apply visit_kept].
  apply keeps_forM_; [apply _|]. intros kv.
  apply property_accept_kept; assumption.
Qed.

Lemma versionedAPI_accept_kept fuel vp : keeps R (versionedAPI_accept fuel vp).
Proof.
  unfold versionedAPI_accept.
  apply keeps_bind; [apply _ | apply theRoot_kept; apply _ |]. intros r.
  apply keeps_bind; [apply _ | apply keeps_orNil; apply _ |]. intros va.
  apply keeps_bind; [apply _ | | intros _; apply visit_kept].
  apply keeps_forM_; [apply _|]. intros kv. apply apiObject_accept_kept.
Qed.

Lemma group_accept_kept fuel gp hidden : keeps R (group_accept fuel gp hidden).
Proof.
  unfold group_accept.
  apply keeps_bind; [apply _ | apply theRoot_kept; apply _ |]. intros r.
  apply keeps_bind; [apply _ | apply keeps_orNil; apply _ |]. intros g.
  apply keeps_bind; [apply _ | | intros _; apply visit_kept].
  apply keeps_forM_; [apply _|]. intros kv. apply versionedAPI_accept_kept.
Qed.

Lemma root_accept_kept fuel : keeps R (root_accept fuel).
Proof.
  unfold root_accept.
  apply keeps_bind; [apply _ | apply theRoot_kept; apply _ |]. intros r.
  apply keeps_bind; [apply _ | |intros _].
  { apply keeps_forM_; [apply _|]. intros kv. apply group_accept_kept. }
  apply keeps_bind; [apply _ | | intros _; apply visit_kept].
  apply keeps_forM_; [apply _|]. intros kv. apply group_accept_kept.
Qed.

End KeptAbove.

(** X9.  The traversal that [Emit] starts never changes the tree
    [newRoot] built, for any visitor: the only assignment it makes, of
    the empty qualifier to a property that has none, leaves the
    property as it is. *)
Theorem X9_accept_leaves_the_built_tree_unchanged fuel spec sha1 sha2 r (v : V)
    (log : list string) s' :
  newRoot spec sha1 sha2 = Ok r ->
  root_accept fuel {| vs_root := r; vs_visitor := v; vs_log := log |} = Ok (tt, s') ->
  vs_root s' = r.
Proof.
  intros Hbuilt Hrun.
  apply (root_accept_kept sameIfNoQualifier visit_sameIfNoQualifier
           setParentMixinName_sameIfNoQualifier fuel _ _ _ Hrun).
  intros pp p Hp. simpl in Hp.
  destruct (newRoot_wellKeyed spec sha1 sha2 r Hbuilt)
    as (_ & _ & _ & Hprops).
  apply (Hprops pp p Hp).
Qed.

(** C1.  An expansion leaves the model tree as it is.  On a tree
    [newRoot] built, [property.accept], which starts the expansion of
    the object a property refers to and recurses through the
    expansions inside it, returns with every field of every property,
    object, versioned API and group unchanged, for any visitor; so
    does [refMixinAPIObject.accept] on the expansion [property.accept]
    constructs for any object and property.  The assignment the
    expansion makes to [parentMixinName] writes the empty qualifier
    over the empty qualifier.  The tree after the expansion being the
    tree before it, the same holds for every later expansion of the
    same object from another property. *)
Theorem C1_expansion_leaves_the_tree_unchanged fuel spec sha1 sha2 r :
  newRoot spec sha1 sha2 = Ok r ->
  (forall pp (s s' : visitState V),
      vs_root s = r ->
      property_accept fuel pp s = Ok (tt, s') ->
      vs_root s' = r)
  /\ (forall apiObject pp (s s' : visitState V),
        vs_root s = r ->
        refMixinAPIObject_accept fuel
          {| rmao_apiObject := apiObject; rmao_prop := pp;
             rmao_parentMixinName := EmptyString |} s = Ok (tt, s') ->
        vs_root s' = r).
Proof.
  intros Hbuilt.
  assert (Hunqualified : forall pp p, derefProperty r pp = Some p ->
                                      prop_parentMixinName p = EmptyString).
  { intros pp p Hp.
    destruct (newRoot_wellKeyed spec sha1 sha2 r Hbuilt) as (_ & _ & _ & Hprops).
    apply (Hprops pp p Hp). }
  assert (Hproperty : forall pm, keeps sameIfNoQualifier (property_accept fuel pm)).
  { apply (property_accept_kept sameIfNoQualifier visit_sameIfNoQualifier fuel).
    intros pm. apply setParentMixinName_sameIfNoQualifier. }
  split.
  - intros pp s s' Hs Hrun. rewrite <- Hs.
    apply (Hproperty pp s tt s' Hrun). rewrite Hs. exact Hunqualified.
  - intros apiObject pp s s' Hs Hrun. rewrite <- Hs.
    refine (refMixinAPIObject_accept_with_kept sameIfNoQualifier visit_sameIfNoQualifier
              (property_accept fuel) _ _ Hproperty s tt s' Hrun _).
    + intros pm. apply setParentMixinName_sameIfNoQualifier.
    + rewrite Hs. exact Hunqualified.
Qed.

End MoreAccept.

(** ** The sorted slices of a built tree *)

Lemma toSortedSlice_any_range {A} (name : A -> string) (m : gmap string A) visited :
  visited ≡ₚ map_to_list m ->
  (forall k a, m !! k = Some a -> name a = k) ->
  sort_Slice (fun kv : string * A => name kv.2) visited
  = sort_Slice (fun kv : string * A => name kv.2) (map_to_list m).
Proof.
  intros Hperm Hname. apply sort_Slice_order_irrelevant; [exact Hperm|].
  intros [k1 a1] [k2 a2] H1 H2 Hkey. simpl in Hkey.
  rewrite Hperm in H1, H2.
  apply elem_of_map_to_list in H1, H2.
  pose proof (Hname _ _ H1) as E1. pose proof (Hname _ _ H2) as E2.
  assert (k1 = k2) as -> by congruence.
  f_equal. congruence.
Qed.

(** X10.  In a tree [newRoot] built, none of the four sorted slices the
    emitters range over depends on the order in which Go visits the map
    it is made from: the groups (visible or hidden), the versions of a
    group, the objects of a version and the selected properties of an
    object each come out in one order only. *)
Theorem X10_sorted_slices_ignore_iteration_order spec sha1 sha2 r :
  newRoot spec sha1 sha2 = Ok r ->
  (forall hidden visited,
      visited ≡ₚ map_to_list (groupsOf hidden r) ->
      sort_Slice (fun kv => group_name kv.2) visited
      = groupSet_toSortedSlice (groupsOf hidden r))
  /\ (forall gp g visited,
        derefGroup r gp = Some g ->
        visited ≡ₚ map_to_list (group_versionedAPIs g) ->
        sort_Slice (fun kv => va_version kv.2) visited
        = versionedAPISet_toSortedSlice (group_versionedAPIs g))
  /\ (forall vp va visited,
        derefVersionedAPI r vp = Some va ->
        visited ≡ₚ map_to_list (va_apiObjects va) ->
        sort_Slice (fun kv => ao_name kv.2) visited
        = apiObjectSet_toSortedSlice (va_apiObjects va))
  /\ (forall op ao visited,
        derefAPIObject r op = Some ao ->
        visited ≡ₚ map_to_list (ao_properties ao) ->
        sortAndFilterBlacklisted_range (k8sVersionOf r) visited
        = sortAndFilterBlacklisted r (ao_properties ao)).
Proof.
  intros Hbuilt.
  destruct (newRoot_wellKeyed spec sha1 sha2 r Hbuilt) as (Hg & Hv & Ho & Hp).
  split; [|split; [|split]].
  - intros hidden visited Hperm.
    apply toSortedSlice_any_range; [exact Hperm|].
    intros k g Hk.
    exact (Hg {| gp_hidden := hidden; gp_name := k |} g Hk).
  - intros gp g visited Hderef Hperm.
    apply toSortedSlice_any_range; [exact Hperm|].
    intros k va Hk.
    apply (Hv {| vp_group := gp; vp_version := k |} va).
    unfold derefVersionedAPI. simpl. rewrite Hderef. exact Hk.
  - intros vp va visited Hderef Hperm.
    apply toSortedSlice_any_range; [exact Hperm|].
    intros k ao Hk.
    apply (Ho {| op_va := vp; op_kind := k |} ao).
    unfold derefAPIObject. simpl. rewrite Hderef. exact Hk.
  - intros op ao visited Hderef Hperm.
    apply sortAndFilterBlacklisted_any_range; [exact Hperm|].
    intros k pm Hk.
    apply (Hp {| pp_obj := op; pp_key := k |} pm).
    unfold derefProperty. simpl. rewrite Hderef. exact Hk.
Qed.

(** ** Properties and their type aliases *)

Lemma append_Type_ne (x : string) : x <> x +:+ "Type".
Proof. induction x as [|a x IH]; simpl; [discriminate|]. intros [= H]. exact (IH H). Qed.

Lemma derefAPIObject_setProperty op name pm r ao :
  derefAPIObject r op = Some ao ->
  derefAPIObject (setProperty op name pm r) op
  = Some (withProperties (<[name := pm]> (ao_properties ao)) ao).
Proof.
  intros Hao. unfold setProperty. rewrite derefAPIObject_alterAPIObject.
  rewrite decide_True by reflexivity. rewrite Hao. reflexivity.
Qed.

Lemma addProperty_run path op name prop r ao :
  derefAPIObject r op = Some ao ->
  addProperty path op (name, prop) r
  = let pm := newPropertyMethod name path prop op in
    let r1 := setProperty op name pm r in
    let aliased :=
      setProperty op (name +:+ "Type")
        (newPropertyTypeAlias (name +:+ "Type") path prop op) r1 in
    if wantsTypeAlias pm prop then
      match ao_properties ao !! (name +:+ "Type") with
      | Some ta =>
          if bool_decide (prop_kind ta <> typeAlias)
          then Panic ("Can't create type alias '" +:+ (name +:+ "Type")
                        +:+ "' because a property with that name already exists")
          else Ok (tt, aliased)
      | None => Ok (tt, aliased)
      end
    else Ok (tt, r1).
Proof.
  intros Hao. cbv zeta. unfold addProperty.
  destruct (wantsTypeAlias _ prop); [|reflexivity].
  unfold bind at 1. unfold modify at 1. unfold bind at 1. unfold get.
  rewrite (derefAPIObject_setProperty _ _ _ _ _ Hao). cbn [orNil ret bind].
  unfold bind at 1. cbn [ao_properties withProperties].
  rewrite lookup_insert_ne by apply append_Type_ne.
  destruct (ao_properties ao !! (name +:+ "Type")) as [ta|]; [|reflexivity].
  destruct (bool_decide _); reflexivity.
Qed.

(** X11.  Whether a property [x] that needs a type alias and a property
    named [xType] can live in one object depends on which of the two
    [addDefinition] meets first.  With [x] first the alias [xType] is
    made and the second property then replaces it without any notice;
    with [xType] first the alias cannot be made and the build panics. *)
Theorem X11_alias_collision_depends_on_order path op x prop propT r ao :
  derefAPIObject r op = Some ao ->
  ao_properties ao !! (x +:+ "Type") = None ->
  wantsTypeAlias (newPropertyMethod x path prop op) prop = true ->
  wantsTypeAlias (newPropertyMethod (x +:+ "Type") path propT op) propT = false ->
  (exists r',
      forM_ [(x, prop); (x +:+ "Type", propT)] (addProperty path op) r = Ok (tt, r')
      /\ derefProperty r' {| pp_obj := op; pp_key := x +:+ "Type" |}
         = Some (newPropertyMethod (x +:+ "Type") path propT op))
  /\ forM_ [(x +:+ "Type", propT); (x, prop)] (addProperty path op) r
     = Panic ("Can't create type alias '" +:+ (x +:+ "Type")
                +:+ "' because a property with that name already exists").
Proof.
  intros Hao Hfree Hwants HwantsT. split.
  - eexists. split.
    + cbn [forM_]. unfold bind at 1.
      rewrite (addProperty_run _ _ _ _ _ _ Hao). cbv zeta.
      rewrite Hwants, Hfree. unfold bind at 1.
      erewrite addProperty_run.
      2:{ eapply derefAPIObject_setProperty, derefAPIObject_setProperty, Hao. }
      cbv zeta. rewrite HwantsT. reflexivity.
    + rewrite derefProperty_setProperty. simpl.
      rewrite decide_True by reflexivity.
      erewrite derefAPIObject_setProperty.
      2:{ apply derefAPIObject_setProperty, Hao. }
      rewrite decide_True by reflexivity. reflexivity.
  - cbn [forM_]. unfold bind at 1.
    rewrite (addProperty_run _ _ _ _ _ _ Hao). cbv zeta. rewrite HwantsT.
    unfold bind at 1.
    erewrite addProperty_run.
    2:{ apply derefAPIObject_setProperty, Hao. }
    cbv zeta. rewrite Hwants. cbn [ao_properties withProperties].
    rewrite lookup_insert_eq. reflexivity.
Qed.

(** ** [property.emitHelper] outside the typed cases *)

(** X12.  For a method property with no reference, [emitHelper] knows
    the five types array, object, integer, string and boolean only: any
    other declared type (the schema type [number], say) makes it panic
    with the type in the message, and a property with neither a type
    nor a reference makes it panic as well. *)
Theorem X12_emitHelper_rejects_other_types fuel r p parentMixinName s :
  prop_kind p = method ->
  prop_ref p = None ->
  isMixinRef None = false ->
  (forall type,
      prop_schemaType p = Some type ->
      type ∉ ["array"; "integer"; "string"; "boolean"; "object"] ->
      emitHelper (S fuel) r p parentMixinName s
      = Panic ("Unrecognized type '" +:+ type +:+ "'"))
  /\ (prop_schemaType p = None ->
      emitHelper (S fuel) r p parentMixinName s = Panic "Neither a type nor a ref").
Proof.
  intros Hkind Href Hmixin. split.
  - intros type Htype Hother.
    rewrite (emitHelper_typed fuel r p parentMixinName s Hkind Href Hmixin).
    unfold bind at 1. rewrite comments_emit_run. cbv zeta. rewrite Htype.
    assert (Hne : forall known, known ∈ ["array"; "integer"; "string"; "boolean"; "object"] ->
                                String.eqb type known = false).
    { intros known Hin. apply String.eqb_neq. intros ->. exact (Hother Hin). }
    rewrite !Hne by (apply list_elem_of_In; simpl; tauto).
    reflexivity.
  - intros Htype.
    rewrite (emitHelper_typed fuel r p parentMixinName s Hkind Href Hmixin).
    unfold bind at 1. rewrite comments_emit_run. cbv zeta. rewrite Htype. reflexivity.
Qed.

(** X13.  For a method property whose reference is not a mixin
    reference, [emitHelper] writes the comments and one setter, whose
    body is the bare field (no [self +], no mixin), and does not look
    the reference up: the tree may hold no object of that name. *)
Theorem X13_plain_reference_gets_one_setter fuel r p ref parentMixinName s :
  prop_kind p = method ->
  prop_ref p = Some ref ->
  isMixinRef (Some ref) = false ->
  let k8sVersion := k8sVersionOf r in
  let paramName := RewriteAsFuncParam k8sVersion (prop_name p) in
  let fieldName := RewriteAsFieldKey (prop_name p) in
  let setterSignature :=
    ToSetterID (RewriteAsIdentifier k8sVersion (prop_name p)) +:+ "(" +:+ paramName
      +:+ ")::" in
  let body :=
    match parentMixinName with
    | None => "{" +:+ fieldName +:+ ": " +:+ paramName +:+ "}"
    | Some parent => parent +:+ "({" +:+ fieldName +:+ ": " +:+ paramName +:+ "})"
    end in
  emitHelper (S fuel) r p parentMixinName s
  = Ok (tt, {| es_m := wrote (List.map commentLine (prop_comments p)
                              ++ [setterSignature +:+ " " +:+ body +:+ ","]) (es_m s);
               es_log := es_log s |}).
Proof.
  intros Hkind Href Hmixin k8sVersion paramName fieldName setterSignature body.
  cbn [emitHelper].
  rewrite (bool_decide_eq_false_2 (prop_kind p = typeAlias)) by congruence.
  rewrite Href, Hmixin.
  rewrite (bool_decide_eq_true_2 (Some ref <> None)) by congruence.
  unfold bind at 1. rewrite comments_emit_run.
  rewrite wrote_app, wrote_cons, wrote_nil. reflexivity.
Qed.

(** ** The name of a type alias *)

Lemma length_append (a b : string) :
  String.length (a +:+ b) = String.length a + String.length b.
Proof. induction a as [|x a IH]; [reflexivity|]. simpl. rewrite IH. reflexivity. Qed.

Lemma substring_append_l (a b : string) : substring 0 (String.length a) (a +:+ b) = a.
Proof.
  induction a as [|x a IH]; simpl; [destruct b; reflexivity|]. rewrite IH. reflexivity.
Qed.

Lemma substring_append_r (a b : string) :
  substring (String.length a) (String.length b) (a +:+ b) = b.
Proof.
  induction a as [|x a IH]; simpl; [|exact IH].
  induction b as [|y b IHb]; simpl; [reflexivity|]. f_equal. exact IHb.
Qed.

Lemma TrimSuffix_append (a suffix : string) : TrimSuffix (a +:+ suffix) suffix = a.
Proof.
  unfold TrimSuffix, HasSuffix. rewrite length_append.
  replace (String.length a + String.length suffix - String.length suffix)
    with (String.length a) by lia.
  rewrite substring_append_r, String.eqb_refl.
  rewrite (proj2 (Nat.leb_le _ _)) by lia. simpl.
  apply substring_append_l.
Qed.

(** X14.  The alias [addDefinition] makes for a property [x] is stored
    under [xType]; [emitAsTypeAlias] takes the suffix off again before
    it rewrites the name, so the line it writes is named after the
    rewritten [x] followed by [Type], and points into the hidden groups
    at the referred object. *)
Theorem X14_alias_is_named_after_its_property r x path prop op ref version s :
  aliasRef (newPropertyTypeAlias (x +:+ "Type") path prop op) = Some ref ->
  Version (Parse (Name ref)) = Some version ->
  let k8sVersion := k8sVersionOf r in
  let target := Parse (Name ref) in
  emitAsTypeAlias r (newPropertyTypeAlias (x +:+ "Type") path prop op) s
  = Ok (tt, {| es_m :=
                 writeLine
                   ((RewriteAsIdentifier k8sVersion x +:+ "Type") +:+ ":: hidden."
                      +:+ groupNameOf target +:+ "." +:+ version +:+ "."
                      +:+ RewriteAsIdentifier k8sVersion (Kind target) +:+ ",")
                   (es_m s);
               es_log := es_log s |}).
Proof.
  intros Href Hv k8sVersion target.
  unfold emitAsTypeAlias, aliasTarget, bind.
  rewrite Href. cbv beta iota delta [orNil ret]. subst target. rewrite Hv.
  unfold typeAliasLine. cbn [prop_name newPropertyTypeAlias].
  rewrite TrimSuffix_append. reflexivity.
Qed.

(** ** Constructors *)

Lemma paramSetters_missing r ao before param after :
  Forall (fun q => is_Some (RelativePath q) \/ is_Some (ao_properties ao !! param_ID q))
    before ->
  RelativePath param = None ->
  ao_properties ao !! param_ID param = None ->
  paramSetters r ao (before ++ param :: after)
  = Panic ("Attempted to create constructor, but property '" +:+ param_ID param
             +:+ "' does not exist").
Proof.
  intros Hbefore Hrel Hmissing. induction Hbefore as [|q before Hq _ IH].
  - simpl. unfold paramSetter. rewrite Hrel, Hmissing. reflexivity.
  - simpl. rewrite IH. unfold paramSetter.
    destruct (RelativePath q) as [path|]; [reflexivity|].
    destruct Hq as [[? [=]]|[prop Hprop]]. rewrite Hprop. reflexivity.
Qed.

(** X15.  [emitConstructor] writes nothing in two cases.  When the
    object has a property with the constructor's name it panics, naming
    the path of that property; otherwise, when some parameter without a
    relative path names no property of the object, it panics on the
    first such parameter, whatever comes after it. *)
Theorem X15_emitConstructor_panics r ao id s :
  (forall dm params,
      ao_properties ao !! id = Some dm ->
      emitConstructor r ao id params s
      = Panic ("Attempted to create constructor, but '" +:+ id
                 +:+ "' property already existed at '" +:+ prop_path dm +:+ "'"))
  /\ (forall before param after,
        ao_properties ao !! id = None ->
        Forall (fun q => is_Some (RelativePath q)
                         \/ is_Some (ao_properties ao !! param_ID q)) before ->
        RelativePath param = None ->
        ao_properties ao !! param_ID param = None ->
        emitConstructor r ao id (before ++ param :: after) s
        = Panic ("Attempted to create constructor, but property '" +:+ param_ID param
                   +:+ "' does not exist")).
Proof.
  split.
  - intros dm params Hdm. unfold emitConstructor. rewrite Hdm. reflexivity.
  - intros before param after Hfree Hbefore Hrel Hmissing.
    unfold emitConstructor. rewrite Hfree. unfold bind.
    rewrite (paramSetters_missing r ao before param after Hbefore Hrel Hmissing).
    reflexivity.
Qed.

(** ** The collision test of [apiObject.emit] *)

(** X16.  [apiObject.emit] looks its own rewritten kind up among the
    objects of its version, so in a built tree an object whose kind the
    rewrite leaves unchanged (a kind that starts with a lower-case
    letter, say) collides with itself: [emit] panics before it writes
    anything. *)
Theorem X16_object_collides_with_itself spec sha1 sha2 r op ao fuel s :
  newRoot spec sha1 sha2 = Ok r ->
  derefAPIObject r op = Some ao ->
  RewriteAsIdentifier (k8sVersionOf r) (ao_name ao) = ao_name ao ->
  apiObject_emit fuel r ao s
  = Panic (lowercaseCollision (ao_name ao) (vp_version (op_va op))).
Proof.
  intros Hbuilt Hao Hsame.
  destruct (newRoot_wellKeyed spec sha1 sha2 r Hbuilt) as (_ & Hv & Ho & _).
  destruct (Ho op ao Hao) as (Hname & Hparent & _).
  unfold derefAPIObject in Hao.
  destruct (derefVersionedAPI r (op_va op)) as [va|] eqn:Hva; [|discriminate].
  simpl in Hao. destruct (Hv _ _ Hva) as [Hversion _].
  unfold apiObject_emit. rewrite Hsame, Hparent. unfold bind at 1. rewrite Hva.
  cbv beta iota delta [orNil ret]. unfold bind at 1.
  rewrite Hname.
  rewrite bool_decide_eq_true_2 by (exists ao; exact Hao).
  unfold panic. rewrite Hversion. reflexivity.
Qed.

(** ** What the [emit] methods do to the writer *)

Lemma appended_compose lo1 k1 lo2 k2 lo k s s1 s2 :
  appended lo1 k1 s s1 -> appended lo2 k2 s1 s2 ->
  (lo <= lo1)%Z -> (lo <= k1 + lo2)%Z -> k = (k1 + k2)%Z ->
  appended lo k s s2.
Proof.
  intros (Hd1 & (new1 & Hl1 & Hn1) & (log1 & Hg1))
         (Hd2 & (new2 & Hl2 & Hn2) & (log2 & Hg2)) Hlo1 Hlo2 ->.
  split; [lia|]. split.
  - exists (new1 ++ new2). split.
    + rewrite Hl2, Hl1, <- app_assoc. reflexivity.
    + apply Forall_app. split.
      * eapply Forall_impl; [exact Hn1|]. simpl. intros l Hl. lia.
      * eapply Forall_impl; [exact Hn2|]. simpl. intros l Hl. lia.
  - exists (log1 ++ log2). rewrite Hg2, Hg1, <- app_assoc. reflexivity.
Qed.

#[local] Instance appended_preorder : PreOrder (appended 0 0).
Proof.
  split.
  - intros s. split; [lia|]. split.
    + exists []. rewrite app_nil_r. split; [reflexivity | constructor].
    + exists []. rewrite app_nil_r. reflexivity.
  - intros s1 s2 s3 H12 H23.
    apply (appended_compose 0 0 0 0 0 0 s1 s2 s3 H12 H23); lia.
Qed.

Lemma closes_seq {A B} n (c : M emitState A) (k : A -> M emitState B) :
  closes 0 c -> (forall a, closes n (k a)) -> closes n (bind c k).
Proof.
  intros Hc Hk s b s'' Hrun.
  apply bind_inv_Ok in Hrun as (a & s' & Hc' & Hk').
  apply (appended_compose _ _ _ _ _ _ s s' s'' (Hc _ _ _ Hc') (Hk _ _ _ _ Hk')); lia.
Qed.

Lemma closes_indent {A} n (c : M emitState A) :
  closes (S n) c -> closes n (m_indent;;; c).
Proof.
  intros Hc s b s'' Hrun.
  apply bind_inv_Ok in Hrun as ([] & s' & [= <-] & Hk').
  refine (appended_compose 0 1 _ _ _ _ s _ s'' _ (Hc _ _ _ Hk') _ _ _); [|lia|lia|lia].
  split; [reflexivity|]. split.
  - exists []. simpl. rewrite app_nil_r. split; [reflexivity | constructor].
  - exists []. simpl. rewrite app_nil_r. reflexivity.
Qed.

Lemma closes_dedent {A} n (c : M emitState A) :
  closes n c -> closes (S n) (m_dedent;;; c).
Proof.
  intros Hc s b s'' Hrun.
  apply bind_inv_Ok in Hrun as ([] & s' & [= <-] & Hk').
  refine (appended_compose 0 (-1) _ _ _ _ s _ s'' _ (Hc _ _ _ Hk') _ _ _); [|lia|lia|lia].
  split; [simpl; lia|]. split.
  - exists []. simpl. rewrite app_nil_r. split; [reflexivity | constructor].
  - exists []. simpl. rewrite app_nil_r. reflexivity.
Qed.

Lemma closes_writeLine text : closes 0 (m_writeLine text).
Proof.
  intros s [] s' [= <-]. split; [simpl; lia|]. split.
  - eexists. simpl. split; [reflexivity|]. repeat constructor. simpl. lia.
  - exists []. simpl. rewrite app_nil_r. reflexivity.
Qed.

Lemma closes_log_Printf text : closes 0 (log_Printf text).
Proof.
  intros s [] s' [= <-]. split; [simpl; lia|]. split.
  - exists []. simpl. rewrite app_nil_r. split; [reflexivity | constructor].
  - eexists. reflexivity.
Qed.

Lemma closes_ret {A} (a : A) : closes 0 (ret a).
Proof. apply keeps_ret. apply _. Qed.

Lemma closes_forM_ {X} (l : list X) (body : X -> M emitState unit) :
  (forall x, closes 0 (body x)) -> closes 0 (forM_ l body).
Proof. apply keeps_forM_. apply _. Qed.

Lemma closes_panic {A} n msg : closes n (@panic emitState A msg).
Proof. apply keeps_panic. Qed.

Lemma closes_outOfFuel {A} n : closes n (@outOfFuel emitState A).
Proof. apply keeps_outOfFuel. Qed.

Lemma closes_orNil {A} (o : option A) : closes 0 (orNil o).
Proof. apply keeps_orNil. apply _. Qed.

Lemma closes_liftResult {A} (x : result A) : closes 0 (liftResult x).
Proof. apply keeps_liftResult. apply _. Qed.

Lemma closes_comments_emit cs : closes 0 (comments_emit cs).
Proof. apply closes_forM_. intros comment. apply closes_writeLine. Qed.

(** One step of a proof that a sequence of statements closes the
    blocks it is in. *)
Ltac closes_step :=
  first
    [ apply closes_writeLine | apply closes_log_Printf | apply closes_ret
    | apply closes_panic | apply closes_outOfFuel
    | apply closes_orNil | apply closes_liftResult | apply closes_comments_emit
    | apply closes_indent | apply closes_dedent
    | assumption
    | match goal with
      | |- closes _ (forM_ _ _) => apply closes_forM_; intros ?
      | |- closes _ (bind _ _) => apply closes_seq; [|intros ?]
      | |- closes _ (if ?b then _ else _) => destruct b
      | |- closes _ (match ?x with _ => _ end) => destruct x
      end ].

Lemma closes_emitAsTypeAlias r p : closes 0 (emitAsTypeAlias r p).
Proof. unfold emitAsTypeAlias, aliasTarget. repeat closes_step. Qed.

Lemma closes_emitAsRefMixins_with emitAsRefMixin r ao p parentMixinName :
  (forall pm name, closes 0 (emitAsRefMixin pm name)) ->
  closes 0 (emitAsRefMixins_with emitAsRefMixin r ao p parentMixinName).
Proof.
  intros Hmixin. unfold emitAsRefMixins_with. cbv zeta.
  repeat first [apply Hmixin | closes_step].
Qed.

Lemma closes_emitHelper fuel r p parentMixinName :
  closes 0 (emitHelper fuel r p parentMixinName).
Proof.
  revert p parentMixinName. induction fuel as [|fuel IH]; intros p parentMixinName.
  - apply closes_outOfFuel.
  - cbn [emitHelper]. cbv zeta.
    destruct (bool_decide (prop_kind p = typeAlias)); [apply closes_emitAsTypeAlias|].
    apply closes_seq; [apply closes_comments_emit|]. intros _.
    destruct (isMixinRef (prop_ref p)).
    + apply closes_seq; [apply closes_orNil|]. intros ref.
      apply closes_seq; [apply closes_liftResult|]. intros apiObject.
      apply closes_seq; [apply closes_orNil|]. intros ao.
      apply closes_emitAsRefMixins_with. intros pm name. apply IH.
    + repeat closes_step.
Qed.

Lemma closes_emitConstructor r ao id params : closes 0 (emitConstructor r ao id params).
Proof. unfold emitConstructor. cbv zeta. repeat closes_step. Qed.

Lemma closes_emitConstructors r ao : closes 0 (emitConstructors r ao).
Proof.
  unfold emitConstructors. cbv zeta.
  destruct (ConstructorSpec _ _); [|apply closes_emitConstructor].
  apply closes_forM_. intros spec. apply closes_emitConstructor.
Qed.

Lemma closes_apiObject_emit fuel r ao : closes 0 (apiObject_emit fuel r ao).
Proof.
  unfold apiObject_emit, property_emit. cbv zeta.
  repeat first [apply closes_emitConstructors | apply closes_emitHelper | closes_step].
Qed.

Lemma closes_versionedAPI_emit fuel r va : closes 0 (versionedAPI_emit fuel r va).
Proof.
  unfold versionedAPI_emit. cbv zeta.
  repeat first [apply closes_apiObject_emit | closes_step].
Qed.

Lemma closes_group_emit fuel r g : closes 0 (group_emit fuel r g).
Proof.
  unfold group_emit. cbv zeta.
  repeat first [apply closes_versionedAPI_emit | closes_step].
Qed.

Lemma closes_root_emit fuel r : closes 0 (root_emit fuel r).
Proof.
  unfold root_emit.
  repeat first [apply closes_group_emit | closes_step].
Qed.

(** X17.  Every [emit] method is balanced: whenever it returns, the
    writer is at the depth it started at, the lines it had are still
    there with the new ones after them, no new line is left of the
    starting depth, and the log has only grown.  ([indent] and [dedent]
    are paired on every path that returns.) *)
Theorem X17_emit_methods_are_balanced fuel r :
  closes 0 (root_emit fuel r)
  /\ (forall g, closes 0 (group_emit fuel r g))
  /\ (forall va, closes 0 (versionedAPI_emit fuel r va))
  /\ (forall ao, closes 0 (apiObject_emit fuel r ao))
  /\ (forall ao p parentMixinName, closes 0 (emitAsRefMixins fuel r ao p parentMixinName))
  /\ (forall p, closes 0 (property_emit fuel r p))
  /\ (forall cs, closes 0 (comments_emit cs)).
Proof.
  split; [apply closes_root_emit|].
  split; [intros g; apply closes_group_emit|].
  split; [intros va; apply closes_versionedAPI_emit|].
  split; [intros ao; apply closes_apiObject_emit|].
  split.
  { intros ao p parentMixinName. apply closes_emitAsRefMixins_with.
    intros pm name. apply closes_emitHelper. }
  split; [intros p; apply closes_emitHelper | intros cs; apply closes_comments_emit].
Qed.

(** X18.  The text [root.emit] leaves in a writer that started empty
    can always be written out: [write] finds no line left of the margin,
    so it does not panic and renders every line. *)
Theorem X18_emitted_text_always_renders fuel r log s' buffer :
  root_emit fuel r {| es_m := newIndentWriter; es_log := log |} = Ok (tt, s') ->
  write (es_m s') buffer = Ok (buffer +:+ rendered (iw_lines (es_m s'))).
Proof.
  intros Hrun. apply writeLines_rendered.
  destruct (closes_root_emit fuel r _ _ _ Hrun) as (_ & (new & Hlines & Hnew) & _).
  rewrite Hlines. simpl. simpl in Hnew.
  eapply Forall_impl; [exact Hnew|]. simpl. intros l Hl. lia.
Qed.

(** ** References that lead back to their own object *)

Lemma neverFrom_bind_l {S A B} (I : S -> Prop) (c : M S A) (k : A -> M S B) :
  neverFrom I c -> neverFrom I (bind c k).
Proof.
  intros Hc s y Hs Hrun. destruct y as [b s''].
  apply bind_inv_Ok in Hrun as (a & s' & Hc' & _). exact (Hc s _ Hs Hc').
Qed.

Lemma neverFrom_bind_r {S A B} (I : S -> Prop) (c : M S A) (k : A -> M S B) :
  preserves I c -> (forall a, neverFrom I (k a)) -> neverFrom I (bind c k).
Proof.
  intros Hc Hk s y Hs Hrun. destruct y as [b s''].
  apply bind_inv_Ok in Hrun as (a & s' & Hc' & Hk').
  exact (Hk a s' _ (Hc _ _ _ Hs Hc') Hk').
Qed.

Lemma neverFrom_bind_pure {S A B} (I : S -> Prop) (c : M S A) (a : A) (k : A -> M S B) :
  (forall s, c s = Ok (a, s)) -> neverFrom I (k a) -> neverFrom I (bind c k).
Proof.
  intros Hc Hk s y Hs Hrun. unfold bind in Hrun. rewrite Hc in Hrun.
  exact (Hk s y Hs Hrun).
Qed.

Lemma neverFrom_forM_ {S X} (I : S -> Prop) (l : list X) (body : X -> M S unit) x0 :
  (forall x, preserves I (body x)) ->
  x0 ∈ l -> neverFrom I (body x0) -> neverFrom I (forM_ l body).
Proof.
  intros Hbody Hin Hnever. induction l as [|x l IH].
  - apply elem_of_nil in Hin. contradiction.
  - simpl. apply elem_of_cons in Hin as [<-|Hin].
    + apply neverFrom_bind_l, Hnever.
    + apply neverFrom_bind_r; [apply Hbody | intros _; apply IH, Hin].
Qed.

Lemma preserves_True {S A} (c : M S A) : preserves (fun _ => True) c.
Proof. intros s a s' _ _. exact I. Qed.

(** X19.  A selected mixin reference of an object to that object
    itself (a schema that contains itself) makes [emitHelper] expand
    the object inside its own expansion without end: for no amount of
    fuel does it return, so the Go function recurses until the stack is
    exhausted. *)
Theorem X19_emitHelper_never_returns_on_self_reference r p ref op ao k :
  prop_kind p = method ->
  prop_ref p = Some ref ->
  isMixinRef (Some ref) = true ->
  getAPIObject r (Parse (Name ref)) = Ok op ->
  derefAPIObject r op = Some ao ->
  ao_properties ao !! k = Some p ->
  selected (k8sVersionOf r) p = true ->
  isSpecialProperty (prop_name p) = false ->
  forall fuel parentMixinName s y, emitHelper fuel r p parentMixinName s <> Ok y.
Proof.
  intros Hkind Href Hmixin Hget Hao Hk Hsel Hspecial fuel.
  enough (Hnever : forall parentMixinName,
             neverFrom (fun _ => True) (emitHelper fuel r p parentMixinName)).
  { intros parentMixinName s y. exact (Hnever parentMixinName s y I). }
  induction fuel as [|fuel IH]; intros parentMixinName.
  - intros s y _ Hrun. discriminate Hrun.
  - cbn [emitHelper].
    rewrite (bool_decide_eq_false_2 (prop_kind p = typeAlias)) by congruence.
    rewrite Href, Hmixin. cbv zeta.
    apply neverFrom_bind_r; [apply preserves_True|]. intros _.
    apply (neverFrom_bind_pure _ _ ref); [reflexivity|].
    apply (neverFrom_bind_pure _ _ op); [intros s; rewrite Hget; reflexivity|].
    apply (neverFrom_bind_pure _ _ ao); [intros s; rewrite Hao; reflexivity|].
    unfold emitAsRefMixins_with. cbv zeta.
    do 6 (apply neverFrom_bind_r; [apply preserves_True|]; intros ?).
    apply neverFrom_bind_l.
    apply (neverFrom_forM_ _ _ _ (k, p)); [intros x; apply preserves_True | |].
    + apply sortAndFilterBlacklisted_elem_of.
      split; [exact Hk | apply selected_spec, Hsel].
    + simpl. rewrite Hspecial. apply IH.
Qed.

Lemma groupPtr_eta gp : gp = {| gp_hidden := gp_hidden gp; gp_name := gp_name gp |}.
Proof. destruct gp; reflexivity. Qed.

Lemma versionedAPIPtr_eta vp :
  vp = {| vp_group := vp_group vp; vp_version := vp_version vp |}.
Proof. destruct vp; reflexivity. Qed.

Lemma apiObjectPtr_eta op : op = {| op_va := op_va op; op_kind := op_kind op |}.
Proof. destruct op; reflexivity. Qed.

Lemma propertyPtr_eta pp : pp = {| pp_obj := pp_obj pp; pp_key := pp_key pp |}.
Proof. destruct pp; reflexivity. Qed.

Section SelfReference.
Context {V : Type} {VI : Visitor V}.
Context (r : root) (pp : propertyPtr) (p : property) (ref : ObjectRef).
Hypothesis unqualified :
  forall pp' p', derefProperty r pp' = Some p' -> prop_parentMixinName p' = EmptyString.
Hypothesis Hp : derefProperty r pp = Some p.
Hypothesis Hkind : prop_kind p = method.
Hypothesis Href : prop_ref p = Some ref.
Hypothesis Hmixin : isMixinRef (Some ref) = true.
Hypothesis Hget : getAPIObject r (Parse (Name ref)) = Ok (pp_obj pp).
Hypothesis Hsel : selected (k8sVersionOf r) p = true.
Hypothesis Hspecial : isSpecialProperty (prop_name p) = false.

#[local] Existing Instance sameIfNoQualifier_preorder.

#[local] Abbreviation at_r := (fun s : visitState V => vs_root s = r).

Lemma preserves_at_r {A} (c : M (visitState V) A) :
  keeps sameIfNoQualifier c -> preserves at_r c.
Proof.
  intros Hc s a s' Hs Hrun. rewrite <- Hs. apply (Hc s a s' Hrun).
  rewrite Hs. exact unqualified.
Qed.

Lemma neverFrom_bind_theRoot {B} (k : root -> M (visitState V) B) :
  neverFrom at_r (k r) -> neverFrom at_r (bind theRoot k).
Proof.
  intros Hk s y Hs Hrun. unfold theRoot, bind, get, ret in Hrun. rewrite Hs in Hrun.
  exact (Hk s y Hs Hrun).
Qed.

Lemma neverFrom_bind_orNil {A B} (o : option A) a (k : A -> M (visitState V) B) :
  o = Some a -> neverFrom at_r (k a) -> neverFrom at_r (bind (orNil o) k).
Proof. intros ->. apply neverFrom_bind_pure. reflexivity. Qed.

Lemma preserves_visit (f : root -> visiting V) : preserves at_r (visit f).
Proof. apply preserves_at_r, visit_sameIfNoQualifier. Qed.

Lemma preserves_property_accept fuel pm : preserves at_r (property_accept fuel pm).
Proof.
  apply preserves_at_r.
  apply (property_accept_kept sameIfNoQualifier visit_sameIfNoQualifier fuel
           setParentMixinName_sameIfNoQualifier).
Qed.

Lemma owner_of_the_property :
  exists g va ao,
    derefGroup r (vp_group (op_va (pp_obj pp))) = Some g
    /\ group_versionedAPIs g !! vp_version (op_va (pp_obj pp)) = Some va
    /\ va_apiObjects va !! op_kind (pp_obj pp) = Some ao
    /\ ao_properties ao !! pp_key pp = Some p.
Proof.
  pose proof Hp as H. unfold derefProperty, derefAPIObject, derefVersionedAPI in H.
  destruct (derefGroup r _) as [g|]; [|discriminate]. simpl in H.
  destruct (group_versionedAPIs g !! _) as [va|] eqn:Hva; [|discriminate]. simpl in H.
  destruct (va_apiObjects va !! _) as [ao|] eqn:Hao; [|discriminate]. simpl in H.
  exists g, va, ao. repeat split; assumption.
Qed.

Lemma property_accept_never fuel : neverFrom at_r (property_accept fuel pp).
Proof.
  destruct owner_of_the_property as (g & va & ao & Hg & Hva & Hao & Hk).
  assert (Hobj : derefAPIObject r (pp_obj pp) = Some ao).
  { unfold derefAPIObject, derefVersionedAPI. rewrite Hg. simpl. rewrite Hva. exact Hao. }
  induction fuel as [|fuel IH].
  - intros s y _ Hrun. discriminate Hrun.
  - cbn [property_accept].
    apply neverFrom_bind_theRoot.
    apply (neverFrom_bind_orNil _ p); [exact Hp|].
    rewrite (bool_decide_eq_false_2 (prop_kind p = typeAlias)) by congruence.
    apply neverFrom_bind_r; [apply preserves_visit|]. intros _.
    rewrite Href, Hmixin.
    apply (neverFrom_bind_orNil _ ref); [reflexivity|].
    apply (neverFrom_bind_pure _ _ (pp_obj pp)); [intros s; rewrite Hget; reflexivity|].
    unfold refMixinAPIObject_accept_with. cbn [rmao_apiObject rmao_parentMixinName].
    apply neverFrom_bind_theRoot.
    apply (neverFrom_bind_orNil _ ao); [exact Hobj|].
    apply neverFrom_bind_l.
    apply (neverFrom_forM_ _ _ _ (pp_key pp, p)).
    + intros kv. apply preserves_at_r.
      destruct (isSpecialProperty (prop_name kv.2)); [apply keeps_ret; apply _|].
      apply keeps_bind; [apply _ | apply setParentMixinName_sameIfNoQualifier |].
      intros _.
      apply (property_accept_kept sameIfNoQualifier visit_sameIfNoQualifier fuel
               setParentMixinName_sameIfNoQualifier).
    + apply sortAndFilterBlacklisted_elem_of.
      split; [exact Hk | apply selected_spec, Hsel].
    + simpl. rewrite Hspecial.
      apply neverFrom_bind_r.
      * apply preserves_at_r, setParentMixinName_sameIfNoQualifier.
      * intros _. rewrite <- propertyPtr_eta. exact IH.
Qed.

Lemma root_accept_never fuel : neverFrom at_r (root_accept fuel).
Proof.
  destruct owner_of_the_property as (g & va & ao & Hg & Hva & Hao & Hk).
  set (op := pp_obj pp) in *. set (vp := op_va op) in *. set (gp := vp_group vp) in *.
  assert (Hobject : neverFrom at_r (apiObject_accept fuel op)).
  { unfold apiObject_accept.
    apply neverFrom_bind_r; [apply preserves_visit|]. intros _.
    apply neverFrom_bind_theRoot.
    apply (neverFrom_bind_orNil _ ao).
    { unfold derefAPIObject, derefVersionedAPI. fold vp. fold gp. rewrite Hg. simpl.
      rewrite Hva. exact Hao. }
    apply neverFrom_bind_l.
    apply (neverFrom_forM_ _ _ _ (pp_key pp, p)).
    - intros kv. apply preserves_property_accept.
    - apply sortAndFilterBlacklisted_elem_of.
      split; [exact Hk | apply selected_spec, Hsel].
    - simpl. subst op. rewrite <- propertyPtr_eta. apply property_accept_never. }
  assert (Hversion : neverFrom at_r (versionedAPI_accept fuel vp)).
  { unfold versionedAPI_accept.
    apply neverFrom_bind_theRoot.
    apply (neverFrom_bind_orNil _ va).
    { unfold derefVersionedAPI. fold gp. rewrite Hg. exact Hva. }
    apply neverFrom_bind_l.
    apply (neverFrom_forM_ _ _ _ (op_kind op, ao)).
    - intros kv. apply preserves_at_r.
      apply (apiObject_accept_kept sameIfNoQualifier visit_sameIfNoQualifier
               setParentMixinName_sameIfNoQualifier).
    - apply sort_Slice_elem_of, elem_of_map_to_list, Hao.
    - simpl. subst vp. rewrite <- apiObjectPtr_eta. exact Hobject. }
  assert (Hgroup : forall h, gp_hidden gp = h ->
             neverFrom at_r (group_accept fuel {| gp_hidden := h; gp_name := gp_name gp |} h)).
  { intros h <-. rewrite <- groupPtr_eta. unfold group_accept.
    apply neverFrom_bind_theRoot.
    apply (neverFrom_bind_orNil _ g); [exact Hg|].
    apply neverFrom_bind_l.
    apply (neverFrom_forM_ _ _ _ (vp_version vp, va)).
    - intros kv. apply preserves_at_r.
      apply (versionedAPI_accept_kept sameIfNoQualifier visit_sameIfNoQualifier
               setParentMixinName_sameIfNoQualifier).
    - apply sort_Slice_elem_of, elem_of_map_to_list, Hva.
    - simpl. subst gp. rewrite <- versionedAPIPtr_eta. exact Hversion. }
  assert (Hgroups : forall h kv,
             preserves at_r (group_accept fuel {| gp_hidden := h; gp_name := kv |} h)).
  { intros h kv. apply preserves_at_r.
    apply (group_accept_kept sameIfNoQualifier visit_sameIfNoQualifier
             setParentMixinName_sameIfNoQualifier). }
  assert (Hloop : forall h l,
             preserves at_r
               (forM_ l (fun kv : GroupName * group =>
                           group_accept fuel {| gp_hidden := h; gp_name := kv.1 |} h))).
  { intros h l. induction l as [|x l IHl].
    - intros s a s' Hs [= _ <-]. exact Hs.
    - intros s a s' Hs Hrun. simpl in Hrun.
      apply bind_inv_Ok in Hrun as (a1 & s1 & H1 & H2).
      exact (IHl s1 a s' (Hgroups h x.1 s a1 s1 Hs H1) H2). }
  unfold root_accept. apply neverFrom_bind_theRoot.
  unfold derefGroup in Hg.
  destruct (gp_hidden gp) eqn:Hhidden; simpl in Hg.
  - apply neverFrom_bind_r; [apply Hloop|].
    intros _. apply neverFrom_bind_l.
    apply (neverFrom_forM_ _ _ _ (gp_name gp, g)).
    + intros kv. apply Hgroups.
    + apply sort_Slice_elem_of, elem_of_map_to_list, Hg.
    + apply Hgroup. reflexivity.
  - apply neverFrom_bind_l.
    apply (neverFrom_forM_ _ _ _ (gp_name gp, g)).
    + intros kv. apply Hgroups.
    + apply sort_Slice_elem_of, elem_of_map_to_list, Hg.
    + apply Hgroup. reflexivity.
Qed.

End SelfReference.

(** X20.  A schema in which a selected property of an object is a
    mixin reference to that same object cannot be emitted: the tree is
    built, but the traversal expands the object inside its own
    expansion without end, for any visitor, so [Emit] returns neither
    text nor error for any amount of fuel. *)
Theorem X20_Emit_never_returns_on_self_reference spec sha1 sha2 r pp p ref :
  newRoot spec sha1 sha2 = Ok r ->
  derefProperty r pp = Some p ->
  prop_kind p = method ->
  prop_ref p = Some ref ->
  isMixinRef (Some ref) = true ->
  getAPIObject r (Parse (Name ref)) = Ok (pp_obj pp) ->
  selected (k8sVersionOf r) p = true ->
  isSpecialProperty (prop_name p) = false ->
  (forall V (VI : Visitor V) fuel (v : V) log y,
      root_accept fuel {| vs_root := r; vs_visitor := v; vs_log := log |} <> Ok y)
  /\ (forall fuel y, Emit fuel spec sha1 sha2 <> Ok y).
Proof.
  intros Hbuilt Hp Hkind Href Hmixin Hget Hsel Hspecial.
  assert (Hunq : forall pp' p', derefProperty r pp' = Some p' ->
                                prop_parentMixinName p' = EmptyString).
  { intros pp' p' Hp'.
    destruct (newRoot_wellKeyed spec sha1 sha2 r Hbuilt) as (_ & _ & _ & Hprops).
    apply (Hprops pp' p' Hp'). }
  assert (Hnever : forall V (VI : Visitor V) fuel (v : V) log y,
             root_accept fuel {| vs_root := r; vs_visitor := v; vs_log := log |} <> Ok y).
  { intros V VI fuel v log y.
    apply (root_accept_never r pp p ref Hunq Hp Hkind Href Hmixin Hget Hsel Hspecial fuel).
    reflexivity. }
  split; [exact Hnever|].
  intros fuel y Hrun. unfold Emit in Hrun. rewrite Hbuilt in Hrun.
  destruct (root_accept fuel _) as [[[] s]| |] eqn:Haccept; try discriminate.
  exact (Hnever _ _ _ _ _ _ Haccept).
Qed.

(** ** The buffers of the [emitVisitor] *)

Lemma storeBuffer_twice k text1 text2 e :
  storeBuffer (StoredBuffer k) text2 (storeBuffer (StoredBuffer k) text1 e)
  = storeBuffer (StoredBuffer k) text2 e.
Proof. unfold storeBuffer. simpl. rewrite insert_insert_eq. reflexivity. Qed.

Lemma e_bufferWriteLine_stored k line e log text :
  e_buffers e !! k = Some text ->
  e_bufferWriteLine (StoredBuffer k) line (e, log)
  = Ok (tt, (storeBuffer (StoredBuffer k) (bufferWriteLine (e_m e) text line) e, log)).
Proof.
  intros Hk. unfold e_bufferWriteLine, bind, get. simpl. rewrite Hk. reflexivity.
Qed.

Lemma ev_visitComments_run r cs comments e log :
  derefComments r cs = Some comments ->
  ev_visitComments r cs (e, log)
  = Ok (tt, (storeBuffer (StoredBuffer (KeyComments cs)) (commentsText (e_m e) comments) e,
             log)).
Proof.
  intros Hcs. unfold ev_visitComments. unfold bind at 1. unfold newBuffer, onVisitor, modify.
  unfold bind at 1. rewrite Hcs. cbn [orNil ret fst snd].
  clear Hcs. unfold commentsText. generalize EmptyString as text.
  induction comments as [|c comments IH]; intros text; [reflexivity|].
  cbn [forM_ fold_left]. unfold bind at 1.
  rewrite (e_bufferWriteLine_stored _ _ _ _ text) by apply lookup_insert_eq.
  rewrite storeBuffer_twice. apply IH.
Qed.

(** X21.  For a method property with a declared type and no reference
    the visitor traversal accepts every type, also those [emitHelper]
    rejects, and stores an empty text for the property (the body of
    [visitProperty] is commented out): the comments get their buffer,
    the property gets an empty one, and nothing else changes. *)
Theorem X21_typed_property_is_stored_empty fuel pp p type (s : visitState emitVisitor) :
  derefProperty (vs_root s) pp = Some p ->
  prop_kind p = method ->
  prop_ref p = None ->
  isMixinRef None = false ->
  prop_schemaType p = Some type ->
  property_accept (S fuel) pp s
  = Ok (tt, {| vs_root := vs_root s;
               vs_visitor :=
                 storeBuffer (StoredBuffer (KeyProperty pp)) EmptyString
                   (storeBuffer (StoredBuffer (KeyComments (CommentsOfProperty pp)))
                      (commentsText (e_m (vs_visitor s)) (prop_comments p))
                      (vs_visitor s));
               vs_log := vs_log s |}).
Proof.
  intros Hp Hkind Href Hmixin Htype. cbn [property_accept].
  unfold bind at 1. unfold theRoot, bind at 1, get, ret. cbv beta iota.
  unfold bind at 1. rewrite Hp. cbv beta iota delta [orNil ret].
  rewrite (bool_decide_eq_false_2 (prop_kind p = typeAlias)) by congruence.
  unfold bind at 1. unfold visit at 1. cbn [visitComments emitVisitor_Visitor].
  rewrite (ev_visitComments_run _ _ (prop_comments p)).
  2:{ unfold derefComments. rewrite Hp. reflexivity. }
  rewrite Href, Hmixin.
  rewrite (bool_decide_eq_false_2 (None <> None)) by congruence.
  rewrite Htype.
  rewrite (bool_decide_eq_false_2 (Some type = None)) by congruence.
  reflexivity.
Qed.

#[local] Instance keepsBuffers_preorder : PreOrder keepsBuffers.
Proof. split; [intros s k Hk; exact Hk | intros s1 s2 s3 H12 H23 k Hk; auto]. Qed.

#[local] Instance buffersKept_preorder : PreOrder buffersKept.
Proof.
  split; [intros s k Hk; exact Hk|].
  intros s1 s2 s3 H12 H23 k Hk. apply H23, H12, Hk.
Qed.

Lemma storeBuffer_keeps b text e k :
  is_Some (e_buffers e !! k) -> is_Some (e_buffers (storeBuffer b text e) !! k).
Proof.
  intros Hk. destruct b as [| |k']; simpl; try exact Hk.
  destruct (decide (k' = k)) as [->|Hne].
  - rewrite lookup_insert_eq. eexists. reflexivity.
  - rewrite lookup_insert_ne by exact Hne. exact Hk.
Qed.

Lemma keepsBuffers_onVisitorWriter f : keeps keepsBuffers (onVisitorWriter f).
Proof. intros s [] s' [= <-] k Hk. exact Hk. Qed.

Lemma keepsBuffers_log_Printf text : keeps keepsBuffers (e_log_Printf text).
Proof. intros s [] s' [= <-] k Hk. exact Hk. Qed.

Lemma keepsBuffers_store b text : keeps keepsBuffers (onVisitor (storeBuffer b text)).
Proof. intros s [] s' [= <-] k Hk. apply storeBuffer_keeps, Hk. Qed.

Lemma keepsBuffers_bufferWriteLine b line : keeps keepsBuffers (e_bufferWriteLine b line).
Proof.
  unfold e_bufferWriteLine.
  apply keeps_bind; [apply _ | apply keeps_get; apply _ |]. intros s.
  apply keeps_bind; [apply _ | apply keeps_orNil; apply _ |]. intros buffer.
  apply keepsBuffers_store.
Qed.

Lemma keepsBuffers_bufferWriteStored b k : keeps keepsBuffers (bufferWriteStored b k).
Proof.
  unfold bufferWriteStored.
  apply keeps_bind; [apply _ | apply keeps_get; apply _ |]. intros s.
  apply keeps_bind; [apply _ | apply keeps_orNil; apply _ |]. intros source.
  apply keeps_bind; [apply _ | apply keeps_orNil; apply _ |]. intros buffer.
  apply keepsBuffers_store.
Qed.

Lemma keepsBuffers_write buffer : keeps keepsBuffers (e_write buffer).
Proof.
  unfold e_write.
  apply keeps_bind; [apply _ | apply keeps_get; apply _ |]. intros s.
  apply keepsBuffers_onVisitorWriter.
Qed.

(** One step of a proof that a visit method removes no buffer. *)
Ltac buffers_step :=
  lazymatch goal with
  | |- keeps _ (forM_ _ _) => apply keeps_forM_; [apply _ | intros ?]
  | |- keeps _ (bind _ _) => apply keeps_bind; [apply _ | | intros ?]
  | |- keeps _ (if ?b then _ else _) => destruct b
  | |- keeps _ (match ?x with _ => _ end) => destruct x
  | |- keeps _ (e_writeLine _) => apply keepsBuffers_onVisitorWriter
  | |- keeps _ e_indent => apply keepsBuffers_onVisitorWriter
  | |- keeps _ e_dedent => apply keepsBuffers_onVisitorWriter
  | |- keeps _ (e_log_Printf _) => apply keepsBuffers_log_Printf
  | |- keeps _ (newBuffer _) => apply keepsBuffers_store
  | |- keeps _ (e_bufferWriteLine _ _) => apply keepsBuffers_bufferWriteLine
  | |- keeps _ (bufferWriteStored _ _) => apply keepsBuffers_bufferWriteStored
  | |- keeps _ (e_write _) => apply keepsBuffers_write
  | |- keeps _ (panic _) => apply keeps_panic
  | |- keeps _ (ret _) => apply keeps_ret; apply _
  | |- keeps _ get => apply keeps_get; apply _
  | |- keeps _ (orNil _) => apply keeps_orNil; apply _
  | |- keeps _ (liftResult _) => apply keeps_liftResult; apply _
  end.

Lemma keepsBuffers_visitRoot r : keeps keepsBuffers (ev_visitRoot r).
Proof. unfold ev_visitRoot. repeat buffers_step. Qed.

Lemma keepsBuffers_visitGroup r gp hidden : keeps keepsBuffers (ev_visitGroup r gp hidden).
Proof. unfold ev_visitGroup. cbv zeta. repeat buffers_step. Qed.

Lemma keepsBuffers_visitVersionedAPI r vp : keeps keepsBuffers (ev_visitVersionedAPI r vp).
Proof.
  unfold ev_visitVersionedAPI. cbv zeta.
  repeat buffers_step.
Qed.

Lemma keepsBuffers_visitComments r cs : keeps keepsBuffers (ev_visitComments r cs).
Proof. unfold ev_visitComments. cbv zeta. repeat buffers_step. Qed.

Lemma keepsBuffers_visitAPIObject r op : keeps keepsBuffers (ev_visitAPIObject r op).
Proof.
  unfold ev_visitAPIObject. cbv zeta.
  repeat buffers_step.
Qed.

Lemma keepsBuffers_visitRefMixinAPIObject r rmao :
  keeps keepsBuffers (ev_visitRefMixinAPIObject r rmao).
Proof.
  unfold ev_visitRefMixinAPIObject. cbv zeta.
  repeat buffers_step.
Qed.

Lemma keepsBuffers_visitConstructor r cp : keeps keepsBuffers (ev_visitConstructor r cp).
Proof. unfold ev_visitConstructor. cbv zeta. repeat buffers_step. Qed.

Lemma keepsBuffers_visitProperty r pp : keeps keepsBuffers (ev_visitProperty r pp).
Proof. unfold ev_visitProperty. buffers_step. Qed.

Lemma keepsBuffers_visitTypeAlias r pp : keeps keepsBuffers (ev_visitTypeAlias r pp).
Proof. unfold ev_visitTypeAlias, aliasTarget. cbv zeta. repeat buffers_step. Qed.

Lemma keepsBuffers_visitRefProperty r pp : keeps keepsBuffers (ev_visitRefProperty r pp).
Proof. unfold ev_visitRefProperty. cbv zeta. repeat buffers_step. Qed.

Lemma buffersKept_visit (f : root -> visiting emitVisitor) :
  (forall r, keeps keepsBuffers (f r)) -> keeps buffersKept (visit f).
Proof.
  intros Hf s [] s' Hrun. unfold visit in Hrun.
  destruct (f (vs_root s) (vs_visitor s, vs_log s)) as [[[] [v l]]| |] eqn:Hvisit;
    try discriminate.
  injection Hrun as <-. exact (Hf _ _ _ _ Hvisit).
Qed.

Lemma buffersKept_setParentMixinName pm name :
  keeps buffersKept (@setParentMixinName emitVisitor pm name).
Proof. intros s [] s' [= <-] k Hk. exact Hk. Qed.

Lemma buffersKept_theRoot : keeps buffersKept (@theRoot emitVisitor).
Proof. intros s a s' [= _ <-]. reflexivity. Qed.

Lemma buffersKept_property_accept fuel pp :
  keeps buffersKept (property_accept fuel pp).
Proof.
  revert pp. induction fuel as [|fuel IH]; intros pp; [apply keeps_outOfFuel|].
  cbn [property_accept].
  apply keeps_bind; [apply _ | apply buffersKept_theRoot |]. intros r.
  apply keeps_bind; [apply _ | apply keeps_orNil; apply _ |]. intros p.
  destruct (bool_decide (prop_kind p = typeAlias)).
  { apply buffersKept_visit. intros r0. apply keepsBuffers_visitTypeAlias. }
  apply keeps_bind; [apply _ | |]; [|intros _].
  { apply buffersKept_visit. intros r0. apply keepsBuffers_visitComments. }
  destruct (isMixinRef (prop_ref p)).
  - apply keeps_bind; [apply _ | apply keeps_orNil; apply _ |]. intros ref.
    apply keeps_bind; [apply _ | apply keeps_liftResult; apply _ |]. intros apiObject.
    unfold refMixinAPIObject_accept_with.
    apply keeps_bind; [apply _ | apply buffersKept_theRoot |]. intros r1.
    apply keeps_bind; [apply _ | apply keeps_orNil; apply _ |]. intros ao.
    apply keeps_bind; [apply _ | |]; [|intros _].
    + apply keeps_forM_; [apply _|]. intros kv.
      destruct (isSpecialProperty (prop_name kv.2)); [apply keeps_ret; apply _|].
      apply keeps_bind; [apply _ | apply buffersKept_setParentMixinName |].
      intros _. apply IH.
    + apply buffersKept_visit. intros r0. apply keepsBuffers_visitRefMixinAPIObject.
  - destruct (bool_decide (prop_ref p <> None)).
    { apply buffersKept_visit. intros r0. apply keepsBuffers_visitRefProperty. }
    destruct (bool_decide (prop_schemaType p = None)); [apply keeps_panic|].
    apply buffersKept_visit. intros r0. apply keepsBuffers_visitProperty.
Qed.

Lemma visit_stores (f : root -> visiting emitVisitor) k rest s s' :
  (forall r, f r = (newBuffer k;;; rest r)) ->
  (forall r, keeps keepsBuffers (rest r)) ->
  visit f s = Ok (tt, s') ->
  is_Some (e_buffers (vs_visitor s') !! k).
Proof.
  intros Hf Hrest Hrun. unfold visit in Hrun. rewrite Hf in Hrun.
  destruct ((newBuffer k;;; rest (vs_root s)) (vs_visitor s, vs_log s))
    as [[[] [v l]]| |] eqn:Hvisit; try discriminate.
  injection Hrun as <-. simpl.
  apply bind_inv_Ok in Hvisit as ([] & s1 & [= <-] & Hk).
  apply (Hrest _ _ _ _ Hk k). simpl. rewrite lookup_insert_eq. eexists. reflexivity.
Qed.

(** X22.  The visitor never loses a buffer during [property.accept],
    and when [property.accept] returns, the property it was called on
    has one: the type alias, the plain reference, the typed property
    and the expansion of a mixin reference all end by storing a buffer
    under the property, which is what [visitAPIObject] and
    [visitRefMixinAPIObject] then read. *)
Theorem X22_accept_leaves_a_buffer_for_the_property fuel pp
    (s s' : visitState emitVisitor) :
  property_accept fuel pp s = Ok (tt, s') ->
  is_Some (e_buffers (vs_visitor s') !! KeyProperty pp)
  /\ (forall k, is_Some (e_buffers (vs_visitor s) !! k) ->
                is_Some (e_buffers (vs_visitor s') !! k)).
Proof.
  intros Hrun. split; [|exact (buffersKept_property_accept fuel pp s tt s' Hrun)].
  destruct fuel as [|fuel]; [discriminate Hrun|].
  cbn [property_accept] in Hrun.
  apply bind_inv_Ok in Hrun as (r & s1 & _ & Hrun).
  apply bind_inv_Ok in Hrun as (p & s2 & _ & Hrun).
  destruct (bool_decide (prop_kind p = typeAlias)).
  { refine (visit_stores _ _ _ _ _ (fun r0 => eq_refl) _ Hrun).
    intros r0. unfold aliasTarget. repeat buffers_step. }
  apply bind_inv_Ok in Hrun as ([] & s3 & _ & Hrun).
  destruct (isMixinRef (prop_ref p)).
  - apply bind_inv_Ok in Hrun as (ref & s4 & _ & Hrun).
    apply bind_inv_Ok in Hrun as (apiObject & s5 & _ & Hrun).
    unfold refMixinAPIObject_accept_with in Hrun.
    apply bind_inv_Ok in Hrun as (r1 & s6 & _ & Hrun).
    apply bind_inv_Ok in Hrun as (ao & s7 & _ & Hrun).
    apply bind_inv_Ok in Hrun as ([] & s8 & _ & Hrun).
    refine (visit_stores _ _ _ _ _ (fun r0 => eq_refl) _ Hrun).
    intros r0. cbv zeta. repeat buffers_step.
  - destruct (bool_decide (prop_ref p <> None)).
    { refine (visit_stores _ _ _ _ _ (fun r0 => eq_refl) _ Hrun).
      intros r0. cbv zeta. repeat buffers_step. }
    destruct (bool_decide (prop_schemaType p = None)); [discriminate Hrun|].
    refine (visit_stores _ (KeyProperty pp) (fun _ => ret tt) _ _ _ _ Hrun).
    + intros r0. reflexivity.
    + intros r0. apply keeps_ret. apply _.
Qed.

End MoreProperties.

(** ** Results read off a computation *)

Lemma Ok_by_computation {A} `{EqDecision A} (x : result A) (a : A) :
  match x with Ok a' => bool_decide (a' = a) | _ => false end = true -> x = Ok a.
Proof.
  destruct x as [a'| |]; try discriminate.
  intros Ha. apply bool_decide_eq_true_1 in Ha. congruence.
Qed.

Lemma Ok_pair_by_computation {A S} `{EqDecision A} (x : result (A * S)) (a : A) (d : S) :
  match x with Ok (a', _) => bool_decide (a' = a) | _ => false end = true ->
  x = Ok (a, match x with Ok (_, s) => s | _ => d end).
Proof.
  destruct x as [[a' s]| |]; try discriminate.
  intros Ha. apply bool_decide_eq_true_1 in Ha. congruence.
Qed.
(** * The claims on the sample schemas *)

Import Sample.

Lemma C1_witness :
  newRoot deploymentSchema None None = Ok deploymentRoot
  /\ property_accept 3 specPtr (freshVisit deploymentRoot) = Ok (tt, afterSpecAccept)
  /\ vs_root afterSpecAccept = deploymentRoot
  /\ refMixinAPIObject_accept 3 specExpansion (freshVisit deploymentRoot)
     = Ok (tt, afterSpecExpansion)
  /\ vs_root afterSpecExpansion = deploymentRoot.
Proof.
  assert (Hbuilt : newRoot deploymentSchema None None = Ok deploymentRoot)
    by (unfold deploymentRoot; apply isOk_value; vm_compute; reflexivity).
  assert (Haccept : property_accept 3 specPtr (freshVisit deploymentRoot)
                    = Ok (tt, afterSpecAccept))
    by (unfold afterSpecAccept; apply isOk_state; vm_compute; reflexivity).
  assert (Hexpand : refMixinAPIObject_accept 3 specExpansion (freshVisit deploymentRoot)
                    = Ok (tt, afterSpecExpansion))
    by (unfold afterSpecExpansion; apply isOk_state; vm_compute; reflexivity).
  destruct (C1_expansion_leaves_the_tree_unchanged 3 deploymentSchema None None
              deploymentRoot Hbuilt) as [Hproperty Hobject].
  split; [exact Hbuilt|]. split; [exact Haccept|].
  split; [exact (Hproperty specPtr (freshVisit deploymentRoot) afterSpecAccept eq_refl
                   Haccept)|].
  split; [exact Hexpand|].
  exact (Hobject deploymentSpecPtr specPtr (freshVisit deploymentRoot) afterSpecExpansion
           eq_refl Hexpand).
Defined.

(** C2 as the claim states it fails.  The chosen properties of the
    volume are in the order [secret], [secretRef], [secretType]: the
    alias does not sort with [secret], and the names without the alias
    suffix are not in ascending order.  The property [data] is in the
    set and is not blacklisted, yet it is not chosen. *)
Lemma C2_counterexample :
  (sortAndFilterBlacklisted volumeRoot volumeProperties).*1
  = ["secret"; "secretRef"; "secretType"]
  /\ ~ Sorted (fun a b => String.le (blacklistName a.2) (blacklistName b.2))
        (sortAndFilterBlacklisted volumeRoot volumeProperties)
  /\ volumeProperties !! "data" = Some dataProperty
  /\ IsBlacklistedProperty (k8sVersionOf volumeRoot) (prop_path dataProperty)
       (blacklistName dataProperty) = false
  /\ ("data", dataProperty) ∉ sortAndFilterBlacklisted volumeRoot volumeProperties.
Proof.
  split; [vm_compute; reflexivity|].
  split; [apply (proj1 (bool_decide_eq_false _)); vm_compute; reflexivity|].
  split; [apply (bool_decide_eq_true_1 _); vm_compute; reflexivity|].
  split; [reflexivity|].
  apply (proj1 (bool_decide_eq_false _)). vm_compute. reflexivity.
Qed.

(** C10 as the claim states it fails.  The alias [dataType] is not a
    non-alias property and is not blacklisted, yet it is dropped as
    well: its reference does not parse to a version. *)
Lemma C10_counterexample :
  volumeProperties !! "dataType" = Some dataType
  /\ prop_kind dataType = typeAlias
  /\ IsBlacklistedProperty (k8sVersionOf volumeRoot) (prop_path dataType)
       (blacklistName dataType) = false
  /\ ("dataType", dataType) ∉ sortAndFilterBlacklisted volumeRoot volumeProperties.
Proof.
  split; [apply (bool_decide_eq_true_1 _); vm_compute; reflexivity|].
  split; [reflexivity|].
  split; [reflexivity|].
  apply (proj1 (bool_decide_eq_false _)). vm_compute. reflexivity.
Qed.

Lemma C10_witness :
  volumeProperties !! "data" = Some dataProperty
  /\ refHasNoVersion dataProperty = true
  /\ "data" ∉ (sortAndFilterBlacklisted volumeRoot volumeProperties).*1.
Proof.
  assert (Hdata : volumeProperties !! "data" = Some dataProperty)
    by (apply (bool_decide_eq_true_1 _); vm_compute; reflexivity).
  split; [exact Hdata|]. split; [reflexivity|].
  apply (proj1 (C10_reference_without_version_is_dropped volumeRoot volumeProperties
                  "data" dataProperty Hdata)).
  reflexivity.
Defined.

Lemma C9_witness :
  Version (parse "io.k8s.api.apps.v1beta1.DeploymentSpec") = Some "v1beta1"
  /\ getAPIObject deploymentRoot (parse "io.k8s.api.apps.v1beta1.DeploymentSpec")
     = Ok deploymentSpecPtr.
Proof.
  split; [reflexivity|].
  apply (proj1 (C9_getAPIObject_hidden_first deploymentRoot
                  (parse "io.k8s.api.apps.v1beta1.DeploymentSpec") "v1beta1" eq_refl)).
  apply (bool_decide_eq_true_1 _). vm_compute. reflexivity.
Defined.

Lemma C7_witness :
  Version (Parse "io.k8s.apimachinery.pkg.runtime.RawExtension") = None
  /\ sameDocument (Emit 5 deploymentSchemaWithRawExtension None None)
       (Emit 5 deploymentSchema None None) = true
  /\ addDefinition "io.k8s.apimachinery.pkg.runtime.RawExtension" rawExtensionDefinition
       deploymentRoot
     = Ok (tt, deploymentRoot).
Proof.
  assert (Hv : Version (Parse "io.k8s.apimachinery.pkg.runtime.RawExtension") = None)
    by reflexivity.
  split; [exact Hv|]. split; [vm_compute; reflexivity|].
  apply (proj1 (C7_definition_without_version_is_skipped
                  "io.k8s.apimachinery.pkg.runtime.RawExtension" rawExtensionDefinition
                  Hv)).
Defined.

Lemma C5_witness :
  Definitions twoPodsSchema
  = [podDefinition "io.k8s.api.core.v1.Pod"]
    ++ podDefinition "io.k8s.kubernetes.pkg.api.v1.Pod" :: []
  /\ forM_ [podDefinition "io.k8s.api.core.v1.Pod"]
       (fun '(defName, def) => addDefinition defName def)
       (emptyRoot twoPodsSchema None None) = Ok (tt, onePodRoot)
  /\ is_Some (va_apiObjects corePods !! "Pod")
  /\ Emit 5 twoPodsSchema None None
     = Panic "Duplicate object kinds with name 'io.k8s.kubernetes.pkg.api.v1.Pod'".
Proof.
  assert (Hbefore : forM_ [podDefinition "io.k8s.api.core.v1.Pod"]
                      (fun '(defName, def) => addDefinition defName def)
                      (emptyRoot twoPodsSchema None None) = Ok (tt, onePodRoot)).
  { unfold onePodRoot. apply isOk_state. vm_compute. reflexivity. }
  assert (Hva : derefVersionedAPI onePodRoot
                  (op_va (objectAt
                            (Nat.eqb
                               (length
                                  (TopLevelSpecs
                                     (podDefinition "io.k8s.kubernetes.pkg.api.v1.Pod").2))
                               0)
                            (Parse "io.k8s.kubernetes.pkg.api.v1.Pod") "v1"))
                = Some corePods).
  { unfold corePods. apply default_is_Some.
    apply (bool_decide_eq_true_1 _). vm_compute. reflexivity. }
  assert (Hdup : is_Some (va_apiObjects corePods !! "Pod")).
  { apply (bool_decide_eq_true_1 _). vm_compute. reflexivity. }
  split; [reflexivity|]. split; [exact Hbefore|]. split; [exact Hdup|].
  apply (C5_duplicate_kind_is_fatal twoPodsSchema
           [podDefinition "io.k8s.api.core.v1.Pod"]
           "io.k8s.kubernetes.pkg.api.v1.Pod"
           (podDefinition "io.k8s.kubernetes.pkg.api.v1.Pod").2 [] None None
           onePodRoot "v1" corePods eq_refl Hbefore eq_refl Hva Hdup).
Defined.

Lemma C6_witness :
  derefProperty requirementsRoot limitsTypePtr = Some limitsType
  /\ aliasRef limitsType = Some quantity
  /\ Version (Parse (Name quantity)) = None
  /\ property_accept 1 limitsTypePtr (freshVisit requirementsRoot)
     = Ok (tt, {| vs_root := requirementsRoot;
                  vs_visitor :=
                    storeBuffer (StoredBuffer (KeyProperty limitsTypePtr)) EmptyString
                      (newEmitVisitor newIndentWriter);
                  vs_log := [couldNotEmitTypeAlias (Name quantity)] |}).
Proof.
  assert (Hp : derefProperty requirementsRoot limitsTypePtr = Some limitsType)
    by (apply (bool_decide_eq_true_1 _); vm_compute; reflexivity).
  assert (Hkind : prop_kind limitsType = typeAlias) by reflexivity.
  assert (Href : aliasRef limitsType = Some quantity) by reflexivity.
  assert (Hv : Version (Parse (Name quantity)) = None) by reflexivity.
  split; [exact Hp|]. split; [exact Href|]. split; [exact Hv|].
  apply (proj1 (proj2 (C6_alias_without_version_is_skipped requirementsRoot limitsTypePtr
                         limitsType quantity Hp Hkind Href Hv))
           0 (freshVisit requirementsRoot) eq_refl).
Defined.

Lemma C4_witness :
  prop_kind volumesProperty = method
  /\ prop_ref volumesProperty = None
  /\ isMixinRef None = false
  /\ prop_schemaType volumesProperty = Some "array"
  /\ emitHelper 1 podSpecRoot volumesProperty None freshEmit
     = Ok (tt,
           {| es_m :=
                wrote
                  [ "// List of volumes.";
                    "withVolumes(volumes):: self + if std.type(volumes) == " +:+ dquote
                      +:+ "array" +:+ dquote
                      +:+ " then {volumes: volumes} else {volumes: [volumes]},";
                    "// List of volumes.";
                    "withVolumesMixin(volumes):: self + if std.type(volumes) == " +:+ dquote
                      +:+ "array" +:+ dquote
                      +:+ " then {volumes+: volumes} else {volumes+: [volumes]}," ]
                  newIndentWriter;
              es_log := [] |}).
Proof.
  assert (Hkind : prop_kind volumesProperty = method) by reflexivity.
  assert (Href : prop_ref volumesProperty = None) by reflexivity.
  assert (Hmixin : isMixinRef None = false) by reflexivity.
  assert (Htype : prop_schemaType volumesProperty = Some "array") by reflexivity.
  split; [exact Hkind|]. split; [exact Href|]. split; [exact Hmixin|].
  split; [exact Htype|].
  etransitivity;
    [exact (proj1 (C4_setter_and_mixin_by_type 0 podSpecRoot volumesProperty None
                     freshEmit Hkind Href Hmixin) Htype)|].
  vm_compute. reflexivity.
Defined.

(** C8 on the code.  With the second stamp alone, neither emitter
    writes the line of the Kubernetes SHA; with the first stamp alone,
    both dereference the missing second stamp and panic; with both
    stamps, both lines are written.  The second line is guarded by the
    first stamp. *)
Theorem C8_second_stamp_is_guarded_by_the_first :
  documentHeader (Emit 5 deploymentSchema None (Some "f00d")) = Ok (header ++ [EmptyString])
  /\ Emit 5 deploymentSchema (Some "cafe") None = Panic nilDereference
  /\ documentHeader (Emit 5 deploymentSchema (Some "cafe") (Some "f00d"))
     = Ok (header
           ++ [ "// SHA of ksonnet-lib HEAD: cafe";
                "// SHA of Kubernetes HEAD OpenAPI spec is generated from: f00d";
                EmptyString ])
  /\ emittedHeader 5 deploymentSchema None (Some "f00d") = Ok (header ++ [EmptyString])
  /\ emittedHeader 5 deploymentSchema (Some "cafe") None = Panic nilDereference
  /\ emittedHeader 5 deploymentSchema (Some "cafe") (Some "f00d")
     = Ok (header
           ++ [ "// SHA of ksonnet-lib HEAD: cafe";
                "// SHA of Kubernetes HEAD OpenAPI spec is generated from: f00d";
                EmptyString ]).
Proof.
  split; [vm_compute; reflexivity|].
  split; [vm_compute; reflexivity|].
  split; [vm_compute; reflexivity|].
  split; [vm_compute; reflexivity|].
  split; [vm_compute; reflexivity|].
  vm_compute; reflexivity.
Qed.

(** C3 on the code.  Two runs on one schema that range over a map in
    different orders can end differently.  With the fields [volumes]
    and [volumesType], the run that meets [volumes] first returns a
    document and the run that meets [volumesType] first panics in
    [newRoot].  With two definitions of one group whose resource
    markers name different groups, the group takes its qualified name
    from the definition met first: both runs return a document, and
    the documents differ, as do the texts of [root.emit]. *)
Theorem C3_outcome_depends_on_iteration_order :
  volumesFirst ≡ₚ volumesTypeFirst
  /\ returnsDocument (Emit 5 (podSpecSchema volumesFirst) None None) = true
  /\ (forall fuel,
        Emit fuel (podSpecSchema volumesTypeFirst) None None
        = Panic ("Can't create type alias 'volumesType' because a property with that "
                   +:+ "name already exists"))
  /\ [scaleDefinition; statefulSetDefinition] ≡ₚ [statefulSetDefinition; scaleDefinition]
  /\ returnsDocument (Emit 5 (appsSchema [scaleDefinition; statefulSetDefinition]) None None)
     = true
  /\ returnsDocument (Emit 5 (appsSchema [statefulSetDefinition; scaleDefinition]) None None)
     = true
  /\ Emit 5 (appsSchema [scaleDefinition; statefulSetDefinition]) None None
     <> Emit 5 (appsSchema [statefulSetDefinition; scaleDefinition]) None None
  /\ isOk (emittedText 5 (appsSchema [scaleDefinition; statefulSetDefinition])) = true
  /\ isOk (emittedText 5 (appsSchema [statefulSetDefinition; scaleDefinition])) = true
  /\ emittedText 5 (appsSchema [scaleDefinition; statefulSetDefinition])
     <> emittedText 5 (appsSchema [statefulSetDefinition; scaleDefinition]).
Proof.
  split; [apply perm_swap|].
  split; [vm_compute; reflexivity|].
  split.
  { intros fuel. unfold Emit.
    assert (Hroot : newRoot (podSpecSchema volumesTypeFirst) None None
                    = Panic ("Can't create type alias 'volumesType' because a property "
                               +:+ "with that name already exists"))
      by (vm_compute; reflexivity).
    rewrite Hroot. reflexivity. }
  split; [apply perm_swap|].
  split; [vm_compute; reflexivity|].
  split; [vm_compute; reflexivity|].
  split.
  { intros Heq.
    assert (Hsame : sameDocument
                      (Emit 5 (appsSchema [statefulSetDefinition; scaleDefinition]) None None)
                      (Emit 5 (appsSchema [statefulSetDefinition; scaleDefinition]) None None)
                    = true) by (vm_compute; reflexivity).
    rewrite <- Heq in Hsame at 1. vm_compute in Hsame. discriminate Hsame. }
  split; [vm_compute; reflexivity|].
  split; [vm_compute; reflexivity|].
  intros Heq.
  assert (Hsame : sameText
                    (emittedText 5 (appsSchema [statefulSetDefinition; scaleDefinition]))
                    (emittedText 5 (appsSchema [statefulSetDefinition; scaleDefinition]))
                  = true) by (vm_compute; reflexivity).
  rewrite <- Heq in Hsame at 1. vm_compute in Hsame. discriminate Hsame.
Qed.
(** * The further properties on the sample schemas *)

Lemma X1_witness :
  Forall (fun l => (0 <= line_depth l)%Z) (iw_lines twoLines)
  /\ write twoLines EmptyString = Ok (EmptyString +:+ rendered (iw_lines twoLines)).
Proof.
  assert (H : Forall (fun l => (0 <= line_depth l)%Z) (iw_lines twoLines))
    by (repeat constructor; simpl; lia).
  split; [exact H|].
  exact (proj2 (X1_write_renders_records_in_order twoLines EmptyString
                  (EmptyString +:+ rendered (iw_lines twoLines))) (conj H eq_refl)).
Defined.

Lemma X2_witness :
  Exists (fun l => (line_depth l < 0)%Z) (iw_lines dedented)
  /\ write dedented EmptyString = Panic "strings: negative Repeat count".
Proof.
  assert (H : Exists (fun l => (line_depth l < 0)%Z) (iw_lines dedented))
    by (apply Exists_cons_tl, Exists_cons_hd; simpl; lia).
  split; [exact H|]. exact (X2_write_panics_on_negative_depth dedented EmptyString H).
Defined.

Lemma X3_witness :
  iw_depth (insert_ twoLines openBlock) = iw_depth openBlock
  /\ write (insert_ twoLines openBlock) EmptyString
     = Ok (EmptyString +:+ rendered (iw_lines openBlock)
             +:+ renderedWithin (iw_depth openBlock) (iw_lines twoLines)).
Proof.
  apply (X3_insert_renders_at_current_depth twoLines openBlock EmptyString).
  - simpl. lia.
  - repeat constructor; simpl; lia.
  - repeat constructor; simpl; lia.
Defined.

Lemma X5_witness :
  Version (parse scaleDefinition.1) = Some "v1beta1"
  /\ derefAPIObject deploymentRoot scalePtr = None
  /\ exists r',
       createAPIObject (parse scaleDefinition.1) scaleDefinition.2 deploymentRoot
       = Ok (scalePtr, r')
       /\ derefAPIObject r' scalePtr
          = Some (newAPIObject (parse scaleDefinition.1) (op_va scalePtr)
                    scaleDefinition.2)
       /\ (forall op, op <> scalePtr -> derefAPIObject r' op = derefAPIObject deploymentRoot op)
       /\ groupsOf true r' = groupsOf true deploymentRoot
       /\ root_spec r' = root_spec deploymentRoot
       /\ ksonnetLibSHA r' = ksonnetLibSHA deploymentRoot
       /\ k8sSHA r' = k8sSHA deploymentRoot.
Proof.
  assert (Hv : Version (parse scaleDefinition.1) = Some "v1beta1") by reflexivity.
  assert (Hfree : derefAPIObject deploymentRoot scalePtr = None)
    by (apply (bool_decide_eq_true_1 _); vm_compute; reflexivity).
  split; [exact Hv|]. split; [exact Hfree|].
  exact (X5_createAPIObject_adds_one_object (parse scaleDefinition.1) scaleDefinition.2
           deploymentRoot "v1beta1" Hv Hfree).
Defined.

Lemma X6_witness :
  createAPIObject (parse scaleDefinition.1) scaleDefinition.2 deploymentRoot
  = Ok (scalePtr, withScale)
  /\ derefGroup deploymentRoot appsPtr = Some appsGroup
  /\ exists g',
       derefGroup withScale appsPtr = Some g'
       /\ group_name g' = "apps"
       /\ group_qualifiedName g' = "apps".
Proof.
  assert (Hrun : createAPIObject (parse scaleDefinition.1) scaleDefinition.2 deploymentRoot
                 = Ok (scalePtr, withScale)).
  { unfold withScale. apply Ok_pair_by_computation. vm_compute. reflexivity. }
  assert (Hg : derefGroup deploymentRoot appsPtr = Some appsGroup).
  { unfold appsGroup. apply default_is_Some.
    apply (bool_decide_eq_true_1 _). vm_compute. reflexivity. }
  split; [exact Hrun|]. split; [exact Hg|].
  destruct (X6_group_keeps_first_qualifiedName _ _ _ _ _ Hrun) as (g' & Hg' & Hnames).
  exists g'. split; [exact Hg'|].
  change (vp_group (op_va scalePtr)) with appsPtr in Hnames.
  rewrite Hg in Hnames. destruct Hnames as [Hname Hqualified].
  split; [rewrite Hname | rewrite Hqualified]; vm_compute; reflexivity.
Defined.

Lemma X7_witness :
  createAPIObject (parse scaleDefinition.1) scaleDefinition.2 deploymentRoot
  = Ok (scalePtr, withScale)
  /\ getAPIObject withScale (parse scaleDefinition.1) = Ok scalePtr.
Proof.
  assert (Hrun : createAPIObject (parse scaleDefinition.1) scaleDefinition.2 deploymentRoot
                 = Ok (scalePtr, withScale)).
  { unfold withScale. apply Ok_pair_by_computation. vm_compute. reflexivity. }
  split; [exact Hrun|].
  destruct (X7_getAPIObject_after_createAPIObject _ _ _ _ _ Hrun) as (_ & Hvisible & _).
  apply (Hvisible "v1beta1"); [discriminate | reflexivity |].
  apply (bool_decide_eq_true_1 _). vm_compute. reflexivity.
Defined.

Lemma X8_witness :
  newRoot deploymentSchema None None = Ok deploymentRoot
  /\ wellKeyed deploymentRoot
  /\ root_spec deploymentRoot = deploymentSchema
  /\ ksonnetLibSHA deploymentRoot = None
  /\ k8sSHA deploymentRoot = None.
Proof.
  assert (Hbuilt : newRoot deploymentSchema None None = Ok deploymentRoot)
    by (unfold deploymentRoot; apply isOk_value; vm_compute; reflexivity).
  split; [exact Hbuilt|].
  exact (X8_newRoot_builds_a_well_keyed_tree deploymentSchema None None deploymentRoot
           Hbuilt).
Defined.

Lemma X9_witness :
  newRoot deploymentSchema None None = Ok deploymentRoot
  /\ root_accept 5 (freshVisit deploymentRoot) = Ok (tt, afterAccept)
  /\ vs_root afterAccept = deploymentRoot.
Proof.
  assert (Hbuilt : newRoot deploymentSchema None None = Ok deploymentRoot)
    by (unfold deploymentRoot; apply isOk_value; vm_compute; reflexivity).
  assert (Hrun : root_accept 5 (freshVisit deploymentRoot) = Ok (tt, afterAccept))
    by (unfold afterAccept; apply isOk_state; vm_compute; reflexivity).
  split; [exact Hbuilt|]. split; [exact Hrun|].
  exact (X9_accept_leaves_the_built_tree_unchanged 5 deploymentSchema None None
           deploymentRoot (newEmitVisitor newIndentWriter) [] afterAccept Hbuilt Hrun).
Defined.

Lemma X10_witness :
  newRoot deploymentSchema None None = Ok deploymentRoot
  /\ derefAPIObject deploymentRoot deploymentSpecPtr = Some deploymentSpecObject
  /\ sortAndFilterBlacklisted_range (k8sVersionOf deploymentRoot)
       (reverse (map_to_list (ao_properties deploymentSpecObject)))
     = sortAndFilterBlacklisted deploymentRoot (ao_properties deploymentSpecObject).
Proof.
  assert (Hbuilt : newRoot deploymentSchema None None = Ok deploymentRoot)
    by (unfold deploymentRoot; apply isOk_value; vm_compute; reflexivity).
  assert (Hao : derefAPIObject deploymentRoot deploymentSpecPtr = Some deploymentSpecObject).
  { unfold deploymentSpecObject. apply default_is_Some.
    apply (bool_decide_eq_true_1 _). vm_compute. reflexivity. }
  split; [exact Hbuilt|]. split; [exact Hao|].
  destruct (X10_sorted_slices_ignore_iteration_order deploymentSchema None None
              deploymentRoot Hbuilt) as (_ & _ & _ & Hproperties).
  apply (Hproperties deploymentSpecPtr deploymentSpecObject _ Hao).
  apply reverse_Permutation.
Defined.

Lemma X11_witness :
  derefAPIObject barePodSpecRoot podSpecPtr = Some barePodSpec
  /\ (exists r',
         forM_ [("volumes", volumesField); ("volumes" +:+ "Type", volumesTypeField)]
           (addProperty "io.k8s.api.core.v1.PodSpec" podSpecPtr) barePodSpecRoot
         = Ok (tt, r')
         /\ derefProperty r' {| pp_obj := podSpecPtr; pp_key := "volumes" +:+ "Type" |}
            = Some (newPropertyMethod ("volumes" +:+ "Type") "io.k8s.api.core.v1.PodSpec"
                      volumesTypeField podSpecPtr))
  /\ forM_ [("volumes" +:+ "Type", volumesTypeField); ("volumes", volumesField)]
       (addProperty "io.k8s.api.core.v1.PodSpec" podSpecPtr) barePodSpecRoot
     = Panic ("Can't create type alias '" +:+ ("volumes" +:+ "Type")
                +:+ "' because a property with that name already exists").
Proof.
  assert (Hao : derefAPIObject barePodSpecRoot podSpecPtr = Some barePodSpec).
  { unfold barePodSpec. apply default_is_Some.
    apply (bool_decide_eq_true_1 _). vm_compute. reflexivity. }
  assert (Hfree : ao_properties barePodSpec !! ("volumes" +:+ "Type") = None)
    by (apply (bool_decide_eq_true_1 _); vm_compute; reflexivity).
  assert (Hwants : wantsTypeAlias
                     (newPropertyMethod "volumes" "io.k8s.api.core.v1.PodSpec" volumesField
                        podSpecPtr) volumesField = true) by reflexivity.
  assert (HwantsT : wantsTypeAlias
                      (newPropertyMethod ("volumes" +:+ "Type")
                         "io.k8s.api.core.v1.PodSpec" volumesTypeField podSpecPtr)
                      volumesTypeField = false) by reflexivity.
  split; [exact Hao|].
  exact (X11_alias_collision_depends_on_order "io.k8s.api.core.v1.PodSpec" podSpecPtr
           "volumes" volumesField volumesTypeField barePodSpecRoot barePodSpec
           Hao Hfree Hwants HwantsT).
Defined.

Lemma X12_witness :
  ("number" ∉ ["array"; "integer"; "string"; "boolean"; "object"])
  /\ emitHelper 1 podSpecRoot weightProperty None freshEmit
     = Panic ("Unrecognized type '" +:+ "number" +:+ "'").
Proof.
  assert (Hother : "number" ∉ ["array"; "integer"; "string"; "boolean"; "object"])
    by (apply (proj1 (bool_decide_eq_false _)); vm_compute; reflexivity).
  assert (Hkind : prop_kind weightProperty = method) by reflexivity.
  assert (Href : prop_ref weightProperty = None) by reflexivity.
  assert (Hmixin : isMixinRef None = false) by reflexivity.
  assert (Htype : prop_schemaType weightProperty = Some "number") by reflexivity.
  split; [exact Hother|].
  exact (proj1 (X12_emitHelper_rejects_other_types 0 podSpecRoot weightProperty None
                  freshEmit Hkind Href Hmixin) "number" Htype Hother).
Defined.

Lemma X13_witness :
  isMixinRef (Some intOrString) = false
  /\ emitHelper 1 podSpecRoot portProperty None freshEmit
     = Ok (tt, {| es_m := wrote ["// Port to connect to."; "withPort(port):: {port: port},"]
                            newIndentWriter;
                  es_log := [] |}).
Proof.
  assert (Hkind : prop_kind portProperty = method) by reflexivity.
  assert (Href : prop_ref portProperty = Some intOrString) by reflexivity.
  assert (Hmixin : isMixinRef (Some intOrString) = false) by reflexivity.
  split; [exact Hmixin|].
  etransitivity;
    [exact (X13_plain_reference_gets_one_setter 0 podSpecRoot portProperty intOrString
              None freshEmit Hkind Href Hmixin)|].
  vm_compute. reflexivity.
Defined.

Lemma X14_witness :
  Version (Parse (Name "#/definitions/io.k8s.api.core.v1.Volume")) = Some "v1"
  /\ emitAsTypeAlias podSpecRoot
       (newPropertyTypeAlias ("volumes" +:+ "Type") "io.k8s.api.core.v1.PodSpec"
          volumesField podSpecPtr) freshEmit
     = Ok (tt, {| es_m := wrote ["volumesType:: hidden.core.v1.volume,"] newIndentWriter;
                  es_log := [] |}).
Proof.
  assert (Href : aliasRef (newPropertyTypeAlias ("volumes" +:+ "Type")
                             "io.k8s.api.core.v1.PodSpec" volumesField podSpecPtr)
                 = Some "#/definitions/io.k8s.api.core.v1.Volume") by reflexivity.
  assert (Hv : Version (Parse (Name "#/definitions/io.k8s.api.core.v1.Volume"))
               = Some "v1") by reflexivity.
  split; [exact Hv|].
  etransitivity;
    [exact (X14_alias_is_named_after_its_property podSpecRoot "volumes"
              "io.k8s.api.core.v1.PodSpec" volumesField podSpecPtr
              "#/definitions/io.k8s.api.core.v1.Volume" "v1" freshEmit Href Hv)|].
  vm_compute. reflexivity.
Defined.

Lemma X15_witness :
  ao_properties podSpecWithNew !! "new" = Some newProperty
  /\ emitConstructor barePodSpecRoot podSpecWithNew "new" [] freshEmit
     = Panic ("Attempted to create constructor, but '" +:+ "new"
                +:+ "' property already existed at '" +:+ prop_path newProperty +:+ "'")
  /\ ao_properties barePodSpec !! "name" = None
  /\ emitConstructor barePodSpecRoot barePodSpec "new" ([] ++ nameParam :: []) freshEmit
     = Panic ("Attempted to create constructor, but property '" +:+ param_ID nameParam
                +:+ "' does not exist").
Proof.
  assert (Hnew : ao_properties podSpecWithNew !! "new" = Some newProperty)
    by (apply (bool_decide_eq_true_1 _); vm_compute; reflexivity).
  assert (Hfree : ao_properties barePodSpec !! "new" = None)
    by (apply (bool_decide_eq_true_1 _); vm_compute; reflexivity).
  assert (Hmissing : ao_properties barePodSpec !! param_ID nameParam = None)
    by (apply (bool_decide_eq_true_1 _); vm_compute; reflexivity).
  split; [exact Hnew|].
  split.
  { exact (proj1 (X15_emitConstructor_panics barePodSpecRoot podSpecWithNew "new"
                    freshEmit) newProperty [] Hnew). }
  split; [exact Hmissing|].
  exact (proj2 (X15_emitConstructor_panics barePodSpecRoot barePodSpec "new" freshEmit)
           [] nameParam [] Hfree (List.Forall_nil _) eq_refl Hmissing).
Defined.

Lemma X16_witness :
  newRoot lowerKindSchema None None = Ok lowerKindRoot
  /\ derefAPIObject lowerKindRoot lowerKindPtr = Some lowerKindObject
  /\ RewriteAsIdentifier (k8sVersionOf lowerKindRoot) (ao_name lowerKindObject)
     = ao_name lowerKindObject
  /\ apiObject_emit 5 lowerKindRoot lowerKindObject freshEmit
     = Panic (lowercaseCollision (ao_name lowerKindObject) "v1beta1").
Proof.
  assert (Hbuilt : newRoot lowerKindSchema None None = Ok lowerKindRoot)
    by (unfold lowerKindRoot; apply isOk_value; vm_compute; reflexivity).
  assert (Hao : derefAPIObject lowerKindRoot lowerKindPtr = Some lowerKindObject).
  { unfold lowerKindObject. apply default_is_Some.
    apply (bool_decide_eq_true_1 _). vm_compute. reflexivity. }
  assert (Hsame : RewriteAsIdentifier (k8sVersionOf lowerKindRoot) (ao_name lowerKindObject)
                  = ao_name lowerKindObject) by (vm_compute; reflexivity).
  split; [exact Hbuilt|]. split; [exact Hao|]. split; [exact Hsame|].
  exact (X16_object_collides_with_itself lowerKindSchema None None lowerKindRoot
           lowerKindPtr lowerKindObject 5 freshEmit Hbuilt Hao Hsame).
Defined.

Lemma X17_witness :
  root_emit 5 deploymentRoot freshEmit = Ok (tt, emittedState)
  /\ appended 0 0 freshEmit emittedState.
Proof.
  assert (Hrun : root_emit 5 deploymentRoot freshEmit = Ok (tt, emittedState))
    by (unfold emittedState; apply isOk_state; vm_compute; reflexivity).
  split; [exact Hrun|].
  exact (proj1 (X17_emit_methods_are_balanced 5 deploymentRoot) freshEmit tt emittedState
           Hrun).
Defined.

Lemma X18_witness :
  root_emit 5 deploymentRoot freshEmit = Ok (tt, emittedState)
  /\ write (es_m emittedState) EmptyString
     = Ok (EmptyString +:+ rendered (iw_lines (es_m emittedState))).
Proof.
  assert (Hrun : root_emit 5 deploymentRoot freshEmit = Ok (tt, emittedState))
    by (unfold emittedState; apply isOk_state; vm_compute; reflexivity).
  split; [exact Hrun|].
  exact (X18_emitted_text_always_renders 5 deploymentRoot [] emittedState EmptyString Hrun).
Defined.

Lemma X19_witness :
  getAPIObject selfRoot (Parse (Name schemaProps)) = Ok schemaPropsPtr
  /\ derefAPIObject selfRoot schemaPropsPtr = Some schemaPropsObject
  /\ ao_properties schemaPropsObject !! "not" = Some notProperty
  /\ forall fuel parentMixinName s y,
       emitHelper fuel selfRoot notProperty parentMixinName s <> Ok y.
Proof.
  assert (Hkind : prop_kind notProperty = method) by reflexivity.
  assert (Href : prop_ref notProperty = Some schemaProps) by reflexivity.
  assert (Hmixin : isMixinRef (Some schemaProps) = true) by reflexivity.
  assert (Hget : getAPIObject selfRoot (Parse (Name schemaProps)) = Ok schemaPropsPtr)
    by (apply Ok_by_computation; vm_compute; reflexivity).
  assert (Hao : derefAPIObject selfRoot schemaPropsPtr = Some schemaPropsObject).
  { unfold schemaPropsObject. apply default_is_Some.
    apply (bool_decide_eq_true_1 _). vm_compute. reflexivity. }
  assert (Hk : ao_properties schemaPropsObject !! "not" = Some notProperty)
    by (apply (bool_decide_eq_true_1 _); vm_compute; reflexivity).
  assert (Hsel : selected (k8sVersionOf selfRoot) notProperty = true)
    by (vm_compute; reflexivity).
  assert (Hspecial : isSpecialProperty (prop_name notProperty) = false) by reflexivity.
  split; [exact Hget|]. split; [exact Hao|]. split; [exact Hk|].
  exact (X19_emitHelper_never_returns_on_self_reference selfRoot notProperty schemaProps
           schemaPropsPtr schemaPropsObject "not" Hkind Href Hmixin Hget Hao Hk Hsel
           Hspecial).
Defined.

Lemma X20_witness :
  newRoot selfSchema None None = Ok selfRoot
  /\ derefProperty selfRoot notPtr = Some notProperty
  /\ getAPIObject selfRoot (Parse (Name schemaProps)) = Ok (pp_obj notPtr)
  /\ forall fuel y, Emit fuel selfSchema None None <> Ok y.
Proof.
  assert (Hbuilt : newRoot selfSchema None None = Ok selfRoot)
    by (unfold selfRoot; apply isOk_value; vm_compute; reflexivity).
  assert (Hp : derefProperty selfRoot notPtr = Some notProperty)
    by (apply (bool_decide_eq_true_1 _); vm_compute; reflexivity).
  assert (Hkind : prop_kind notProperty = method) by reflexivity.
  assert (Href : prop_ref notProperty = Some schemaProps) by reflexivity.
  assert (Hmixin : isMixinRef (Some schemaProps) = true) by reflexivity.
  assert (Hget : getAPIObject selfRoot (Parse (Name schemaProps)) = Ok (pp_obj notPtr))
    by (apply Ok_by_computation; vm_compute; reflexivity).
  assert (Hsel : selected (k8sVersionOf selfRoot) notProperty = true)
    by (vm_compute; reflexivity).
  assert (Hspecial : isSpecialProperty (prop_name notProperty) = false) by reflexivity.
  split; [exact Hbuilt|]. split; [exact Hp|]. split; [exact Hget|].
  exact (proj2 (X20_Emit_never_returns_on_self_reference selfSchema None None selfRoot
                  notPtr notProperty schemaProps Hbuilt Hp Hkind Href Hmixin Hget Hsel
                  Hspecial)).
Defined.

Lemma X21_witness :
  derefProperty (vs_root (freshVisit deploymentRoot)) replicasPtr = Some replicasProperty
  /\ property_accept 1 replicasPtr (freshVisit deploymentRoot)
     = Ok (tt, {| vs_root := deploymentRoot;
                  vs_visitor :=
                    storeBuffer (StoredBuffer (KeyProperty replicasPtr)) EmptyString
                      (storeBuffer
                         (StoredBuffer (KeyComments (CommentsOfProperty replicasPtr)))
                         (commentsText newIndentWriter (prop_comments replicasProperty))
                         (newEmitVisitor newIndentWriter));
                  vs_log := [] |}).
Proof.
  assert (Hp : derefProperty (vs_root (freshVisit deploymentRoot)) replicasPtr
               = Some replicasProperty)
    by (apply (bool_decide_eq_true_1 _); vm_compute; reflexivity).
  assert (Hkind : prop_kind replicasProperty = method) by reflexivity.
  assert (Href : prop_ref replicasProperty = None) by reflexivity.
  assert (Hmixin : isMixinRef None = false) by reflexivity.
  assert (Htype : prop_schemaType replicasProperty = Some "integer") by reflexivity.
  split; [exact Hp|].
  exact (X21_typed_property_is_stored_empty 0 replicasPtr replicasProperty "integer"
           (freshVisit deploymentRoot) Hp Hkind Href Hmixin Htype).
Defined.

Lemma X22_witness :
  property_accept 1 replicasPtr (freshVisit deploymentRoot) = Ok (tt, afterReplicas)
  /\ is_Some (e_buffers (vs_visitor afterReplicas) !! KeyProperty replicasPtr)
  /\ (forall k, is_Some (e_buffers (vs_visitor (freshVisit deploymentRoot)) !! k) ->
                is_Some (e_buffers (vs_visitor afterReplicas) !! k)).
Proof.
  assert (Hrun : property_accept 1 replicasPtr (freshVisit deploymentRoot)
                 = Ok (tt, afterReplicas))
    by (unfold afterReplicas; apply isOk_state; vm_compute; reflexivity).
  split; [exact Hrun|].
  exact (X22_accept_leaves_a_buffer_for_the_property 1 replicasPtr
           (freshVisit deploymentRoot) afterReplicas Hrun).
Defined.
